(** * Atropos: read statistics and read filters

    A shallow embedding of [atropos/commands/stats.py] and
    [atropos/commands/trim/filters.py].

    Python objects become records, dictionaries become finite maps, and
    methods that mutate [self] become functions that return the new object.
    A method that can raise returns the object as it is at the moment of the
    raise together with the exception, because mutations made before a
    [raise] stay visible in Python. *)

From Stdlib Require Import ZArith Ascii String List Floats.
From stdpp Require Import base option list gmap strings sorting pretty.

Local Open Scope Z_scope.

(** ** Python values *)

Module Py.

(** The exceptions that the embedded code can raise. *)
Inductive exn :=
| ZeroDivisionError
| UnboundLocalError (var : string)
| NameError (var : string)
| TypeError
| AttributeError
| IndexError
| OverflowError
| ValueError (msg : string)
| KeyError (key : string)
| RecursionError
| AssertionError.

(** Outcome of a call that returns a value or raises. *)
Definition result (A : Type) := (exn + A)%type.

(** [len(s)] of a [str]. *)
Definition len (s : string) : Z := Z.of_nat (String.length s).

(** [s.count(c)] for a one-character [c]. *)
Fixpoint count (c : ascii) (s : string) : Z :=
  match s with
  | EmptyString => 0
  | String a s' => (if Ascii.eqb a c then 1 else 0) + count c s'
  end.

(** [ord(c)]. *)
Definition ord (c : ascii) : Z := Z.of_N (N_of_ascii c).

(** [c.lower()] on one character: only ["A".."Z"] change. *)
Definition lower_char (c : ascii) : ascii :=
  let n := N_of_ascii c in
  if ((65 <=? n) && (n <=? 90))%N then ascii_of_N (n + 32) else c.

(** [s.lower()]. *)
Fixpoint lower (s : string) : string :=
  match s with
  | EmptyString => EmptyString
  | String a s' => String (lower_char a) (lower s')
  end.

(** The characters of a [str], as iteration yields them. *)
Fixpoint chars (s : string) : list ascii :=
  match s with
  | EmptyString => []
  | String a s' => a :: chars s'
  end.

(** Truth value of an optional [str]: [None] and [""] are false. *)
Definition truthy_str (o : option string) : bool :=
  match o with
  | Some (String _ _) => true
  | _ => false
  end.

(** Truth value of an attribute holding [None], [False] or [True]. *)
Definition truthy (o : option bool) : bool :=
  match o with
  | Some b => b
  | None => false
  end.

(** *** Numbers

    A Python [float] is a binary64 value, here Rocq's primitive [float].
    An [int] is unbounded, here [Z]. *)

Inductive num :=
| Int (z : Z)
| Float (x : float).

(** [float(z)]: the nearest binary64 value, ties to even. *)
Definition float_of_Z (z : Z) : float :=
  SF2Prim (binary_normalize prec emax z 0 false).

(** Exact comparison of a [float] with an [int], as Python compares mixed
    operands: the mathematical values are compared, no operand is rounded.
    [None] when the float is a NaN, for which every ordering test is false. *)
Definition float_cmp_Z (x : float) (z : Z) : option comparison :=
  match Prim2SF x with
  | S754_nan => None
  | S754_zero _ => Some (0 ?= z)
  | S754_infinity s => Some (if s then Lt else Gt)
  | S754_finite s m e =>
      let v := if s then Z.neg m else Z.pos m in
      Some (if 0 <=? e then (v * 2 ^ e ?= z) else (v ?= z * 2 ^ (- e)))
  end.

(** [a < b]. *)
Definition lt (a b : num) : bool :=
  match a, b with
  | Int x, Int y => x <? y
  | Float x, Float y => PrimFloat.ltb x y
  | Float x, Int y => match float_cmp_Z x y with Some Lt => true | _ => false end
  | Int x, Float y => match float_cmp_Z y x with Some Gt => true | _ => false end
  end.

(** [a > b] is [b < a]; [a >= b] is spelled out for the NaN case. *)
Definition gt (a b : num) : bool := lt b a.

Definition ge (a b : num) : bool :=
  match a, b with
  | Int x, Int y => y <=? x
  | Float x, Float y => PrimFloat.leb y x
  | Float x, Int y =>
      match float_cmp_Z x y with Some Gt | Some Eq => true | _ => false end
  | Int x, Float y =>
      match float_cmp_Z y x with Some Lt | Some Eq => true | _ => false end
  end.

(** The quotient of two [int]s as a [float], for a divisor that is not 0:
    the correctly rounded quotient. Both operands are converted exactly when
    they are below [2^53] in absolute value, which sequence lengths and
    symbol counts are. *)
Definition fdiv (a b : Z) : float :=
  PrimFloat.div (float_of_Z a) (float_of_Z b).

(** [a / b] on two [int]s: true division. *)
Definition truediv (a b : Z) : result float :=
  if b =? 0 then inl ZeroDivisionError else inr (fdiv a b).

(** Round a non-negative rational [m / 2^k] to the nearest integer, ties to
    the even one. *)
Definition round_half_even_shift (m : Z) (k : Z) : Z :=
  let d := 2 ^ k in
  let q := m / d in
  let r := m mod d in
  match 2 * r ?= d with
  | Lt => q
  | Gt => q + 1
  | Eq => if Z.even q then q else q + 1
  end.

(** [round(x)] with one argument: the nearest [int], ties to even;
    raises on NaN ([ValueError]) and on infinities ([OverflowError]). *)
Definition round (x : float) : result Z :=
  match Prim2SF x with
  | S754_nan => inl (ValueError "cannot convert float NaN to integer")
  | S754_infinity _ => inl OverflowError
  | S754_zero _ => inr 0
  | S754_finite s m e =>
      let a := if 0 <=? e then Z.pos m * 2 ^ e
               else round_half_even_shift (Z.pos m) (- e) in
      inr (if s then - a else a)
  end.

End Py.

(** ** Reads

    The read class lives in [atropos.seqio], outside the embedded files. The
    record has the attributes that the embedded code reads. *)

Module Seqio.

(** Modelled from the spec: the input record of [atropos.seqio], "a symbol
    sequence, an optional parallel quality sequence and a name string",
    with the [merged] marker and the adapter [match] marker that the
    predicates test. *)
Record Read := {
  name : string;
  sequence : string;
  qualities : option string;
  merged : bool;
  adapter_match : option string   (* [read.match]: [None] when untrimmed *)
}.

(** Modelled from the spec: [len(read)] is the length of its sequence. *)
Definition len_read (r : Read) : Z := Py.len (sequence r).

End Seqio.

Import Seqio.

(** ** filters.py *)

Module Filters.

Definition DISCARD := true.
Definition KEEP := false.

(** A filter is a callable from a read to a truth value. *)
Definition Filter := Read -> bool.

(** *** The filter classes *)

Definition MergedReadFilter : Filter := fun read => merged read.

Definition TooShortReadFilter (minimum_length : Z) : Filter :=
  fun read => len_read read <? minimum_length.

Definition TooLongReadFilter (maximum_length : Z) : Filter :=
  fun read => maximum_length <? len_read read.

Record NContentFilter := {
  is_proportion : bool;
  cutoff : Py.num
}.

(** [NContentFilter.__init__]: the assertion rejects a negative count. *)
Definition NContentFilter_init (count : Py.num) : Py.result NContentFilter :=
  if Py.ge count (Py.Int 0)
  then inr {| is_proportion := Py.lt count (Py.Float 1.0); cutoff := count |}
  else inl Py.AssertionError.

(** [read.sequence.lower().count('n')]. *)
Definition n_count (read : Read) : Z := Py.count "n" (Py.lower (sequence read)).

(** [NContentFilter.__call__]. The division stands behind the test of the
    length, where its divisor is not 0 and [Py.truediv] gives [Py.fdiv]. *)
Definition NContentFilter_call (self : NContentFilter) : Filter :=
  fun read =>
    if is_proportion self then
      if len_read read =? 0 then false
      else Py.gt (Py.Float (Py.fdiv (n_count read) (len_read read)))
                 (cutoff self)
    else Py.gt (Py.Int (n_count read)) (cutoff self).

Definition UntrimmedFilter : Filter :=
  fun read => bool_decide (adapter_match read = None).

Definition TrimmedFilter : Filter :=
  fun read => bool_decide (adapter_match read ≠ None).

Definition NoFilter_call : Filter := fun _ => false.

(** *** Wrappers

    Next to its result, [_filter] gives the reads on which the wrapped
    filter was called, in call order. The list is not part of the Python
    object; it records which calls the code makes. *)

Inductive WrapperKind :=
| SingleWrapper
| PairedWrapper (min_affected : Z).

Record FilterWrapper := {
  filtered : Z;
  filter : Filter;
  kind : WrapperKind
}.

Definition SingleWrapper_init (f : Filter) : FilterWrapper :=
  {| filtered := 0; filter := f; kind := SingleWrapper |}.

Definition PairedWrapper_init (f : Filter) (min_affected : Z)
  : Py.result FilterWrapper :=
  if bool_decide (min_affected = 1 ∨ min_affected = 2)
  then inr {| filtered := 0; filter := f; kind := PairedWrapper min_affected |}
  else inl (Py.ValueError "min_affected must be 1 or 2").

(** [SingleWrapper._filter]. *)
Definition SingleWrapper_filter (f : Filter) (read1 : Read)
    (read2 : option Read) : bool * list Read :=
  (f read1, [read1]).

(** [PairedWrapper._filter]. The second conjunct of the [and] is evaluated
    only when the first is true, and [self.filter(read2)] only when [read2]
    is not [None]. *)
Definition PairedWrapper_filter (f : Filter) (min_affected : Z)
    (read1 : Read) (read2 : option Read) : bool * list Read :=
  let failures := 0 in
  let failures := if f read1 then failures + 1 else failures in
  let log := [read1] in
  let '(cond, log) :=
    if min_affected - failures =? 1 then
      match read2 with
      | None => (true, log)
      | Some r2 => (f r2, log ++ [r2])
      end
    else (false, log) in
  let failures := if cond then failures + 1 else failures in
  (min_affected <=? failures, log).

Definition _filter (self : FilterWrapper) (read1 : Read) (read2 : option Read)
  : bool * list Read :=
  match kind self with
  | SingleWrapper => SingleWrapper_filter (filter self) read1 read2
  | PairedWrapper m => PairedWrapper_filter (filter self) m read1 read2
  end.

(** [FilterWrapper.__call__]: the verdict and the wrapper afterwards. *)
Definition call (self : FilterWrapper) (read1 : Read) (read2 : option Read)
  : bool * FilterWrapper :=
  if fst (_filter self read1 read2)
  then (DISCARD, {| filtered := filtered self + 1;
                    filter := filter self; kind := kind self |})
  else (KEEP, self).

(** [FilterWrapper.summarize]. *)
Definition summarize (self : FilterWrapper) : Z := filtered self.

(** *** The filter chain *)

(** The filter classes, used as keys of the chain. [TOther] stands for any
    further callable class a caller registers. *)
Inductive filter_type :=
| TMergedReadFilter
| TTooShortReadFilter
| TTooLongReadFilter
| TNContentFilter
| TUntrimmedFilter
| TTrimmedFilter
| TNoFilter
| TOther (class_name : string).

#[global] Instance filter_type_eq_dec : EqDecision filter_type.
Proof. solve_decision. Defined.

Record FilterFactory := {
  paired : string;
  factory_min_affected : Z
}.

(** [FilterFactory.__call__], given the filter that calling [filter_type]
    on the remaining arguments built. *)
Definition FilterFactory_call (self : FilterFactory) (fltr : Filter)
  : Py.result FilterWrapper :=
  if String.eqb (paired self) "both"
  then PairedWrapper_init fltr (factory_min_affected self)
  else inr (SingleWrapper_init fltr).

(** The [OrderedDict] of wrappers: pairs in insertion order, keys distinct. *)
Definition FilterDict := list (filter_type * FilterWrapper).

(** [d[k] = w] on an [OrderedDict]: a present key keeps its position. *)
Fixpoint setitem (d : FilterDict) (k : filter_type) (w : FilterWrapper)
  : FilterDict :=
  match d with
  | [] => [(k, w)]
  | (k', w') :: d' =>
      if decide (k' = k) then (k, w) :: d' else (k', w') :: setitem d' k w
  end.

Record Filters := {
  filters : FilterDict;
  filter_factory : FilterFactory
}.

Definition Filters_init (factory : FilterFactory) : Filters :=
  {| filters := []; filter_factory := factory |}.

(** [Filters.add_filter]. *)
Definition add_filter (self : Filters) (ft : filter_type) (fltr : Filter)
  : Py.result Filters :=
  match FilterFactory_call (filter_factory self) fltr with
  | inl e => inl e
  | inr w => inr {| filters := setitem (filters self) ft w;
                    filter_factory := filter_factory self |}
  end.

(** The loop of [Filters.filter] over the remaining items: the destination,
    the items afterwards, and the keys of the wrappers that were called. *)
Fixpoint filter_loop (items : FilterDict) (read1 : Read) (read2 : option Read)
  : filter_type * FilterDict * list filter_type :=
  match items with
  | [] => (TNoFilter, [], [])
  | (ft, fltr) :: rest =>
      let '(verdict, fltr') := call fltr read1 read2 in
      if verdict then (ft, (ft, fltr') :: rest, [ft])
      else
        let '(dest, rest', called) := filter_loop rest read1 read2 in
        (dest, (ft, fltr') :: rest', ft :: called)
  end.

(** [Filters.filter]. *)
Definition Filters_filter (self : Filters) (read1 : Read) (read2 : option Read)
  : filter_type * Filters * list filter_type :=
  let '(dest, items, called) := filter_loop (filters self) read1 read2 in
  (dest, {| filters := items; filter_factory := filter_factory self |}, called).

(** Filtering a stream of reads or pairs: the destinations in order and the
    chain afterwards. *)
Fixpoint Filters_run (self : Filters) (records : list (Read * option Read))
  : list filter_type * Filters :=
  match records with
  | [] => ([], self)
  | (read1, read2) :: rest =>
      let '(dest, self', _) := Filters_filter self read1 read2 in
      let '(dests, self'') := Filters_run self' rest in
      (dest :: dests, self'')
  end.

(** A wrapper of the chain keeps the read or pair. *)
Definition keeps (read1 : Read) (read2 : option Read)
    (item : filter_type * FilterWrapper) : Prop :=
  fst (_filter (snd item) read1 read2) = KEEP.

(** The number of mates of a pair on which the filter holds. *)
Definition affected (f : Filter) (read1 read2 : Read) : Z :=
  (if f read1 then 1 else 0) + (if f read2 then 1 else 0).

(** The discard counter of a filter of the chain; 0 when it is not there. *)
Fixpoint counter (d : FilterDict) (k : filter_type) : Z :=
  match d with
  | [] => 0
  | (k', w) :: d' => if decide (k' = k) then filtered w else counter d' k
  end.

(** *** Access to the chain *)

(** [self.filters[filter_type]] on the [OrderedDict]. *)
Fixpoint dict_lookup (d : FilterDict) (k : filter_type) : option FilterWrapper :=
  match d with
  | [] => None
  | (k', w) :: d' => if decide (k' = k) then Some w else dict_lookup d' k
  end.

(** The keys of the chain, in iteration order. *)
Definition keys (d : FilterDict) : list filter_type := fst <$> d.

(** The name of a filter class, that [KeyError] shows. *)
Definition class_name (ft : filter_type) : string :=
  match ft with
  | TMergedReadFilter => "MergedReadFilter"
  | TTooShortReadFilter => "TooShortReadFilter"
  | TTooLongReadFilter => "TooLongReadFilter"
  | TNContentFilter => "NContentFilter"
  | TUntrimmedFilter => "UntrimmedFilter"
  | TTrimmedFilter => "TrimmedFilter"
  | TNoFilter => "NoFilter"
  | TOther c => c
  end.

(** [Filters.__contains__]. *)
Definition contains (self : Filters) (ft : filter_type) : bool :=
  match dict_lookup (filters self) ft with
  | Some _ => true
  | None => false
  end.

(** [Filters.__getitem__]: an absent key raises [KeyError]. *)
Definition getitem (self : Filters) (ft : filter_type)
  : Py.result FilterWrapper :=
  match dict_lookup (filters self) ft with
  | Some w => inr w
  | None => inl (Py.KeyError (class_name ft))
  end.

(** [FilterWrapper.name] for the wrapper of a filter of class [ft]: the
    class attribute [name] where the class has one, the class name
    otherwise. A further class is taken to have no [name] attribute. *)
Definition wrapper_name (ft : filter_type) : string :=
  match ft with
  | TTooShortReadFilter => "too_short"
  | TTooLongReadFilter => "too_long"
  | TNContentFilter => "too_many_n"
  | TNoFilter => "NoFilter"
  | _ => class_name ft
  end.

(** [d[k] = v] on the [dict] that [Filters.summarize] builds. *)
Fixpoint summary_set (d : list (string * Z)) (k : string) (v : Z)
  : list (string * Z) :=
  match d with
  | [] => [(k, v)]
  | (k', v') :: d' =>
      if decide (k' = k) then (k, v) :: d' else (k', v') :: summary_set d' k v
  end.

(** [Filters.summarize]: [dict((f.name, f.summarize()) for f in
    self.filters.values())], with [records_filtered] as the one entry of
    each inner dictionary. The wrapper under the key [ft] wraps a filter of
    class [ft]. *)
Definition Filters_summarize (self : Filters) : list (string * Z) :=
  foldl (λ d item, summary_set d (wrapper_name (fst item)) (summarize (snd item)))
        [] (filters self).

(** How often [k] occurs among the destinations. *)
Definition times (k : filter_type) (dests : list filter_type) : Z :=
  Z.of_nat (length (base.filter (λ dest, dest = k) dests)).

End Filters.

(** ** stats.py *)

Module Stats.

(** *** Counting dictionaries

    [CountingDict] and [NestedDict] come from [atropos.util], outside the
    embedded files. *)

(** Modelled from the spec: [atropos.util.CountingDict], "mapping key to
    non-negative integer count" with "lookup-with-default-zero". *)
Definition cd_get `{Countable K} (d : gmap K Z) (k : K) : Z :=
  default 0 (d !! k).

(** Modelled from the spec: [d[k] += 1] on a [CountingDict],
    "increment-by-1". *)
Definition cd_incr `{Countable K} (k : K) (d : gmap K Z) : gmap K Z :=
  <[k := cd_get d k + 1]> d.

(** Modelled from the spec: [atropos.util.NestedDict], a mapping to counting
    dictionaries in which looking up an absent key gives an empty one. *)
Definition nd_get `{Countable K1, Countable K2}
    (d : gmap K1 (gmap K2 Z)) (k : K1) : gmap K2 Z :=
  default ∅ (d !! k).

(** [d[k1][k2] += 1] on a [NestedDict]. *)
Definition nd_incr `{Countable K1, Countable K2}
    (k1 : K1) (k2 : K2) (d : gmap K1 (gmap K2 Z)) : gmap K1 (gmap K2 Z) :=
  <[k1 := cd_incr k2 (nd_get d k1)]> d.

(** [sorted] on integers, on one-character strings and on strings. *)
Definition sorted_Z (l : list Z) : list Z := merge_sort Z.le l.

Definition ascii_le (a b : ascii) : Prop := (N_of_ascii a ≤ N_of_ascii b)%N.

#[global] Instance ascii_le_dec : RelDecision ascii_le.
Proof. intros a b. unfold ascii_le. apply _. Defined.

Definition sorted_ascii (l : list ascii) : list ascii := merge_sort ascii_le l.

Definition string_le (a b : string) : Prop := String.leb a b = true.

#[global] Instance string_le_dec : RelDecision string_le.
Proof. intros a b. unfold string_le. apply _. Defined.

Definition sorted_string (l : list string) : list string :=
  merge_sort string_le l.

(** Modelled from the spec: [CountingDict.sorted_items], the items in key
    order. *)
Definition sorted_items (d : gmap Z Z) : list (Z * Z) :=
  (λ k, (k, cd_get d k)) <$> sorted_Z (elements (dom d)).

(** *** [BaseDicts] *)

(** [BaseDicts.extend]; [empty] is [self.dict_class()]. *)
Definition extend {D : Type} (empty : D) (dicts : list D) (size : Z) : list D :=
  let n := size - Z.of_nat (length dicts) in
  if 0 <? n then dicts ++ replicate (Z.to_nat n) empty else dicts.

(** A header entry: a key, or a key converted by [qual2int]. *)
Inductive hkey :=
| HKey (k : ascii)
| HInt (z : Z).

(** The union of the key sets of all positions. *)
Definition all_keys `{Countable K} {V : Type} (dicts : list (gmap K V))
  : gset K :=
  ⋃ (dom <$> dicts).

Section Flatten.

(** [atropos.util.qual2int], outside the embedded files: the numeric
    quality of a quality character. *)
Variable qual2int : ascii → Z.

Definition acgt : list ascii := ["A"; "C"; "G"; "T"]%char.

(** The column keys of [BaseCountingDicts.flatten]. A Python [set] is
    iterated in no specified order; [elements] fixes one. *)
Definition flatten_columns (keys : gset ascii) (datatype : option string)
  : list ascii :=
  if bool_decide (datatype = Some "n"%string) then
    let N := if bool_decide ("N"%char ∈ keys) then ["N"%char] else [] in
    acgt ++ elements (keys ∖ list_to_set (acgt ++ N)) ++ N
  else sorted_ascii (elements keys).

Definition flatten_header (columns : list ascii) (datatype : option string)
  : list hkey :=
  if bool_decide (datatype = Some "q"%string)
  then (λ k, HInt (qual2int k)) <$> columns
  else HKey <$> columns.

(** [BaseCountingDicts.flatten]: the header and one row per position,
    numbered from 1. *)
Definition flatten (dicts : list (gmap ascii Z)) (datatype : option string)
  : list hkey * list (Z * list Z) :=
  let columns := flatten_columns (all_keys dicts) datatype in
  (flatten_header columns datatype,
   imap (λ i d, (Z.of_nat i + 1, cd_get d <$> columns)) dicts).

(** The keys of the inner dictionaries of one position. *)
Definition inner_keys (d1 : gmap string (gmap ascii Z)) : gset ascii :=
  ⋃ (dom <$> (snd <$> map_to_list d1)).

(** [BaseNestedDicts.flatten]: rows carry the position and the outer key. *)
Definition nested_flatten (dicts : list (gmap string (gmap ascii Z)))
    (datatype : option string)
  : list hkey * list (Z * string * list Z) :=
  let keys1 := sorted_string (elements (all_keys dicts)) in
  let keys2 := sorted_ascii (elements (⋃ (inner_keys <$> dicts))) in
  (flatten_header keys2 datatype,
   k1 ← keys1;
   imap (λ i d, (Z.of_nat i + 1, k1, cd_get (nd_get d k1) <$> keys2)) dicts).

End Flatten.

(** The key [k] is in the table of some position. *)
Definition present `{Countable K} {V : Type} (k : K) (dicts : list (gmap K V))
  : Prop :=
  ∃ i d, dicts !! i = Some d ∧ is_Some (d !! k).

(** The header entry that [flatten] makes of the key [k]. *)
Definition header_key (qual2int : ascii → Z) (datatype : option string)
    (k : ascii) : hkey :=
  if bool_decide (datatype = Some "q"%string) then HInt (qual2int k) else HKey k.

(** *** [ReadStatCollector] *)

(** Modelled from the spec: the compiled tile pattern, "a single capturing
    regular expression". The function gives group 1 of a match of the read
    name and [None] when the name does not match. *)
Definition Regexp := string → option string.

Record ReadStatCollector := {
  max_read_len : Z;
  count : Z;
  sequence_lengths : gmap Z Z;
  sequence_gc : gmap Z Z;
  bases : list (gmap ascii Z);
  tile_key_regexp : option Regexp;
  qualities : option bool;
  sequence_qualities : option (gmap Z Z);
  base_qualities : option (list (gmap ascii Z));
  tile_base_qualities : option (list (gmap string (gmap ascii Z)));
  tile_sequence_qualities : option (gmap string (gmap Z Z))
}.

(** Computations on a collector: the collector afterwards and either the
    exception raised or the value returned. *)
Definition M (A : Type) : Type := ReadStatCollector → ReadStatCollector * Py.result A.

#[global] Instance M_ret : MRet M := λ A a self, (self, inr a).

#[global] Instance M_bind : MBind M := λ A B k m self,
  match m self with
  | (self', inr a) => k a self'
  | (self', inl e) => (self', inl e)
  end.

Definition raise {A : Type} (e : Py.exn) : M A := λ self, (self, inl e).

Definition lift {A : Type} (r : Py.result A) : M A := λ self, (self, r).

Definition get : M ReadStatCollector := λ self, (self, inr self).

Definition modify (f : ReadStatCollector → ReadStatCollector) : M unit :=
  λ self, (f self, inr tt).

(** Attribute assignments. *)
Definition set_count v self :=
  {| max_read_len := max_read_len self; count := v;
     sequence_lengths := sequence_lengths self; sequence_gc := sequence_gc self;
     bases := bases self; tile_key_regexp := tile_key_regexp self;
     qualities := qualities self; sequence_qualities := sequence_qualities self;
     base_qualities := base_qualities self;
     tile_base_qualities := tile_base_qualities self;
     tile_sequence_qualities := tile_sequence_qualities self |}.

Definition set_sequence_lengths v self :=
  {| max_read_len := max_read_len self; count := count self;
     sequence_lengths := v; sequence_gc := sequence_gc self;
     bases := bases self; tile_key_regexp := tile_key_regexp self;
     qualities := qualities self; sequence_qualities := sequence_qualities self;
     base_qualities := base_qualities self;
     tile_base_qualities := tile_base_qualities self;
     tile_sequence_qualities := tile_sequence_qualities self |}.

Definition set_sequence_gc v self :=
  {| max_read_len := max_read_len self; count := count self;
     sequence_lengths := sequence_lengths self; sequence_gc := v;
     bases := bases self; tile_key_regexp := tile_key_regexp self;
     qualities := qualities self; sequence_qualities := sequence_qualities self;
     base_qualities := base_qualities self;
     tile_base_qualities := tile_base_qualities self;
     tile_sequence_qualities := tile_sequence_qualities self |}.

Definition set_bases v self :=
  {| max_read_len := max_read_len self; count := count self;
     sequence_lengths := sequence_lengths self; sequence_gc := sequence_gc self;
     bases := v; tile_key_regexp := tile_key_regexp self;
     qualities := qualities self; sequence_qualities := sequence_qualities self;
     base_qualities := base_qualities self;
     tile_base_qualities := tile_base_qualities self;
     tile_sequence_qualities := tile_sequence_qualities self |}.

Definition set_qualities v self :=
  {| max_read_len := max_read_len self; count := count self;
     sequence_lengths := sequence_lengths self; sequence_gc := sequence_gc self;
     bases := bases self; tile_key_regexp := tile_key_regexp self;
     qualities := v; sequence_qualities := sequence_qualities self;
     base_qualities := base_qualities self;
     tile_base_qualities := tile_base_qualities self;
     tile_sequence_qualities := tile_sequence_qualities self |}.

Definition set_sequence_qualities v self :=
  {| max_read_len := max_read_len self; count := count self;
     sequence_lengths := sequence_lengths self; sequence_gc := sequence_gc self;
     bases := bases self; tile_key_regexp := tile_key_regexp self;
     qualities := qualities self; sequence_qualities := v;
     base_qualities := base_qualities self;
     tile_base_qualities := tile_base_qualities self;
     tile_sequence_qualities := tile_sequence_qualities self |}.

Definition set_base_qualities v self :=
  {| max_read_len := max_read_len self; count := count self;
     sequence_lengths := sequence_lengths self; sequence_gc := sequence_gc self;
     bases := bases self; tile_key_regexp := tile_key_regexp self;
     qualities := qualities self; sequence_qualities := sequence_qualities self;
     base_qualities := v;
     tile_base_qualities := tile_base_qualities self;
     tile_sequence_qualities := tile_sequence_qualities self |}.

Definition set_tile_base_qualities v self :=
  {| max_read_len := max_read_len self; count := count self;
     sequence_lengths := sequence_lengths self; sequence_gc := sequence_gc self;
     bases := bases self; tile_key_regexp := tile_key_regexp self;
     qualities := qualities self; sequence_qualities := sequence_qualities self;
     base_qualities := base_qualities self;
     tile_base_qualities := v;
     tile_sequence_qualities := tile_sequence_qualities self |}.

Definition set_tile_sequence_qualities v self :=
  {| max_read_len := max_read_len self; count := count self;
     sequence_lengths := sequence_lengths self; sequence_gc := sequence_gc self;
     bases := bases self; tile_key_regexp := tile_key_regexp self;
     qualities := qualities self; sequence_qualities := sequence_qualities self;
     base_qualities := base_qualities self;
     tile_base_qualities := tile_base_qualities self;
     tile_sequence_qualities := v |}.

(** [ReadStatCollector._init_qualities]. *)
Definition _init_qualities (self : ReadStatCollector) : ReadStatCollector :=
  let self := set_sequence_qualities (Some ∅) self in
  let self := set_base_qualities (Some []) self in
  match tile_key_regexp self with
  | Some _ =>
      let self := set_tile_base_qualities (Some []) self in
      set_tile_sequence_qualities (Some ∅) self
  | None => self
  end.

(** [ReadStatCollector.__init__]. [tile_sequence_qualities] is not assigned
    there; [None] stands for the missing attribute. Reading it while it is
    missing enters [__getattr__], whose [hasattr] test on the name with one
    more underscore enters [__getattr__] again, without end:
    [RecursionError]. *)
Definition ReadStatCollector_init (qualities : option bool)
    (tile_key_regexp : option Regexp) : ReadStatCollector :=
  let self :=
    {| max_read_len := 0; count := 0;
       sequence_lengths := ∅; sequence_gc := ∅; bases := [];
       tile_key_regexp := tile_key_regexp; qualities := qualities;
       sequence_qualities := None; base_qualities := None;
       tile_base_qualities := None; tile_sequence_qualities := None |} in
  if Py.truthy qualities then _init_qualities self else self.

(** The [track_tiles] property, as a truth value. *)
Definition track_tiles (self : ReadStatCollector) : bool :=
  Py.truthy (qualities self) &&
  match tile_key_regexp self with Some _ => true | None => false end.

(** [ReadStatCollector._extend_bases]. Calling a method on an attribute that
    holds [None] raises [AttributeError]. *)
Definition _extend_bases (new_size : Z) : M unit :=
  modify (λ self, set_bases (extend ∅ (bases self) new_size) self) ;;
  self ← get;
  if Py.truthy (qualities self) then
    match base_qualities self with
    | None => raise Py.AttributeError
    | Some bq =>
        modify (set_base_qualities (Some (extend ∅ bq new_size))) ;;
        if track_tiles self then
          match tile_base_qualities self with
          | None => raise Py.AttributeError
          | Some tbq =>
              modify (set_tile_base_qualities (Some (extend ∅ tbq new_size)))
          end
        else mret tt
    end
  else mret tt.

(** [ReadStatCollector.add_base]. An index past the end of a list raises
    [IndexError]; subscripting [None] raises [TypeError]. [qual] is a
    one-character string when given and so is true; a tile is true when it
    is not the empty string. *)
Definition add_base (i : nat) (base : ascii) (qual : option ascii)
    (tile : option string) : M unit :=
  self ← get;
  match bases self !! i with
  | None => raise Py.IndexError
  | Some d =>
      modify (set_bases (<[i := cd_incr base d]> (bases self))) ;;
      match qual with
      | None => mret tt
      | Some q =>
          match base_qualities self with
          | None => raise Py.TypeError
          | Some bq =>
              match bq !! i with
              | None => raise Py.IndexError
              | Some dq =>
                  modify (set_base_qualities (Some (<[i := cd_incr q dq]> bq))) ;;
                  match tile with
                  | Some (String _ _ as t) =>
                      match tile_base_qualities self with
                      | None => raise Py.TypeError
                      | Some tbq =>
                          match tbq !! i with
                          | None => raise Py.IndexError
                          | Some dt =>
                              modify (set_tile_base_qualities
                                        (Some (<[i := nd_incr t q dt]> tbq)))
                          end
                      end
                  | _ => mret tt
                  end
              end
          end
      end
  end.

(** The loop [for i, (base, qual) in enumerate(zip(seq, quals))], from
    index [i] on. *)
Fixpoint add_bases (i : nat) (pairs : list (ascii * ascii))
    (tile : option string) : M unit :=
  match pairs with
  | [] => mret tt
  | (base, qual) :: rest =>
      add_base i base (Some qual) tile ;;
      add_bases (S i) rest tile
  end.

(** [sum(ord(q) for q in quals)]. *)
Definition sum_ord (quals : string) : Z :=
  foldr (λ q acc, Py.ord q + acc) 0 (Py.chars quals).

(** [round(a / b)] on two [int]s. *)
Definition round_div (a b : Z) : Py.result Z :=
  match Py.truediv a b with
  | inl e => inl e
  | inr q => Py.round q
  end.

(** The error of [collect] for a read name that the tile pattern does not
    match, with the message as the format string that the code fills with
    the pattern and the name. *)
Definition tile_mismatch : Py.exn := Py.ValueError "{} did not match {}".

(** The block under [if self.qualities:] of [collect]: it binds the local
    [quals] and, when tiles are tracked, [tile]. Iterating [None] raises
    [TypeError]. *)
Definition collect_qualities (record : Read) (seqlen : Z)
  : M (string * option string) :=
  match Seqio.qualities record with
  | None => raise Py.TypeError
  | Some quals =>
      meanqual ← lift (round_div (sum_ord quals) seqlen);
      self ← get;
      match sequence_qualities self with
      | None => raise Py.TypeError
      | Some sq =>
          modify (set_sequence_qualities (Some (cd_incr meanqual sq))) ;;
          if track_tiles self then
            match tile_key_regexp self with
            | None => raise Py.AttributeError
            | Some re =>
                match re (name record) with
                | Some tile =>
                    match tile_sequence_qualities self with
                    | None => raise Py.RecursionError
                    | Some tsq =>
                        modify (set_tile_sequence_qualities
                                  (Some (nd_incr tile meanqual tsq))) ;;
                        mret (quals, Some tile)
                    end
                | None => raise tile_mismatch
                end
            end
          else mret (quals, None)
      end
  end.

(** [round((seq.count('C') + seq.count('G')) * 100 / seqlen)]. *)
Definition gc_percent (seq : string) : Py.result Z :=
  round_div ((Py.count "C" seq + Py.count "G" seq) * 100) (Py.len seq).

(** The first statement of [collect]: quality tracking starts at the first
    read that carries qualities. *)
Definition activate (record : Read) (self : ReadStatCollector)
  : ReadStatCollector :=
  if bool_decide (qualities self = None) && Py.truthy_str (Seqio.qualities record)
  then _init_qualities (set_qualities (Some true) self)
  else self.

(** The three counter updates of [collect]. *)
Definition record_read (seqlen gc : Z) (self : ReadStatCollector)
  : ReadStatCollector :=
  let self := set_count (count self + 1) self in
  let self := set_sequence_lengths (cd_incr seqlen (sequence_lengths self)) self in
  set_sequence_gc (cd_incr gc (sequence_gc self)) self.

(** [ReadStatCollector.collect]. The local [quals] is bound only under
    [if self.qualities:]; reading it unbound in the last loop raises
    [UnboundLocalError]. *)
Definition collect (record : Read) : M unit :=
  modify (activate record) ;;
  let seq := sequence record in
  let seqlen := Py.len seq in
  gc ← lift (gc_percent seq);
  modify (record_read seqlen gc) ;;
  self ← get;
  (if max_read_len self <? seqlen then _extend_bases seqlen else mret tt) ;;
  self ← get;
  locals ← (if Py.truthy (qualities self)
            then '(quals, tile) ← collect_qualities record seqlen;
                 mret (Some quals, tile)
            else mret (None, None));
  match locals with
  | (None, _) => raise (Py.UnboundLocalError "quals")
  | (Some quals, tile) =>
      add_bases 0 (zip (Py.chars seq) (Py.chars quals)) tile
  end.

(** The attributes that only the first half of [collect] assigns keep their
    values from [s] to [s']. *)
Definition unchanged (s s' : ReadStatCollector) : Prop :=
  max_read_len s' = max_read_len s
  ∧ count s' = count s
  ∧ sequence_lengths s' = sequence_lengths s
  ∧ sequence_gc s' = sequence_gc s
  ∧ qualities s' = qualities s
  ∧ tile_key_regexp s' = tile_key_regexp s.

(** The read gets past the GC computation of [collect] and is counted. *)
Definition counted (record : Read) : bool :=
  match gc_percent (sequence record) with
  | inr _ => true
  | inl _ => false
  end.

(** The greatest length among some reads, 0 when there is none. *)
Definition max_length (records : list Read) : Z :=
  foldr (λ record acc, Z.max (len_read record) acc) 0 records.

(** [self.bases[i][base]], the number of times [base] was counted at
    position [i]; 0 past the end of the table. *)
Definition base_count (self : ReadStatCollector) (i : nat) (base : ascii) : Z :=
  cd_get (default ∅ (bases self !! i)) base.

(** Feeding reads one after the other; the caller goes on after a raise.
    The run of the tool stops at the first raise, which is the state after a
    prefix of the reads. *)
Definition collect_all (self : ReadStatCollector) (records : list Read)
  : ReadStatCollector :=
  foldl (λ self record, fst (collect record self)) self records.

(** *** Finished statistics *)

(** The dictionary that [ReadStatCollector.finish] returns; an optional
    field is a key that may be absent. *)
Record CollectorResult {NestedTable : Type} := {
  r_count : Z;
  r_length : list (Z * Z);
  r_gc : list (Z * Z);
  r_bases : list hkey * list (Z * list Z);
  r_qualities : option (list (Z * Z));
  r_base_qualities : option (list hkey * list (Z * list Z));
  r_tile_base_qualities : option (list hkey * list (Z * string * list Z));
  r_tile_sequence_qualities : option NestedTable
}.
Arguments CollectorResult : clear implicits.

(** The dictionary that [ReadStatistics.finish] returns: under each phase
    that is present, the statistics per read number, and for the post phase
    per destination first. *)
Record ManagerResult {NestedTable : Type} := {
  r_pre : option (list (string * CollectorResult NestedTable));
  r_post : option (list (string * list (string * CollectorResult NestedTable)))
}.
Arguments ManagerResult : clear implicits.

Record ReadStatistics := {
  mode : string;
  paired : bool;
  pre : option (list ReadStatCollector);
  post : option (list (string * list ReadStatCollector));
  collector_args : option bool * option Regexp
}.

(** [ReadStatistics._make_collectors]. *)
Definition _make_collectors (paired : bool) (args : option bool * option Regexp)
  : list ReadStatCollector :=
  replicate (if paired then 2 else 1)%nat
            (ReadStatCollector_init (fst args) (snd args)).

(** [ReadStatistics.__init__]. *)
Definition ReadStatistics_init (mode : string) (paired : bool)
    (args : option bool * option Regexp) : ReadStatistics :=
  {| mode := mode; paired := paired;
     pre := if bool_decide (mode = "pre"%string ∨ mode = "both"%string)
            then Some (_make_collectors paired args) else None;
     post := if bool_decide (mode = "post"%string ∨ mode = "both"%string)
             then Some [] else None;
     collector_args := args |}.

(** Lookup and assignment in the [post] dictionary, which keeps insertion
    order. *)
Fixpoint dict_get {V : Type} (d : list (string * V)) (k : string) : option V :=
  match d with
  | [] => None
  | (k', v) :: d' => if decide (k' = k) then Some v else dict_get d' k
  end.

Fixpoint dict_set {V : Type} (d : list (string * V)) (k : string) (v : V)
  : list (string * V) :=
  match d with
  | [] => [(k, v)]
  | (k', v') :: d' =>
      if decide (k' = k) then (k, v) :: d' else (k', v') :: dict_set d' k v
  end.

Definition set_post (v : option (list (string * list ReadStatCollector)))
    (self : ReadStatistics) : ReadStatistics :=
  {| mode := mode self; paired := paired self; pre := pre self; post := v;
     collector_args := collector_args self |}.

(** [collectors[i].collect(record[i])]: both subscripts are evaluated before
    the call; the collector is updated in place. *)
Definition collect_at (collectors : list ReadStatCollector) (record : list Read)
    (i : nat) : list ReadStatCollector * Py.result unit :=
  match collectors !! i, record !! i with
  | Some c, Some r =>
      let '(c', res) := collect r c in (<[i := c']> collectors, res)
  | _, _ => (collectors, inl Py.IndexError)
  end.

(** [ReadStatistics.post_trim]; [record] is the tuple of mates. *)
Definition post_trim (self : ReadStatistics) (dest : string) (record : list Read)
  : ReadStatistics * Py.result unit :=
  match post self with
  | None => (self, inr tt)
  | Some d =>
      let d := match dict_get d dest with
               | Some _ => d
               | None => dict_set d dest
                           (_make_collectors (paired self) (collector_args self))
               end in
      let collectors := default [] (dict_get d dest) in
      let '(collectors, res) := collect_at collectors record 0 in
      match res with
      | inl e => (set_post (Some (dict_set d dest collectors)) self, inl e)
      | inr _ =>
          if paired self then
            let '(collectors, res) := collect_at collectors record 1 in
            (set_post (Some (dict_set d dest collectors)) self, res)
          else (set_post (Some (dict_set d dest collectors)) self, inr tt)
      end
  end.

Section Finish.

Variable qual2int : ascii → Z.

(** [atropos.util.NestedDict.flatten], outside the embedded files, and the
    type of the table it returns. *)
Variable NestedTable : Type.
Variable NestedDict_flatten : gmap string (gmap Z Z) → string → NestedTable.

(** [ReadStatCollector.finish]. A dictionary is true when it is not empty;
    a [BaseCountingDicts] object is always true. *)
Definition ReadStatCollector_finish (self : ReadStatCollector)
  : Py.result (CollectorResult NestedTable) :=
  let quals :=
    match sequence_qualities self with
    | Some sq => if bool_decide (sq = ∅) then None else Some (sorted_items sq)
    | None => None
    end in
  let base_quals :=
    flip (flatten qual2int) (Some "q"%string) <$> base_qualities self in
  let result tbq tsq :=
    {| r_count := count self;
       r_length := sorted_items (sequence_lengths self);
       r_gc := sorted_items (sequence_gc self);
       r_bases := flatten qual2int (bases self) (Some "n"%string);
       r_qualities := quals;
       r_base_qualities := base_quals;
       r_tile_base_qualities := tbq;
       r_tile_sequence_qualities := tsq |} in
  if track_tiles self then
    match tile_base_qualities self, tile_sequence_qualities self with
    | None, _ => inl Py.AttributeError
    | Some _, None => inl Py.RecursionError
    | Some tbq, Some tsq =>
        inr (result (Some (nested_flatten qual2int tbq (Some "q"%string)))
                    (Some (NestedDict_flatten tsq "wide")))
    end
  else inr (result None None).

(** [dict(('read{}'.format(read), stats.finish())
         for read, stats in enumerate(collectors, 1))], from number [read]
    on. *)
Fixpoint finish_collectors (read : nat) (collectors : list ReadStatCollector)
  : Py.result (list (string * CollectorResult NestedTable)) :=
  match collectors with
  | [] => inr []
  | stats :: rest =>
      match ReadStatCollector_finish stats with
      | inl e => inl e
      | inr r =>
          match finish_collectors (S read) rest with
          | inl e => inl e
          | inr rs => inr (("read" +:+ pretty read, r) :: rs)
          end
      end
  end.

(** Reading the bare name [post] inside [ReadStatistics.finish]: no local
    and no global of [stats.py] has that name. *)
Definition name_post : Py.result string := inl (Py.NameError "post").

(** [result[phase][dest] = stats] inside the loop, where ["post"] is the
    phase whose value is a dictionary keyed by destination. *)
Definition result_setitem (result : ManagerResult NestedTable)
    (phase dest : string) (stats : list (string * CollectorResult NestedTable))
  : Py.result (ManagerResult NestedTable) :=
  if bool_decide (phase = "post"%string) then
    match r_post result with
    | Some d =>
        inr {| r_pre := r_pre result; r_post := Some (dict_set d dest stats) |}
    | None => inl (Py.KeyError phase)
    end
  else inl (Py.KeyError phase).

(** The loop over [self.post.items()] of [ReadStatistics.finish]. In the
    assignment to [result[post][dest]] the right-hand side is evaluated
    first, then the name [post] of the target. *)
Fixpoint finish_post (items : list (string * list ReadStatCollector))
    (result : ManagerResult NestedTable) : Py.result (ManagerResult NestedTable) :=
  match items with
  | [] => inr result
  | (dest, collectors) :: rest =>
      match finish_collectors 1 collectors with
      | inl e => inl e
      | inr stats =>
          match name_post with
          | inl e => inl e
          | inr phase =>
              match result_setitem result phase dest stats with
              | inl e => inl e
              | inr result => finish_post rest result
              end
          end
      end
  end.

(** [ReadStatistics.finish]. *)
Definition ReadStatistics_finish (self : ReadStatistics)
  : Py.result (ManagerResult NestedTable) :=
  let with_pre :=
    match pre self with
    | Some collectors =>
        match finish_collectors 1 collectors with
        | inl e => inl e
        | inr rs => inr {| r_pre := Some rs; r_post := None |}
        end
    | None => inr {| r_pre := None; r_post := None |}
    end in
  match with_pre with
  | inl e => inl e
  | inr result =>
      match post self with
      | Some items =>
          finish_post items {| r_pre := r_pre result; r_post := Some [] |}
      | None => inr result
      end
  end.

End Finish.

(** *** [ReadStatistics.pre_trim] *)

(** What [pre_trim] takes as [record]: the tuple of mates of a paired run,
    the read itself otherwise. *)
Definition record_type (paired : bool) : Type :=
  if paired then list Read else Read.

Definition set_pre (v : option (list ReadStatCollector))
    (self : ReadStatistics) : ReadStatistics :=
  {| mode := mode self; paired := paired self; pre := v; post := post self;
     collector_args := collector_args self |}.

(** [ReadStatistics.pre_trim]. *)
Definition pre_trim (self : ReadStatistics)
  : record_type (paired self) → ReadStatistics * Py.result unit :=
  match paired self as p return record_type p → ReadStatistics * Py.result unit with
  | true => λ record,
      match pre self with
      | None => (self, inr tt)
      | Some collectors =>
          let '(collectors, res) := collect_at collectors record 0 in
          match res with
          | inl e => (set_pre (Some collectors) self, inl e)
          | inr _ =>
              let '(collectors, res) := collect_at collectors record 1 in
              (set_pre (Some collectors) self, res)
          end
      end
  | false => λ record,
      match pre self with
      | None => (self, inr tt)
      | Some collectors =>
          match collectors !! 0%nat with
          | None => (self, inl Py.IndexError)
          | Some c =>
              let '(c', res) := collect record c in
              (set_pre (Some (<[0%nat := c']> collectors)) self, res)
          end
      end
  end.

(** *** Vocabulary of the properties *)

(** The sum of the counts of a counting dictionary. *)
Definition total `{Countable K} (d : gmap K Z) : Z :=
  map_fold (λ _ v acc, v + acc) 0 d.

(** [self.base_qualities[i][qual]], 0 where there is no such table. *)
Definition quality_count (self : ReadStatCollector) (i : nat) (qual : ascii)
  : Z :=
  cd_get (default ∅ (default [] (base_qualities self) !! i)) qual.

(** What the constructor and [collect] keep true of a collector:
    [max_read_len] stays 0; the quality tables exist when quality tracking
    is on, the tile tables when a tile pattern was given as well; there is
    no table of positional qualities while quality tracking is off. *)
Definition well_formed (self : ReadStatCollector) : Prop :=
  max_read_len self = 0
  ∧ (Py.truthy (qualities self) = true →
     is_Some (sequence_qualities self)
     ∧ is_Some (base_qualities self)
     ∧ (is_Some (tile_key_regexp self) →
        is_Some (tile_base_qualities self)
        ∧ is_Some (tile_sequence_qualities self)))
  ∧ (Py.truthy (qualities self) = false → base_qualities self = None).

(** The symbol and the quality that the loop of [collect] sees at
    position [i]. *)
Definition seen_at (record : Read) (i : nat) : option (ascii * ascii) :=
  match Seqio.qualities record with
  | Some quals => zip (Py.chars (sequence record)) (Py.chars quals) !! i
  | None => None
  end.

(** The number of counted reads of length [n]. *)
Definition counted_with_length (n : Z) (records : list Read) : Z :=
  Z.of_nat (length (base.filter
                      (λ record, counted record = true ∧ len_read record = n)
                      records)).

(** The positional tables reach position [n]: what [_extend_bases] leaves
    for the loop of [collect]. The tile table is needed only for a tile
    that is true. *)
Definition ready (n : nat) (tile : option string) (self : ReadStatCollector)
  : Prop :=
  (n ≤ length (bases self))%nat
  ∧ (∃ bq, base_qualities self = Some bq ∧ (n ≤ length bq)%nat)
  ∧ (match tile with
     | Some (String _ _) =>
         ∃ tbq, tile_base_qualities self = Some tbq ∧ (n ≤ length tbq)%nat
     | _ => True
     end).

(** The count that the loop of [collect] adds at position [i] for the
    symbol [base], and for the quality [qual]. *)
Definition base_seen (record : Read) (i : nat) (base : ascii) : Z :=
  match seen_at record i with
  | Some (b, _) => if decide (b = base) then 1 else 0
  | None => 0
  end.

Definition quality_seen (record : Read) (i : nat) (qual : ascii) : Z :=
  match seen_at record i with
  | Some (_, q) => if decide (q = qual) then 1 else 0
  | None => 0
  end.

(** Whether some read of a list carries qualities. *)
Definition any_qualities (records : list Read) : bool :=
  existsb (λ record, Py.truthy_str (Seqio.qualities record)) records.

(** Whether an attribute holds a table rather than [None]. *)
Definition has {A : Type} (o : option A) : bool :=
  match o with
  | Some _ => true
  | None => false
  end.

(** The four optional tables are there or not there in [s'] as in [s]. *)
Definition same_tables (s s' : ReadStatCollector) : Prop :=
  has (sequence_qualities s') = has (sequence_qualities s)
  ∧ has (base_qualities s') = has (base_qualities s)
  ∧ has (tile_base_qualities s') = has (tile_base_qualities s)
  ∧ has (tile_sequence_qualities s') = has (tile_sequence_qualities s).

(** The managers that a run can reach: made by the constructor, then fed
    records through [pre_trim] and [post_trim], in any order; the caller may
    go on after a raise. *)
Inductive reachable : ReadStatistics → Prop :=
| reachable_init mode paired args :
    reachable (ReadStatistics_init mode paired args)
| reachable_pre_trim self record :
    reachable self → reachable (fst (pre_trim self record))
| reachable_post_trim self dest record :
    reachable self → reachable (fst (post_trim self dest record)).

(** The destinations of the [post] dictionary, in its order. *)
Definition destinations (self : ReadStatistics) : list string :=
  (default [] (post self)).*1.

(** The collectors of a destination, none where there is no such key. *)
Definition collectors_of (self : ReadStatistics) (dest : string)
  : list ReadStatCollector :=
  default [] (post self ≫= λ d, dict_get d dest).

(** The read names [read1], [read2], ... of [n] collectors. *)
Definition read_names (n : nat) : list string :=
  (λ i, "read" +:+ pretty i) <$> seq 1 n.

(** The number of collectors that [_make_collectors] makes. *)
Definition per_record (paired : bool) : nat := if paired then 2%nat else 1%nat.

(** The number of reads in the record given to [pre_trim]. *)
Definition arity {paired : bool} : record_type paired → nat :=
  match paired with
  | true => λ record, length record
  | false => λ _, 1%nat
  end.

(** A list of collectors as [_make_collectors] makes it and [collect] keeps
    it. *)
Definition collectors_ok (paired : bool) (collectors : list ReadStatCollector)
  : Prop :=
  length collectors = per_record paired ∧ Forall well_formed collectors.

(** What the constructor, [pre_trim] and [post_trim] keep true of a
    manager: each phase is there exactly in its modes, and every list of
    collectors is as [_make_collectors] makes it; no destination is listed
    twice. *)
Definition manager_ok (self : ReadStatistics) : Prop :=
  (match pre self with
   | Some collectors =>
       collectors_ok (paired self) collectors
       ∧ (mode self = "pre"%string ∨ mode self = "both"%string)
   | None => ¬ (mode self = "pre"%string ∨ mode self = "both"%string)
   end)
  ∧ (match post self with
     | Some d =>
         NoDup d.*1
         ∧ Forall (λ kv, collectors_ok (paired self) kv.2) d
         ∧ (mode self = "post"%string ∨ mode self = "both"%string)
     | None => ¬ (mode self = "post"%string ∨ mode self = "both"%string)
     end).

(** The collectors that [post_trim] leaves under [dest]. *)
Definition post_collectors (self : ReadStatistics) (dest : string)
    (record : list Read) : list ReadStatCollector :=
  let start :=
    default (_make_collectors (paired self) (collector_args self))
            (post self ≫= λ d, dict_get d dest) in
  let first := collect_at start record 0 in
  match snd first with
  | inr _ => if paired self then fst (collect_at (fst first) record 1)
             else fst first
  | inl _ => fst first
  end.

(** Sending records to destinations one after the other; the caller goes on
    after a raise. *)
Definition post_trim_all (self : ReadStatistics)
    (events : list (string * list Read)) : ReadStatistics :=
  foldl (λ self event, fst (post_trim self event.1 event.2)) self events.

(** The first mates of the records sent to [dest], in order; a record that
    is an empty tuple has none. *)
Definition first_mates (dest : string) (events : list (string * list Read))
  : list Read :=
  omap (λ event, if decide (event.1 = dest) then event.2 !! 0%nat else None)
       events.

(** The elements of a list in the order of their first occurrence. *)
Definition first_occurrences (l : list string) : list string :=
  reverse (remove_dups (reverse l)).

(** [sum] of the counts of a row. *)
Definition row_sum (counts : list Z) : Z := foldr Z.add 0 counts.

End Stats.

(** ** reports.py *)

Module Reports.

#[local] Set Warnings "-register-all".

(** *** [BaseReportGenerator.simplify]

    The keys of a summary dictionary: strings, integers, booleans, [None]
    and tuples. *)
Inductive key :=
| KStr (s : string)
| KInt (z : Z)
| KBool (b : bool)
| KNone
| KTuple (items : list key).

(** A value of a summary dictionary: a dictionary, or anything else. *)
Inductive value {Leaf : Type} :=
| VLeaf (x : Leaf)
| VDict (items : list (key * value)).
Arguments value : clear implicits.

(** [str(key)] for a key that is neither a string nor iterable. *)
Definition str (k : key) : string :=
  match k with
  | KInt z => pretty z
  | KBool true => "True"
  | KBool false => "False"
  | _ => "None"
  end.

(** [','.join(key)] for a tuple: every item has to be a string. *)
Definition join (items : list key) : Py.result string :=
  match mapM (λ item, match item with KStr s => Some s | _ => None end) items with
  | Some strs => inr (String.concat "," strs)
  | None => inl Py.TypeError
  end.

(** The conversion of a key at the head of the loop of [_recurse]. *)
Definition convert_key (k : key) : Py.result string :=
  match k with
  | KStr s => inr s
  | KTuple items => join items
  | _ => inr (str k)
  end.

Section Simplify.

Context {Leaf : Type}.

(** An [OrderedDict] with string keys, and the same seen as a dictionary. *)
Definition OrderedDict : Type := list (string * value Leaf).

Definition as_dict (d : OrderedDict) : list (key * value Leaf) :=
  prod_map KStr id <$> d.

(** The loop of [_recurse(dest, src)], given what the inner call makes of
    a value: a dictionary becomes the new [OrderedDict] that the inner call
    fills, any other value stays. Assigning to a key that [dest] has keeps
    its position. *)
Definition _recurse_with (inner : value Leaf → Py.result (value Leaf))
  : OrderedDict → list (key * value Leaf) → Py.result OrderedDict :=
  fix _recurse dest src :=
    match src with
    | [] => inr dest
    | (k, v) :: rest =>
        match convert_key k with
        | inl e => inl e
        | inr k =>
            match inner v with
            | inl e => inl e
            | inr v => _recurse (Stats.dict_set dest k v) rest
            end
        end
    end.

Fixpoint simplify_value (v : value Leaf) : Py.result (value Leaf) :=
  match v with
  | VLeaf x => inr (VLeaf x)
  | VDict src =>
      match _recurse_with simplify_value [] src with
      | inl e => inl e
      | inr dest => inr (VDict (as_dict dest))
      end
  end.

Definition _recurse : OrderedDict → list (key * value Leaf) → Py.result OrderedDict :=
  _recurse_with simplify_value.

(** [BaseReportGenerator.simplify]. *)
Definition simplify (summary : list (key * value Leaf)) : Py.result OrderedDict :=
  _recurse [] summary.

(** A value in which every dictionary, at any depth, has only string keys,
    and none twice. *)
Inductive simple : value Leaf → Prop :=
| simple_leaf x : simple (VLeaf x)
| simple_dict d :
    NoDup d.*1 → Forall (λ item, simple item.2) d → simple (VDict (as_dict d)).

(** *** The loop of [BaseReportGenerator.generate_reports] *)

Definition BINARY_SERIALIZERS : list string := ["pickle"]%string.
Definition TEXT_SERIALIZERS : list string := ["json"; "yaml"]%string.

(** The output files, names or streams. *)
Context {File : Type}.

(** The calls that write a report, with their arguments. *)
Inductive report_call :=
| serialize (obj : list (key * value Leaf)) (fmt mode : string) (outfile : File)
| generate_text_report (fmt : string) (summary : list (key * value Leaf))
    (outfile : File).

(** The loop over [zip(self.report_formats, self.report_files)]: the calls
    made, in order, and how the loop ends. *)
Fixpoint report_loop (summary : list (key * value Leaf))
    (reports : list (string * File)) : list report_call * Py.result unit :=
  match reports with
  | [] => ([], inr tt)
  | (fmt, outfile) :: rest =>
      if bool_decide (fmt ∈ BINARY_SERIALIZERS) then
        let '(calls, res) := report_loop summary rest in
        (serialize summary fmt "b" outfile :: calls, res)
      else if bool_decide (fmt ∈ TEXT_SERIALIZERS) then
        match simplify summary with
        | inl e => ([], inl e)
        | inr simplified =>
            let summary := as_dict simplified in
            let '(calls, res) := report_loop summary rest in
            (serialize summary fmt "t" outfile :: calls, res)
        end
      else
        let '(calls, res) := report_loop summary rest in
        (generate_text_report fmt summary outfile :: calls, res)
  end.

(** The summary that a call is given. *)
Definition payload (c : report_call) : list (key * value Leaf) :=
  match c with
  | serialize obj _ _ _ => obj
  | generate_text_report _ summary _ => summary
  end.

(** The format that a call is made for. *)
Definition call_format (c : report_call) : string :=
  match c with
  | serialize _ fmt _ _ => fmt
  | generate_text_report fmt _ _ => fmt
  end.

End Simplify.

(** Whether one of the formats is a text serializer. *)
Definition any_text (formats : list string) : bool :=
  existsb (λ fmt, bool_decide (fmt ∈ TEXT_SERIALIZERS)) formats.

(** *** [BaseReportGenerator.add_derived_data]

    The entries of the summary that the method reads: the record and base
    counts are integers, a base count may be [None]; the flags of the input
    are read for their truth value. *)
Record Input := {
  file_format : string;
  input_read : Z;
  colorspace : bool;
  interleaved : bool;
  delivers_qualities : bool
}.

Record Summary := {
  total_record_count : Z;
  total_bp_counts : list (option Z);
  input : Input
}.

(** The dictionary stored under [summary['derived']]. *)
Record Derived := {
  avg_sequence_length : list (option float);
  input_format : string
}.

(** [tuple(None if bp is None else bp / count for bp in bps)]. *)
Fixpoint averages (bps : list (option Z)) (count : Z)
  : Py.result (list (option float)) :=
  match bps with
  | [] => inr []
  | bp :: rest =>
      let avg := match bp with
                 | None => inr None
                 | Some bp =>
                     match Py.truediv bp count with
                     | inl e => inl e
                     | inr x => inr (Some x)
                     end
                 end in
      match avg with
      | inl e => inl e
      | inr x =>
          match averages rest count with
          | inl e => inl e
          | inr xs => inr (x :: xs)
          end
      end
  end.

Section Derived.

(** [atropos.io.seqio.PAIRED], outside the embedded files. *)
Variable PAIRED : Z.

(** The description of the input format. *)
Definition describe (inp : Input) : string :=
  let fmt := file_format inp in
  let fmt := if decide (input_read inp = PAIRED) then fmt +:+ ", Paired"
             else fmt +:+ ", Read " +:+ pretty (input_read inp) in
  let fmt := if colorspace inp then fmt +:+ ", Colorspace" else fmt in
  let fmt := if interleaved inp then fmt +:+ ", Interleaved" else fmt in
  if delivers_qualities inp then fmt +:+ ", w/ Qualities"
  else fmt +:+ ", w/o Qualities".

(** [add_derived_data]: what [summary['derived']] is set to, unless the
    averages raise. *)
Definition add_derived_data (summary : Summary) : Py.result Derived :=
  match averages (total_bp_counts summary) (total_record_count summary) with
  | inl e => inl e
  | inr avg =>
      inr {| avg_sequence_length := avg;
             input_format := describe (input summary) |}
  end.

End Derived.

(** *** [BaseReportGenerator.__init__] and the report files *)

(** Where a report goes: one of the two standard streams, or a file name. *)
Inductive File :=
| stdout
| stderr
| Path (name : string).

(** [self.report_files]: a tuple, or the generator that the constructor
    makes for several formats, with the files that it has not produced
    yet. *)
Inductive Files :=
| Tuple (files : list File)
| Generator (pending : list File).

Record BaseReportGenerator := {
  report_formats : list string;
  report_files : Files
}.

(** The files that iterating [self.report_files] gives. *)
Definition files_of (files : Files) : list File :=
  match files with
  | Tuple files => files
  | Generator pending => pending
  end.

Section Generator.

(** [atropos.io.STDOUT], [atropos.io.STDERR] and [os.path.splitext],
    outside the embedded files. *)
Variables STDOUT STDERR : string.
Variable splitext : string → string * string.

(** [BaseReportGenerator.__init__]; [report_formats] is [None] or a sequence
    of formats, and an empty sequence counts as [None]. *)
Definition BaseReportGenerator_init (report_file : string)
    (formats : option (list string)) : BaseReportGenerator :=
  if bool_decide (report_file = STDOUT ∨ report_file = STDERR) then
    let formats := match formats with
                   | Some (fmt :: rest) => fmt :: rest
                   | _ => ["txt"%string]
                   end in
    {| report_formats := formats;
       report_files :=
         Tuple (replicate (length formats)
                  (if decide (report_file = STDERR) then stderr else stdout)) |}
  else
    let file_parts := splitext report_file in
    let formats := match formats with
                   | Some (fmt :: rest) => fmt :: rest
                   | _ => [match file_parts.2 with
                           | String _ ext => ext
                           | EmptyString => "txt"%string
                           end]
                   end in
    {| report_formats := formats;
       report_files :=
         if bool_decide (length formats = 1%nat) then Tuple [Path report_file]
         else Generator ((λ fmt, Path (report_file +:+ "." +:+ fmt)) <$> formats) |}.

End Generator.

(** The loop of [generate_reports] on the generator object: the calls made,
    how the loop ends, and the object afterwards. [zip] asks the formats
    first and then the files, so a loop that runs to its end takes one file
    per format, as far as there are files; a loop that raises has taken the
    file of the format it raised at. A tuple of files is iterated anew by
    every run; a generator goes on where it stopped. *)
Definition generate_reports {Leaf : Type} (self : BaseReportGenerator)
    (summary : list (key * value Leaf))
  : list (@report_call Leaf File) * Py.result unit * BaseReportGenerator :=
  let files := files_of (report_files self) in
  let '(calls, res) := report_loop summary (zip (report_formats self) files) in
  let taken := match res with
               | inr _ => Nat.min (length (report_formats self)) (length files)
               | inl _ => S (length calls)
               end in
  (calls, res,
   {| report_formats := report_formats self;
      report_files := match report_files self with
                      | Tuple files => Tuple files
                      | Generator pending => Generator (drop taken pending)
                      end |}).

End Reports.

(** * Sample inputs *)

Module Samples.
Import Filters.

Definition short_read : Read :=
  {| name := "r1"; sequence := "ACGT"; qualities := None;
     merged := false; adapter_match := None |}.

Definition long_read : Read :=
  {| name := "r2"; sequence := "ACGTACGTACGTACGTACGTACGT"; qualities := None;
     merged := false; adapter_match := None |}.

Definition too_short_20 : FilterWrapper :=
  {| filtered := 0; filter := TooShortReadFilter 20; kind := PairedWrapper 2 |}.

Definition too_short_20_any : FilterWrapper :=
  {| filtered := 0; filter := TooShortReadFilter 20; kind := PairedWrapper 1 |}.

Definition sample_factory : FilterFactory :=
  {| paired := "first"; factory_min_affected := 1 |}.

Definition sample_merged : FilterWrapper := SingleWrapper_init MergedReadFilter.

Definition sample_too_short : FilterWrapper :=
  SingleWrapper_init (TooShortReadFilter 20).

Definition sample_nofilter : FilterWrapper := SingleWrapper_init NoFilter_call.

Definition sample_chain : Filters :=
  {| filters := [(TMergedReadFilter, sample_merged);
                 (TTooShortReadFilter, sample_too_short);
                 (TNoFilter, sample_nofilter)];
     filter_factory := sample_factory |}.

Definition one_n_read : Read :=
  {| name := "n1"; sequence := "ACGTNACGTA"; qualities := None;
     merged := false; adapter_match := None |}.

Definition two_n_read : Read :=
  {| name := "n2"; sequence := "ACGTNnACGT"; qualities := None;
     merged := false; adapter_match := None |}.

Definition cutoff_one : NContentFilter :=
  {| is_proportion := false; cutoff := Py.Int 1 |}.

(** The binary64 value that the literal [0.1] denotes. *)
Definition cutoff_tenth : NContentFilter :=
  {| is_proportion := true; cutoff := Py.Float 0x1.999999999999ap-4 |}.

(** Reads for the statistics. *)
Definition read_acgtn : Read :=
  {| name := "lane1:tile7:read1"; sequence := "ACGTN";
     qualities := Some "IIIII"%string;
     merged := false; adapter_match := None |}.

Definition read_empty : Read :=
  {| name := "lane1:tile7:read2"; sequence := "";
     qualities := Some ""%string;
     merged := false; adapter_match := None |}.

Definition read_gg : Read :=
  {| name := "lane1:tile7:read3"; sequence := "GG"; qualities := None;
     merged := false; adapter_match := None |}.

(** A tile pattern: the name starts with [tile=], the rest is the tile. *)
Definition tile_pattern : Stats.Regexp :=
  λ name, if String.prefix "tile=" name
          then Some (String.substring 5 (String.length name - 5) name)
          else None.

Definition tiled_collector : Stats.ReadStatCollector :=
  Stats.ReadStatCollector_init (Some true) (Some tile_pattern).

(** A single-end manager that collects post-trim statistics only. *)
Definition post_manager : Stats.ReadStatistics :=
  Stats.ReadStatistics_init "post" false (None, None).

Definition read_aa : Read :=
  {| name := "tile=7"; sequence := "AA"; qualities := Some "II"%string;
     merged := false; adapter_match := None |}.

(** The base table of a new collector after the read [AA]. *)
Definition counted_aa : list (gmap ascii Z) :=
  Stats.bases (Stats.collect_all (Stats.ReadStatCollector_init None None)
                 [read_aa]).

(** A [qual2int] with the Phred+33 offset. *)
Definition phred33 : ascii → Z := λ q, Py.ord q - 33.

(** A stream of single-end reads. *)
Definition sample_stream : list (Read * option Read) :=
  [(short_read, None); (long_read, None); (short_read, None)].

(** The sample chain after [add_filter(TrimmedFilter)]. *)
Definition added_chain : Filters :=
  {| filters := [(TMergedReadFilter, sample_merged);
                 (TTooShortReadFilter, sample_too_short);
                 (TNoFilter, sample_nofilter);
                 (TTrimmedFilter, SingleWrapper_init TrimmedFilter)];
     filter_factory := sample_factory |}.

(** A factory for the mode in which only read 1 is inspected, with a
    [min_affected] that the paired policy would refuse. *)
Definition legacy_factory : FilterFactory :=
  {| paired := "first"; factory_min_affected := 7 |}.

(** The too-short filter at 5 before the too-long filter at 20. *)
Definition window_chain : Filters :=
  {| filters := [(TTooShortReadFilter,
                  SingleWrapper_init (TooShortReadFilter 5));
                 (TTooLongReadFilter,
                  SingleWrapper_init (TooLongReadFilter 20))];
     filter_factory := sample_factory |}.

(** The tile table of positional qualities after the read [AA] of tile 7. *)
Definition tiled_aa : list (gmap string (gmap ascii Z)) :=
  default [] (Stats.tile_base_qualities
                (Stats.collect_all tiled_collector [read_aa])).

(** A summary with keys that are not strings, two of which convert to the
    same string, and the reports of a run that writes three formats. *)
Definition sample_summary : list (Reports.key * Reports.value Z) :=
  [(Reports.KInt 1, Reports.VLeaf 10);
   (Reports.KTuple [Reports.KStr "a"; Reports.KStr "b"],
    Reports.VDict [(Reports.KNone, Reports.VLeaf 2)]);
   (Reports.KStr "1", Reports.VLeaf 30)].

Definition sample_reports : list (string * string) :=
  [("pickle", "out.pickle"); ("json", "out.json"); ("txt", "out.txt")]%string.

(** An empty input: no record, one base count of 0 and one that is absent. *)
Definition empty_run : Reports.Summary :=
  {| Reports.total_record_count := 0;
     Reports.total_bp_counts := [None; Some 0];
     Reports.input :=
       {| Reports.file_format := "FASTQ"; Reports.input_read := 1;
          Reports.colorspace := false; Reports.interleaved := false;
          Reports.delivers_qualities := true |} |}.

(** A read that an adapter was found in, and the chain that a factory for
    both mates with [min_affected = 2] builds from the untrimmed and the
    trimmed filter. *)
Definition trimmed_read : Read :=
  {| name := "r3"; sequence := "ACGT"; qualities := None;
     merged := false; adapter_match := Some "adapter"%string |}.

Definition both_factory : FilterFactory :=
  {| paired := "both"; factory_min_affected := 2 |}.

Definition untrimmed_chain : Filters :=
  {| filters := [(TUntrimmedFilter,
                  {| filtered := 0; filter := UntrimmedFilter;
                     kind := PairedWrapper 2 |})];
     filter_factory := both_factory |}.

Definition trim_chain : Filters :=
  {| filters := [(TUntrimmedFilter,
                  {| filtered := 0; filter := UntrimmedFilter;
                     kind := PairedWrapper 2 |});
                 (TTrimmedFilter,
                  {| filtered := 0; filter := TrimmedFilter;
                     kind := PairedWrapper 2 |})];
     filter_factory := both_factory |}.

(** A generator of reports for the file name [out] and two formats, with
    the usual names of the standard streams and a [splitext] that finds no
    extension. *)
Definition two_formats : Reports.BaseReportGenerator :=
  Reports.BaseReportGenerator_init "-" "_" (λ name, (name, ""%string)) "out"
    (Some ["json"; "yaml"]%string).

(** What [simplify] makes of the sample summary: the keys [1] and ['1']
    fall together. *)
Definition simplified_summary : list (string * Reports.value Z) :=
  [("1"%string, Reports.VLeaf 30);
   ("a,b"%string,
    Reports.VDict [(Reports.KStr "None", Reports.VLeaf 2)])].

End Samples.

(** * Properties of the filters *)

Module FilterProps.
Import Filters Samples.

Lemma PairedWrapper_init_inv f m w :
  PairedWrapper_init f m = inr w →
  (m = 1 ∨ m = 2) ∧ filter w = f ∧ kind w = PairedWrapper m ∧ filtered w = 0.
Proof.
  unfold PairedWrapper_init. case_bool_decide as Hm; [|discriminate].
  intros [= <-]. done.
Qed.

(** C4. Under the paired policy with both mates present the pair is
    discarded exactly when the filter holds on at least [min_affected]
    mates. With [min_affected = 2], a filter that holds on mate 1 only keeps
    the pair. With [min_affected = 1], a filter that holds on mate 1 discards
    the pair and is called on mate 1 only. *)
Theorem paired_filter_both_mates f m w read1 read2 :
  PairedWrapper_init f m = inr w →
  fst (_filter w read1 (Some read2)) = (m <=? affected f read1 read2)
  ∧ (m = 2 → f read1 = true → f read2 = false →
     fst (_filter w read1 (Some read2)) = KEEP)
  ∧ (m = 1 → f read1 = true →
     _filter w read1 (Some read2) = (DISCARD, [read1])).
Proof.
  intros Hw. apply PairedWrapper_init_inv in Hw as (Hm & Hf & Hk & _).
  unfold _filter, PairedWrapper_filter, affected. rewrite Hk, Hf.
  destruct Hm as [-> | ->]; destruct (f read1) eqn:E1; simpl;
    destruct (f read2) eqn:E2; simpl; repeat split; intros; congruence.
Qed.

Lemma paired_filter_both_mates_witness :
  fst (_filter too_short_20 short_read (Some long_read)) = KEEP.
Proof.
  refine (proj1 (proj2 (paired_filter_both_mates (TooShortReadFilter 20) 2
            too_short_20 short_read long_read _)) _ _ _); reflexivity.
Defined.

(** C10. Under the paired policy with mate 2 absent, when one more failure
    is needed after mate 1 the missing mate counts as that failure. With
    [min_affected = 1] the pair is discarded also when the filter does not
    hold on mate 1, and the wrapper counts the discard. *)
Theorem paired_filter_missing_mate f m w read1 :
  PairedWrapper_init f m = inr w →
  (m - (if f read1 then 1 else 0) = 1 →
   _filter w read1 None = (m <=? (if f read1 then 1 else 0) + 1, [read1]))
  ∧ (m = 1 → f read1 = false → fst (_filter w read1 None) = DISCARD)
  ∧ (m = 1 → fst (call w read1 None) = DISCARD
             ∧ filtered (snd (call w read1 None)) = 1).
Proof.
  intros Hw. apply PairedWrapper_init_inv in Hw as (Hm & Hf & Hk & H0).
  unfold call, _filter, PairedWrapper_filter. rewrite Hk, Hf, H0.
  destruct Hm as [-> | ->]; destruct (f read1) eqn:E1; simpl;
    repeat split; intros; (congruence || lia).
Qed.

Lemma paired_filter_missing_mate_witness :
  fst (_filter too_short_20_any long_read None) = DISCARD.
Proof.
  refine (proj1 (proj2 (paired_filter_missing_mate (TooShortReadFilter 20) 1
            too_short_20_any long_read _)) _ _); reflexivity.
Defined.

(** *** The chain *)

Lemma call_keep w read1 read2 :
  fst (_filter w read1 read2) = KEEP → call w read1 read2 = (KEEP, w).
Proof. unfold call. by intros ->. Qed.

Lemma call_discard w read1 read2 :
  fst (_filter w read1 read2) = DISCARD →
  fst (call w read1 read2) = DISCARD
  ∧ filtered (snd (call w read1 read2)) = filtered w + 1
  ∧ filter (snd (call w read1 read2)) = filter w
  ∧ kind (snd (call w read1 read2)) = kind w.
Proof. unfold call. by intros ->. Qed.

Lemma filter_loop_all_keep items read1 read2 :
  Forall (keeps read1 read2) items →
  filter_loop items read1 read2 = (TNoFilter, items, fst <$> items).
Proof.
  induction 1 as [|[k w] items Hk _ IH]; [done|].
  unfold keeps in Hk. simpl in *. rewrite (call_keep _ _ _ Hk), IH. done.
Qed.

Lemma filter_loop_first_discard before k w after read1 read2 :
  Forall (keeps read1 read2) before →
  fst (_filter w read1 read2) = DISCARD →
  filter_loop (before ++ (k, w) :: after) read1 read2
  = (k, before ++ (k, snd (call w read1 read2)) :: after,
     (fst <$> before) ++ [k]).
Proof.
  intros Hb Hw. induction Hb as [|[k' w'] before Hk _ IH]; simpl.
  - destruct (call_discard _ _ _ Hw) as (Hd & _).
    destruct (call w read1 read2) as [v w'']. simpl in *. by rewrite Hd.
  - unfold keeps in Hk. simpl in Hk. rewrite (call_keep _ _ _ Hk), IH. done.
Qed.

(** A wrapper around a filter that holds on every read discards every read
    or pair, under either policy. *)
Lemma wrapper_always_discards w read1 read2 :
  (∀ r, filter w r = true) →
  (∀ m, kind w = PairedWrapper m → m = 1 ∨ m = 2) →
  fst (_filter w read1 read2) = DISCARD.
Proof.
  intros Hf Hm. unfold _filter. destruct (kind w) as [|m] eqn:Hk; simpl.
  - apply Hf.
  - unfold PairedWrapper_filter. rewrite Hf.
    destruct (Hm m eq_refl) as [-> | ->]; simpl; [done|].
    destruct read2; [by rewrite Hf|done].
Qed.

Lemma FilterFactory_call_inv factory f w :
  FilterFactory_call factory f = inr w →
  filter w = f ∧ filtered w = 0
  ∧ (∀ m, kind w = PairedWrapper m → m = 1 ∨ m = 2).
Proof.
  unfold FilterFactory_call. destruct (String.eqb _ _).
  - intros Hw. apply PairedWrapper_init_inv in Hw as (Hm & Hf & Hk & H0).
    repeat split; [done..|]. intros m. rewrite Hk. by intros [= <-].
  - intros [= <-]. by repeat split.
Qed.

(** The state of a chain of an always-discarding [k1] before [k2], after
    some pairs have been filtered. *)
Lemma run_first_always_discards factory k1 k2 w1 w2 records :
  k1 ≠ k2 →
  (∀ r, filter w1 r = true) →
  (∀ m, kind w1 = PairedWrapper m → m = 1 ∨ m = 2) →
  filtered w2 = 0 →
  let out := Filters_run {| filters := [(k1, w1); (k2, w2)];
                            filter_factory := factory |} records in
  Forall (λ dest, dest = k1) (fst out)
  ∧ counter (filters (snd out)) k2 = 0
  ∧ counter (filters (snd out)) k1 = filtered w1 + Z.of_nat (length records).
Proof.
  intros Hne Hf Hm H2. revert w1 Hf Hm.
  induction records as [|[read1 read2] records IH]; intros w1 Hf Hm; simpl.
  - repeat split; [constructor|..].
    + rewrite decide_False by done. by rewrite decide_True.
    + rewrite decide_True by done. lia.
  - unfold Filters_filter. simpl.
    pose proof (wrapper_always_discards w1 read1 read2 Hf Hm) as Hd.
    destruct (call_discard _ _ _ Hd) as (Hv & Hc & Hf' & Hk').
    destruct (call w1 read1 read2) as [v w1']. simpl in *. subst v. simpl.
    specialize (IH w1'). rewrite Hf', Hk' in IH. specialize (IH Hf Hm).
    destruct (Filters_run _ records) as [dests self'']. simpl in *.
    destruct IH as (IH1 & IH2 & IH3). repeat split; [by constructor|done|lia].
Qed.

(** C5. [Filters.filter] calls the wrappers in insertion order and returns
    the key of the first one that discards; that wrapper counts the discard,
    the wrappers after it are not called and are left as they were. When no
    wrapper discards, the result is [NoFilter]. With an always-discarding
    filter added under [k1] before a never-discarding one under [k2], every
    read or pair goes to [k1] and the counter of [k2] stays 0. *)
Theorem filter_returns_first_discard :
  (∀ self before k w after read1 read2,
     filters self = before ++ (k, w) :: after →
     Forall (keeps read1 read2) before →
     fst (_filter w read1 read2) = DISCARD →
     Filters_filter self read1 read2
     = (k,
        {| filters := before ++ (k, snd (call w read1 read2)) :: after;
           filter_factory := filter_factory self |},
        (fst <$> before) ++ [k])
     ∧ filtered (snd (call w read1 read2)) = filtered w + 1)
  ∧ (∀ self read1 read2,
     Forall (keeps read1 read2) (filters self) →
     Filters_filter self read1 read2
     = (TNoFilter, self, fst <$> filters self))
  ∧ (∀ factory k1 k2 (P1 P2 : Filter) c1 c2 records,
     k1 ≠ k2 →
     (∀ r, P1 r = DISCARD) → (∀ r, P2 r = KEEP) →
     add_filter (Filters_init factory) k1 P1 = inr c1 →
     add_filter c1 k2 P2 = inr c2 →
     Forall (λ dest, dest = k1) (fst (Filters_run c2 records))
     ∧ counter (filters (snd (Filters_run c2 records))) k2 = 0).
Proof.
  split; [|split].
  - intros self before k w after read1 read2 Hs Hb Hw.
    unfold Filters_filter. rewrite Hs.
    rewrite (filter_loop_first_discard _ _ _ _ _ _ Hb Hw).
    split; [done|]. by destruct (call_discard _ _ _ Hw) as (_ & ? & _).
  - intros [items factory] read1 read2 Hk. unfold Filters_filter. simpl in *.
    by rewrite (filter_loop_all_keep _ _ _ Hk).
  - intros factory k1 k2 P1 P2 c1 c2 records Hne H1 H2.
    unfold add_filter, Filters_init. simpl.
    destruct (FilterFactory_call factory P1) as [|w1] eqn:E1; [done|].
    intros [= <-]. simpl.
    destruct (FilterFactory_call factory P2) as [|w2] eqn:E2; [done|].
    intros [= <-]. simpl. rewrite decide_False by done.
    apply FilterFactory_call_inv in E1 as (Hf1 & _ & Hm1).
    apply FilterFactory_call_inv in E2 as (_ & H02 & _).
    assert (∀ r, filter w1 r = true) as Hf by (intros r; rewrite Hf1; apply H1).
    destruct (run_first_always_discards factory k1 k2 w1 w2 records
                Hne Hf Hm1 H02) as (Ha & Hb & _).
    done.
Qed.

Lemma filter_returns_first_discard_witness :
  Filters_filter sample_chain short_read None
  = (TTooShortReadFilter,
     {| filters := [(TMergedReadFilter, sample_merged);
                    (TTooShortReadFilter,
                     snd (call sample_too_short short_read None));
                    (TNoFilter, sample_nofilter)];
        filter_factory := sample_factory |},
     [TMergedReadFilter; TTooShortReadFilter])
  ∧ filtered (snd (call sample_too_short short_read None)) = 1.
Proof.
  refine (proj1 filter_returns_first_discard sample_chain
            [(TMergedReadFilter, sample_merged)] TTooShortReadFilter
            sample_too_short [(TNoFilter, sample_nofilter)] short_read None
            _ _ _).
  - reflexivity.
  - repeat constructor.
  - reflexivity.
Defined.

(** *** The N-content filter *)

(** C6. For a cutoff [c >= 0] the N-content filter works in proportion mode
    when [c < 1.0]: an empty read is kept, any other read is discarded
    exactly when the quotient of its N count by its length is greater than
    [c]. Otherwise it works in absolute mode: the read is discarded exactly
    when its N count is greater than [c]; with cutoff 1 a read with one N is
    kept and a read with two Ns is discarded. The N count is
    [read.sequence.lower().count('n')]. *)
Theorem ncontent_filter_discards c flt read :
  NContentFilter_init c = inr flt →
  (Py.lt c (Py.Float 1.0) = true →
     (len_read read = 0 → NContentFilter_call flt read = KEEP)
     ∧ (len_read read ≠ 0 →
        Py.truediv (n_count read) (len_read read)
        = inr (Py.fdiv (n_count read) (len_read read))
        ∧ NContentFilter_call flt read
          = Py.gt (Py.Float (Py.fdiv (n_count read) (len_read read))) c))
  ∧ (Py.lt c (Py.Float 1.0) = false →
     NContentFilter_call flt read = Py.gt (Py.Int (n_count read)) c)
  ∧ (c = Py.Int 1 ∨ c = Py.Float 1.0 →
     (n_count read = 1 → NContentFilter_call flt read = KEEP)
     ∧ (n_count read = 2 → NContentFilter_call flt read = DISCARD)).
Proof.
  unfold NContentFilter_init. destruct (Py.ge c (Py.Int 0)); [|discriminate].
  intros [= <-]. unfold NContentFilter_call. simpl.
  split; [|split].
  - intros ->. split; intros Hlen.
    + by rewrite (proj2 (Z.eqb_eq _ _) Hlen).
    + rewrite (proj2 (Z.eqb_neq _ _) Hlen).
      unfold Py.truediv. by rewrite (proj2 (Z.eqb_neq _ _) Hlen).
  - by intros ->.
  - intros [-> | ->]; split; intros ->; reflexivity.
Qed.

Lemma ncontent_filter_discards_witness :
  NContentFilter_call cutoff_one one_n_read = KEEP
  ∧ NContentFilter_call cutoff_one two_n_read = DISCARD.
Proof.
  split.
  - refine (proj1 (proj2 (proj2 (ncontent_filter_discards (Py.Int 1)
              cutoff_one one_n_read _)) _) _); [reflexivity|by left|reflexivity].
  - refine (proj2 (proj2 (proj2 (ncontent_filter_discards (Py.Int 1)
              cutoff_one two_n_read _)) _) _); [reflexivity|by left|reflexivity].
Defined.

(** The spec's example of the proportion mode: cutoff 0.1, ten bases, two
    of them N. *)
Example ncontent_proportion_example :
  NContentFilter_init (Py.Float 0x1.999999999999ap-4) = inr cutoff_tenth
  ∧ NContentFilter_call cutoff_tenth two_n_read = DISCARD
  ∧ NContentFilter_call cutoff_tenth one_n_read = KEEP.
Proof. repeat split; reflexivity. Qed.

End FilterProps.
(** * Properties of the statistics *)

Module StatsProps.
Import Stats Samples.

(** *** The shape of [collect] *)

(** [collect] as one case analysis on what each of its steps returns. *)
Lemma collect_unfold record self :
  let s0 := activate record self in
  let seq := sequence record in
  let seqlen := Py.len seq in
  collect record self =
  match gc_percent seq with
  | inl e => (s0, inl e)
  | inr gc =>
      let s1 := record_read seqlen gc s0 in
      match (if max_read_len s1 <? seqlen then _extend_bases seqlen s1
             else (s1, inr tt)) with
      | (s2, inl e) => (s2, inl e)
      | (s2, inr _) =>
          if Py.truthy (qualities s2) then
            match collect_qualities record seqlen s2 with
            | (s3, inl e) => (s3, inl e)
            | (s3, inr (quals, tile)) =>
                add_bases 0 (zip (Py.chars seq) (Py.chars quals)) tile s3
            end
          else (s2, inl (Py.UnboundLocalError "quals"))
      end
  end.
Proof.
  unfold collect, activate, record_read, mbind, M_bind, mret, M_ret, modify, get, lift.
  simpl.
  destruct (bool_decide (qualities self = None) && _); simpl;
    (destruct (gc_percent _) as [e|gc]; simpl; [done|]);
    (match goal with |- context [if ?c then _extend_bases _ _ else _] =>
       destruct c end; simpl);
    try (match goal with |- context [_extend_bases ?n ?s] =>
       destruct (_extend_bases n s) as [s2 [e|[]]] end; simpl; try done);
    (match goal with |- context [Py.truthy ?q] => destruct (Py.truthy q) end; simpl; try done);
    (match goal with |- context [collect_qualities ?r ?n ?s] =>
       destruct (collect_qualities r n s) as [s3 [e|[quals tile]]] end; simpl; done).
Qed.

(** *** [extend] *)

Lemma extend_app {D} (e : D) dicts size :
  extend e dicts size
  = dicts ++ replicate (Z.to_nat (size - Z.of_nat (length dicts))) e.
Proof.
  unfold extend. destruct (0 <? _) eqn:E; [done|].
  apply Z.ltb_ge in E. rewrite Z2Nat.nonpos by done. simpl.
  by rewrite app_nil_r.
Qed.

Lemma extend_length {D} (e : D) dicts size :
  Z.of_nat (length (extend e dicts size))
  = Z.max (Z.of_nat (length dicts)) size.
Proof. rewrite extend_app, length_app, length_replicate. lia. Qed.

Lemma extend_lookup_default `{Countable K} (dicts : list (gmap K Z)) size i :
  default ∅ (extend ∅ dicts size !! i) = default ∅ (dicts !! i).
Proof.
  rewrite extend_app. destruct (decide (i < length dicts)%nat) as [Hlt|Hge].
  - by rewrite lookup_app_l.
  - rewrite lookup_app_r by lia. rewrite (lookup_ge_None_2 dicts) by lia.
    destruct (replicate _ _ !! _) eqn:E; [|done].
    by apply lookup_replicate in E as [-> _].
Qed.

(** *** What each step leaves alone *)

Ltac run_step :=
  unfold mbind, M_bind, mret, M_ret, modify, get, lift, raise; simpl;
  repeat case_match; simplify_eq/=; auto 20.

Lemma extend_bases_effect n s :
  let out := _extend_bases n s in
  unchanged s (fst out)
  ∧ bases (fst out) = extend ∅ (bases s) n
  ∧ sequence_qualities (fst out) = sequence_qualities s
  ∧ tile_sequence_qualities (fst out) = tile_sequence_qualities s
  ∧ (snd out = inr tt ∨ snd out = inl Py.AttributeError).
Proof. unfold _extend_bases, unchanged. run_step. Qed.

Lemma maybe_extend_effect (c : bool) n s :
  let out := if c then _extend_bases n s else (s, inr tt) in
  unchanged s (fst out)
  ∧ bases (fst out) = (if c then extend ∅ (bases s) n else bases s)
  ∧ sequence_qualities (fst out) = sequence_qualities s
  ∧ tile_sequence_qualities (fst out) = tile_sequence_qualities s
  ∧ (snd out = inr tt ∨ snd out = inl Py.AttributeError).
Proof.
  destruct c; [apply extend_bases_effect|]. unfold unchanged. simpl. auto 10.
Qed.

Lemma collect_qualities_effect record seqlen s :
  let out := collect_qualities record seqlen s in
  unchanged s (fst out)
  ∧ bases (fst out) = bases s
  ∧ base_qualities (fst out) = base_qualities s
  ∧ tile_base_qualities (fst out) = tile_base_qualities s.
Proof. unfold collect_qualities, unchanged. run_step. Qed.

Lemma add_base_effect i base qual tile s :
  let out := add_base i base qual tile s in
  unchanged s (fst out)
  ∧ length (bases (fst out)) = length (bases s)
  ∧ sequence_qualities (fst out) = sequence_qualities s
  ∧ tile_sequence_qualities (fst out) = tile_sequence_qualities s.
Proof.
  unfold add_base, unchanged. run_step; repeat split; auto using length_insert.
Qed.

Lemma add_bases_effect pairs tile i s :
  let out := add_bases i pairs tile s in
  unchanged s (fst out)
  ∧ length (bases (fst out)) = length (bases s)
  ∧ sequence_qualities (fst out) = sequence_qualities s
  ∧ tile_sequence_qualities (fst out) = tile_sequence_qualities s.
Proof.
  revert i s. induction pairs as [|[base qual] pairs IH]; intros i s.
  - unfold unchanged. by simpl.
  - simpl. unfold mbind, M_bind.
    pose proof (add_base_effect i base (Some qual) tile s) as (U & L & Q & T).
    destruct (add_base i base (Some qual) tile s) as [s1 [e|[]]]; simpl in *.
    + done.
    + destruct (IH (S i) s1) as (U' & L' & Q' & T').
      unfold unchanged in *. intuition congruence.
Qed.

Lemma activate_effect record s :
  max_read_len (activate record s) = max_read_len s
  ∧ count (activate record s) = count s
  ∧ sequence_lengths (activate record s) = sequence_lengths s
  ∧ sequence_gc (activate record s) = sequence_gc s
  ∧ bases (activate record s) = bases s
  ∧ tile_key_regexp (activate record s) = tile_key_regexp s.
Proof.
  unfold activate, _init_qualities.
  destruct (_ && _); simpl; [|done].
  destruct (tile_key_regexp s) eqn:E; simpl; rewrite ?E; done.
Qed.

Lemma activate_id record s :
  qualities s ≠ None ∨ Py.truthy_str (Seqio.qualities record) = false →
  activate record s = s.
Proof.
  unfold activate. intros [Hq | Hr].
  - by rewrite bool_decide_eq_false_2.
  - by rewrite Hr, andb_false_r.
Qed.

(** *** The length of the base table *)

Lemma collect_bases_length record s :
  max_read_len s = 0 →
  max_read_len (fst (collect record s)) = 0
  ∧ Z.of_nat (length (bases (fst (collect record s))))
    = Z.max (Z.of_nat (length (bases s)))
            (if counted record then len_read record else 0).
Proof.
  intros Hm. rewrite collect_unfold. unfold counted, len_read. cbv zeta.
  destruct (activate_effect record s) as (Am & _ & _ & _ & Ab & _).
  destruct (gc_percent _) as [e|gc]; simpl fst.
  { rewrite Am, Ab. split; [done|lia]. }
  remember (record_read (Py.len (sequence record)) gc (activate record s))
    as s1 eqn:Hs1.
  assert (max_read_len s1 = 0 ∧ bases s1 = bases s) as [Hm1 Hb1].
  { subst s1. unfold record_read. simpl. by rewrite Am, Ab. }
  match goal with |- context [if ?c then _extend_bases ?n s1 else _] =>
    pose proof (maybe_extend_effect c n s1) as (U2 & B2 & _);
    assert (c = (0 <? n)) as Hc by (by rewrite ?Hm1, ?Am, ?Hm);
    destruct (if c then _extend_bases n s1 else (s1, inr tt)) as [s2 r2]
  end.
  simpl in U2, B2.
  assert (max_read_len s2 = 0
          ∧ Z.of_nat (length (bases s2))
            = Z.max (Z.of_nat (length (bases s))) (Py.len (sequence record)))
    as [Hm2 Hl2].
  { destruct U2 as (U2 & _). rewrite U2, B2, Hb1, Hc. split; [done|].
    destruct (0 <? _) eqn:E; [apply extend_length|].
    apply Z.ltb_ge in E. lia. }
  destruct r2 as [e|[]]; simpl; [done|].
  destruct (Py.truthy _); simpl; [|done].
  pose proof (collect_qualities_effect record (Py.len (sequence record)) s2)
    as (U3 & B3 & _).
  destruct (collect_qualities _ _ s2) as [s3 [e|[quals tile]]]; simpl in *.
  { destruct U3 as (U3 & _). rewrite U3, B3. done. }
  pose proof (add_bases_effect
    (zip (Py.chars (sequence record)) (Py.chars quals)) tile 0%nat s3)
    as (U4 & L4 & _).
  destruct U3 as (U3 & _), U4 as (U4 & _).
  rewrite U4, U3, L4, B3. done.
Qed.

Lemma collect_all_bases_length records s :
  max_read_len s = 0 →
  Z.of_nat (length (bases (collect_all s records)))
  = Z.max (Z.of_nat (length (bases s))) (max_length (filter counted records)).
Proof.
  revert s. induction records as [|record records IH]; intros s Hm.
  - simpl. lia.
  - unfold collect_all in *. simpl.
    destruct (collect_bases_length record s Hm) as (Hm' & Hl).
    rewrite (IH _ Hm'), Hl.
    destruct (counted record) eqn:E.
    + rewrite filter_cons_True by (rewrite E; exact I). simpl. lia.
    + rewrite filter_cons_False by (rewrite E; intros []). lia.
Qed.

Lemma init_max_read_len q re :
  max_read_len (ReadStatCollector_init q re) = 0
  ∧ bases (ReadStatCollector_init q re) = [].
Proof.
  unfold ReadStatCollector_init, _init_qualities.
  destruct (Py.truthy q); simpl; [|done]. destruct re; simpl; done.
Qed.

(** C8. [extend] appends empty tables when the requested size is greater
    than the current length and does nothing otherwise, so the length never
    decreases. After any sequence of [collect] calls on a new collector the
    base table has one entry per position of the longest read that was
    counted. A read is counted unless the computation of its GC percentage
    raises, as it does for the empty read, which does not change the
    maximum. *)
Theorem bases_length_is_max_read_length :
  (∀ (dicts : list (gmap ascii Z)) size,
     extend ∅ dicts size
     = dicts ++ replicate (Z.to_nat (size - Z.of_nat (length dicts))) ∅
     ∧ Z.of_nat (length (extend ∅ dicts size))
       = Z.max (Z.of_nat (length dicts)) size
     ∧ (length dicts ≤ length (extend ∅ dicts size))%nat)
  ∧ (∀ q re records,
     Z.of_nat (length (bases (collect_all (ReadStatCollector_init q re) records)))
     = max_length (filter counted records))
  ∧ (∀ q re records,
     Forall (λ record, len_read record ≠ 0 → counted record = true) records →
     Z.of_nat (length (bases (collect_all (ReadStatCollector_init q re) records)))
     = max_length records).
Proof.
  assert (∀ q re records,
     Z.of_nat (length (bases (collect_all (ReadStatCollector_init q re) records)))
     = max_length (filter counted records)) as Hrun.
  { intros q re records. destruct (init_max_read_len q re) as (Hm & Hb).
    rewrite (collect_all_bases_length _ _ Hm), Hb. simpl.
    assert (0 ≤ max_length (filter counted records)); [|lia].
    induction (filter counted records); simpl; lia. }
  split; [|split; [done|]].
  - intros dicts size. split; [apply extend_app|].
    split; [apply extend_length|]. rewrite extend_app, length_app. lia.
  - intros q re records Hall. rewrite Hrun.
    induction Hall as [|record records Hr _ IH]; [done|].
    destruct (counted record) eqn:E.
    + rewrite filter_cons_True by (rewrite E; exact I). simpl. by rewrite IH.
    + rewrite filter_cons_False by (rewrite E; intros []). rewrite IH. simpl.
      assert (len_read record = 0) as ->.
      { destruct (decide (len_read record = 0)); [done|].
        by specialize (Hr n). }
      assert (0 ≤ max_length records); [|lia].
      clear. induction records; simpl; lia.
Qed.

Lemma bases_length_is_max_read_length_witness :
  Z.of_nat (length (bases (collect_all (ReadStatCollector_init None None)
                             [read_acgtn; read_empty; read_gg])))
  = max_length [read_acgtn; read_empty; read_gg].
Proof.
  refine (proj2 (proj2 bases_length_is_max_read_length) None None
            [read_acgtn; read_empty; read_gg] _).
  constructor; [intros _; reflexivity|].
  constructor; [intros H; destruct H; reflexivity|].
  constructor; [intros _; reflexivity|constructor].
Defined.

(** *** Reads that make [collect] raise *)

(** C2. For a read with an empty sequence the specification defines the GC
    percentage as 0 and records it; the code divides by the length. [collect] raises
    [ZeroDivisionError] before it counts the read, and the GC distribution,
    the length distribution and the read count stay as they were. *)
Theorem collect_empty_read_raises self nm quals mg am :
  let record := {| name := nm; sequence := ""; Seqio.qualities := quals;
                   merged := mg; adapter_match := am |} in
  snd (collect record self) = inl Py.ZeroDivisionError
  ∧ sequence_gc (fst (collect record self)) = sequence_gc self
  ∧ sequence_lengths (fst (collect record self)) = sequence_lengths self
  ∧ count (fst (collect record self)) = count self.
Proof.
  intros record. rewrite collect_unfold. cbv zeta.
  destruct (activate_effect record self) as (_ & Ac & Al & Ag & _).
  change (gc_percent (sequence record)) with (@inl Py.exn Z Py.ZeroDivisionError).
  done.
Qed.

(** With quality tracking off and staying off, [collect] raises and the
    counts of the base table are as before. *)
Lemma collect_inactive_raises record s :
  Py.truthy (qualities s) = false →
  activate record s = s →
  (∃ e, snd (collect record s) = inl e)
  ∧ ∀ i base, base_count (fst (collect record s)) i base = base_count s i base.
Proof.
  intros Hq Ha. rewrite collect_unfold. cbv zeta. rewrite Ha.
  destruct (gc_percent _) as [e|gc]; [eauto|].
  remember (record_read (Py.len (sequence record)) gc s) as s1 eqn:Hs1.
  assert (qualities s1 = qualities s ∧ bases s1 = bases s) as [Hq1 Hb1].
  { by subst s1. }
  match goal with |- context [if ?c then _extend_bases ?n s1 else _] =>
    pose proof (maybe_extend_effect c n s1) as (U2 & B2 & _);
    destruct (if c then _extend_bases n s1 else (s1, inr tt)) as [s2 r2];
    destruct c
  end; simpl in U2, B2;
    destruct U2 as (_ & _ & _ & _ & U2 & _);
    (destruct r2 as [e|[]]; simpl;
     [|rewrite U2, Hq1, Hq; simpl]);
    (split; [eauto|]); intros i base; unfold base_count;
    rewrite B2, Hb1, ?extend_lookup_default; done.
Qed.

(** C1. The specification counts every read in the base table, also when
    quality tracking is off. The code binds the local [quals] only when
    quality tracking is on and reads it in the final loop in every case:
    with tracking off, whether disabled or not yet activated by a read with
    qualities, [collect] raises and no count of the base table changes. *)
Theorem collect_without_qualities_raises self record nm seq mg am :
  (let off := set_qualities (Some false) self in
   (∃ e, snd (collect record off) = inl e)
   ∧ ∀ i base, base_count (fst (collect record off)) i base
               = base_count self i base)
  ∧ (let lazy := set_qualities None self in
     let plain := {| name := nm; sequence := seq; Seqio.qualities := None;
                     merged := mg; adapter_match := am |} in
     (∃ e, snd (collect plain lazy) = inl e)
     ∧ ∀ i base, base_count (fst (collect plain lazy)) i base
                 = base_count self i base)
  ∧ (let out := collect read_gg (ReadStatCollector_init None None) in
     snd out = inl (Py.UnboundLocalError "quals")
     ∧ bases (fst out) = [∅; ∅]
     ∧ count (fst out) = 1).
Proof.
  split; [|split].
  - apply (collect_inactive_raises record (set_qualities (Some false) self));
      [done|]. apply activate_id. by left.
  - apply (collect_inactive_raises _ (set_qualities None self)); [done|].
    apply activate_id. by right.
  - vm_compute. done.
Qed.

(** *** A read name that does not match the tile pattern *)

(** The exceptions of [round(a / b)]. *)
Lemma round_div_exn a b e :
  round_div a b = inl e →
  e = Py.ZeroDivisionError ∨ e = Py.OverflowError
  ∨ e = Py.ValueError "cannot convert float NaN to integer".
Proof.
  unfold round_div, Py.truediv, Py.round.
  destruct (b =? 0); [intros [= <-]; auto|].
  destruct (Prim2SF _); intros [= <-]; auto.
Qed.

Lemma add_base_exn i base qual tile s e :
  snd (add_base i base qual tile s) = inl e →
  e = Py.IndexError ∨ e = Py.TypeError.
Proof.
  unfold add_base, mbind, M_bind, mret, M_ret, modify, get, lift, raise.
  simpl. repeat case_match; simpl; intros; simplify_eq; auto.
Qed.

Lemma add_bases_exn pairs tile i s e :
  snd (add_bases i pairs tile s) = inl e →
  e = Py.IndexError ∨ e = Py.TypeError.
Proof.
  revert i s. induction pairs as [|[base qual] pairs IH]; intros i s; [done|].
  simpl. unfold mbind, M_bind.
  pose proof (add_base_exn i base (Some qual) tile s) as Hb.
  destruct (add_base i base (Some qual) tile s) as [s1 [e1|[]]]; simpl in *.
  - intros [= <-]. by apply Hb.
  - apply IH.
Qed.

(** With tiles tracked and a name that does not match, the block under
    [if self.qualities:] raises on every path. *)
Lemma collect_qualities_mismatch record seqlen s re :
  track_tiles s = true →
  tile_key_regexp s = Some re →
  re (name record) = None →
  ∃ e, snd (collect_qualities record seqlen s) = inl e.
Proof.
  intros Ht Hre Hn. unfold collect_qualities.
  unfold mbind, M_bind, mret, M_ret, modify, get, lift, raise. simpl.
  destruct (Seqio.qualities record); [|eauto].
  destruct (round_div _ _); simpl; [eauto|].
  destruct (sequence_qualities s); simpl; [|eauto].
  rewrite Ht, Hre, Hn. simpl. eauto.
Qed.

(** When that block raises the tile-mismatch error, the mean quality of the
    read has been recorded. *)
Lemma collect_qualities_did_not_match record seqlen s :
  snd (collect_qualities record seqlen s) = inl tile_mismatch →
  ∃ quals mq sq,
    Seqio.qualities record = Some quals
    ∧ round_div (sum_ord quals) seqlen = inr mq
    ∧ sequence_qualities s = Some sq
    ∧ fst (collect_qualities record seqlen s)
      = set_sequence_qualities (Some (cd_incr mq sq)) s.
Proof.
  unfold collect_qualities.
  unfold mbind, M_bind, mret, M_ret, modify, get, lift, raise. simpl.
  destruct (Seqio.qualities record) as [quals|]; [|done].
  destruct (round_div _ _) as [e|mq] eqn:Hr; simpl.
  { intros [= ->]. apply round_div_exn in Hr.
    destruct Hr as [?|[?|?]]; discriminate. }
  destruct (sequence_qualities s) as [sq|]; simpl; [|done].
  destruct (track_tiles s); simpl; [|done].
  destruct (tile_key_regexp s) as [re|]; [|done].
  destruct (re (name record)); simpl.
  - destruct (tile_sequence_qualities s); simpl; done.
  - intros _. by exists quals, mq, sq.
Qed.




(** *** [ReadStatistics.finish] *)

(** C7. The specification has [finish] return the post-trim statistics
    keyed by phase and destination. The code assigns to [result[post][dest]] with the
    bare name [post] where the key ['post'] is meant: as soon as one
    destination exists [finish] raises and returns nothing. A manager that
    received one read for the destination [out] raises [NameError]; only
    with no destination does the post phase come back, empty. *)
Theorem finish_with_destination_raises
    (qual2int : ascii → Z) (NestedTable : Type)
    (NestedDict_flatten : gmap string (gmap Z Z) → string → NestedTable)
    self dest collectors rest :
  (∃ e, ReadStatistics_finish qual2int NestedTable NestedDict_flatten
          (set_post (Some ((dest, collectors) :: rest)) self) = inl e)
  ∧ (let manager := fst (post_trim post_manager "out" [read_acgtn]) in
     snd (post_trim post_manager "out" [read_acgtn]) = inr tt
     ∧ (count <$> default [] (post manager ≫= λ d, dict_get d "out")) = [1]
     ∧ ReadStatistics_finish qual2int NestedTable NestedDict_flatten manager
       = inl (Py.NameError "post"))
  ∧ ReadStatistics_finish qual2int NestedTable NestedDict_flatten post_manager
    = inr {| r_pre := None; r_post := Some [] |}.
Proof.
  split; [|split].
  - unfold ReadStatistics_finish. simpl.
    destruct (pre self) as [pre_collectors|].
    + destruct (finish_collectors _ _ _ _ pre_collectors); [eauto|].
      simpl. destruct (finish_collectors _ _ _ _ collectors); eauto.
    + simpl. destruct (finish_collectors _ _ _ _ collectors); eauto.
  - vm_compute. done.
  - reflexivity.
Qed.

(** *** Where the keys of the base table come from *)

Lemma cd_incr_keys `{Countable K} (b k : K) (d : gmap K Z) :
  is_Some (cd_incr b d !! k) → k = b ∨ is_Some (d !! k).
Proof.
  unfold cd_incr. destruct (decide (b = k)) as [->|Hne]; [by left|].
  rewrite lookup_insert_ne by done. by right.
Qed.

Lemma add_base_bases i base qual tile s :
  bases (fst (add_base i base qual tile s))
  = match bases s !! i with
    | Some d => <[i := cd_incr base d]> (bases s)
    | None => bases s
    end.
Proof. unfold add_base. run_step. Qed.

Lemma add_base_keys i base qual tile s j d' k :
  bases (fst (add_base i base qual tile s)) !! j = Some d' →
  is_Some (d' !! k) →
  (∃ d, bases s !! j = Some d ∧ is_Some (d !! k)) ∨ (j = i ∧ k = base).
Proof.
  rewrite add_base_bases. destruct (bases s !! i) as [d|] eqn:Hi; [|eauto].
  destruct (decide (i = j)) as [->|Hne].
  - rewrite list_lookup_insert_eq by (by eapply lookup_lt_Some).
    intros [= <-] Hk. apply cd_incr_keys in Hk as [->|Hk]; eauto.
  - rewrite list_lookup_insert_ne by done. eauto.
Qed.

Lemma add_bases_keys pairs tile i s j d' k :
  bases (fst (add_bases i pairs tile s)) !! j = Some d' →
  is_Some (d' !! k) →
  (∃ d, bases s !! j = Some d ∧ is_Some (d !! k))
  ∨ (∃ n q, pairs !! n = Some (k, q) ∧ j = (i + n)%nat).
Proof.
  revert i s. induction pairs as [|[base qual] pairs IH]; intros i s; [eauto|].
  simpl. unfold mbind, M_bind.
  pose proof (add_base_keys i base (Some qual) tile s j) as Hb.
  destruct (add_base i base (Some qual) tile s) as [s1 [e|[]]]; simpl in *.
  - intros Hj Hk. destruct (Hb d' k Hj Hk) as [?|[-> ->]]; [by left|].
    right. exists 0%nat, qual. split; [done|lia].
  - intros Hj Hk. destruct (IH (S i) s1 Hj Hk) as [(d1 & Hd1 & Hk1)|(n & q & Hn & ->)].
    + destruct (Hb d1 k Hd1 Hk1) as [?|[-> ->]]; [by left|].
      right. exists 0%nat, qual. split; [done|lia].
    + right. exists (S n), q. split; [done|lia].
Qed.

Lemma extend_keys `{Countable K} (dicts : list (gmap K Z)) size j d k :
  extend ∅ dicts size !! j = Some d → is_Some (d !! k) → dicts !! j = Some d.
Proof.
  rewrite extend_app. intros Hj Hk.
  apply lookup_app_Some in Hj as [Hj|[_ Hj]]; [done|].
  apply lookup_replicate in Hj as [-> _]. rewrite lookup_empty in Hk.
  by destruct Hk.
Qed.

Lemma collect_keys record s j d' k :
  bases (fst (collect record s)) !! j = Some d' →
  is_Some (d' !! k) →
  (∃ d, bases s !! j = Some d ∧ is_Some (d !! k))
  ∨ Py.chars (sequence record) !! j = Some k.
Proof.
  rewrite collect_unfold. cbv zeta.
  destruct (activate_effect record s) as (_ & _ & _ & _ & Ab & _).
  destruct (gc_percent _) as [e|gc]; simpl fst.
  { rewrite Ab. eauto. }
  remember (record_read (Py.len (sequence record)) gc (activate record s))
    as s1 eqn:Hs1.
  assert (bases s1 = bases s) as Hb1 by (by subst s1).
  match goal with |- context [if ?c then _extend_bases ?n s1 else _] =>
    pose proof (maybe_extend_effect c n s1) as (_ & B2 & _);
    destruct (if c then _extend_bases n s1 else (s1, inr tt)) as [s2 r2] eqn:E2
  end.
  simpl in B2.
  assert (∀ d, bases s2 !! j = Some d → is_Some (d !! k) →
               bases s !! j = Some d) as H2.
  { intros d. rewrite B2, Hb1. case_match; [apply extend_keys|done]. }
  destruct r2 as [e|[]]; simpl; [eauto|].
  destruct (Py.truthy _); simpl; [|eauto].
  pose proof (collect_qualities_effect record (Py.len (sequence record)) s2)
    as (_ & B3 & _).
  destruct (collect_qualities _ _ s2) as [s3 [e|[quals tile]]]; simpl in *.
  { rewrite B3. eauto. }
  intros Hj Hk.
  destruct (add_bases_keys _ _ _ _ _ _ _ Hj Hk)
    as [(d & Hd & Hkd)|(n & q & Hn & ->)].
  - rewrite B3 in Hd. eauto.
  - right. simpl. apply lookup_zip_with_Some in Hn as (x & y & [= <- <-] & Hx & _).
    done.
Qed.

Lemma collect_all_keys records s j d' k :
  bases (collect_all s records) !! j = Some d' →
  is_Some (d' !! k) →
  (∃ d, bases s !! j = Some d ∧ is_Some (d !! k))
  ∨ (∃ record, record ∈ records ∧ Py.chars (sequence record) !! j = Some k).
Proof.
  revert s. induction records as [|record records IH]; intros s; [simpl; eauto|].
  unfold collect_all in *. simpl. intros Hj Hk.
  destruct (IH _ Hj Hk) as [(d & Hd & Hkd)|(r & Hr & Hc)].
  - destruct (collect_keys _ _ _ _ _ Hd Hkd) as [?|?]; [by left|].
    right. exists record. split; [apply list_elem_of_here|done].
  - right. exists r. split; [by apply list_elem_of_further|done].
Qed.

(** *** The header of [flatten] *)

Lemma elem_of_all_keys (dicts : list (gmap ascii Z)) k :
  k ∈ all_keys dicts ↔ present k dicts.
Proof.
  unfold all_keys, present. rewrite elem_of_union_list. split.
  - intros (X & HX & Hk). apply list_elem_of_fmap in HX as (d & -> & Hd).
    apply list_elem_of_lookup in Hd as [i Hi].
    exists i, d. split; [done|]. by apply elem_of_dom.
  - intros (i & d & Hi & Hk). exists (dom d). split.
    + apply list_elem_of_fmap. exists d. split; [done|].
      apply list_elem_of_lookup. eauto.
    + by apply elem_of_dom.
Qed.

Lemma elem_of_sorted_ascii k l : k ∈ sorted_ascii l ↔ k ∈ l.
Proof. unfold sorted_ascii. by rewrite merge_sort_Permutation. Qed.

Lemma elem_of_flatten_columns keys datatype k :
  k ∈ flatten_columns keys datatype ↔
  k ∈ keys ∨ (datatype = Some "n"%string ∧ k ∈ acgt).
Proof.
  unfold flatten_columns. case_bool_decide as Hn.
  - rewrite !elem_of_app, elem_of_elements, elem_of_difference.
    case_bool_decide as HN.
    + rewrite list_elem_of_singleton, elem_of_list_to_set, elem_of_app,
        list_elem_of_singleton.
      destruct (decide (k ∈ acgt)), (decide (k = "N"%char));
        intuition (subst; auto; congruence).
    + rewrite elem_of_list_to_set, app_nil_r, elem_of_nil.
      destruct (decide (k ∈ acgt)); intuition (subst; auto; congruence).
  - rewrite elem_of_sorted_ascii, elem_of_elements.
    intuition (subst; auto; congruence).
Qed.

(** C9, amended. In the sorted and quality orderings every key of the
    header of [flatten] is present in the table of some position, as it is
    or converted by [qual2int]. In the bases ordering the header always
    holds A, C, G and T, whether they were counted or not; every other key
    of it is present in the table of some position. A key is present in the
    base table of a collector only where a read had that symbol. *)
Theorem flatten_header_keys (qual2int : ascii → Z) dicts datatype :
  (∀ h, h ∈ fst (flatten qual2int dicts datatype) →
     ∃ k, h = header_key qual2int datatype k
          ∧ (present k dicts ∨ (datatype = Some "n"%string ∧ k ∈ acgt)))
  ∧ (datatype = Some "n"%string →
     ∀ k, k ∈ acgt → HKey k ∈ fst (flatten qual2int dicts datatype))
  ∧ (∀ k, present k dicts →
     header_key qual2int datatype k ∈ fst (flatten qual2int dicts datatype))
  ∧ (∀ q re records i d k,
     bases (collect_all (ReadStatCollector_init q re) records) !! i = Some d →
     is_Some (d !! k) →
     ∃ record, record ∈ records ∧ Py.chars (sequence record) !! i = Some k).
Proof.
  unfold flatten, flatten_header, header_key. simpl.
  split; [|split; [|split]].
  - intros h Hh.
    assert (∃ k, h = (if bool_decide (datatype = Some "q"%string)
                      then HInt (qual2int k) else HKey k)
                 ∧ k ∈ flatten_columns (all_keys dicts) datatype)
      as (k & -> & Hk).
    { case_bool_decide; apply list_elem_of_fmap in Hh as (k & -> & Hk); eauto. }
    exists k. split; [done|].
    apply elem_of_flatten_columns in Hk. by rewrite <- elem_of_all_keys.
  - intros -> k Hk. rewrite bool_decide_eq_false_2 by done.
    apply list_elem_of_fmap. exists k. split; [done|].
    apply elem_of_flatten_columns. by right.
  - intros k Hk.
    assert (k ∈ flatten_columns (all_keys dicts) datatype) as Hc.
    { apply elem_of_flatten_columns. left. by apply elem_of_all_keys. }
    case_bool_decide; apply list_elem_of_fmap; eauto.
  - intros q re records i d k Hi Hk.
    destruct (collect_all_keys _ _ _ _ _ Hi Hk) as [(d0 & Hd0 & _)|?]; [|done].
    destruct (init_max_read_len q re) as (_ & Hb). by rewrite Hb in Hd0.
Qed.

Lemma flatten_header_keys_witness :
  ∃ k, HKey "A"%char = header_key phred33 (Some "n"%string) k
       ∧ (present k counted_aa
          ∨ (Some "n"%string = Some "n"%string ∧ k ∈ acgt)).
Proof.
  refine (proj1 (flatten_header_keys phred33 counted_aa (Some "n"%string))
            (HKey "A"%char) _).
  vm_compute. apply list_elem_of_here.
Defined.

(** C9 as stated fails: after one read [AA] the bases-ordering
    header holds C, G and T, which no table has. *)
Lemma flatten_header_has_unobserved_keys :
  fst (flatten phred33 counted_aa (Some "n"%string))
  = [HKey "A"; HKey "C"; HKey "G"; HKey "T"]%char
  ∧ counted_aa = [{[ "A"%char := 1 ]}; {[ "A"%char := 1 ]}]
  ∧ ¬ present "C"%char counted_aa.
Proof.
  split; [|split].
  - vm_compute. reflexivity.
  - vm_compute. reflexivity.
  - rewrite <- elem_of_all_keys.
    apply (proj1 (bool_decide_eq_false ("C"%char ∈ all_keys counted_aa))).
    vm_compute. reflexivity.
Qed.

End StatsProps.

(** * Further properties of the filters *)

Module FilterMore.
Import Filters Samples FilterProps.

(** *** What [Filters.filter] does to the chain *)

Lemma call_same_filter w read1 read2 :
  filter (snd (call w read1 read2)) = filter w
  ∧ kind (snd (call w read1 read2)) = kind w.
Proof. unfold call. by destruct (fst _). Qed.

Lemma filter_loop_keys items read1 read2 :
  keys (filter_loop items read1 read2).1.2 = keys items.
Proof.
  induction items as [|[ft w] items IH]; [done|]. simpl.
  destruct (call w read1 read2) as [[] w']; [done|].
  destruct (filter_loop items read1 read2) as [[dest items'] called].
  simpl in *. by rewrite IH.
Qed.

Lemma filter_loop_dest items read1 read2 :
  (filter_loop items read1 read2).1.1 ∈ keys items
  ∨ (filter_loop items read1 read2).1.1 = TNoFilter.
Proof.
  induction items as [|[ft w] items IH]; [by right|]. simpl.
  destruct (call w read1 read2) as [[] w']; [left; apply list_elem_of_here|].
  destruct (filter_loop items read1 read2) as [[dest items'] called].
  simpl in *. destruct IH as [?|?]; [left|by right].
  by apply list_elem_of_further.
Qed.

Lemma counter_not_key items k : k ∉ keys items → counter items k = 0.
Proof.
  induction items as [|[ft w] items IH]; [done|]. simpl.
  intros Hk. apply not_elem_of_cons in Hk as [Hne Hk].
  rewrite decide_False by done. by apply IH.
Qed.

Lemma filter_loop_counter items read1 read2 k :
  NoDup (keys items) →
  k ≠ TNoFilter →
  counter (filter_loop items read1 read2).1.2 k
  = counter items k
    + (if decide ((filter_loop items read1 read2).1.1 = k) then 1 else 0).
Proof.
  intros Hnd Hk. induction items as [|[ft w] items IH]; simpl.
  { rewrite decide_False by done. lia. }
  apply NoDup_cons in Hnd as [Hft Hnd]. specialize (IH Hnd).
  destruct (fst (_filter w read1 read2)) eqn:Hv.
  - destruct (call_discard _ _ _ Hv) as (Hd & Hc & _).
    destruct (call w read1 read2) as [v w']. simpl in *. subst v. simpl.
    destruct (decide (ft = k)); [lia|]. lia.
  - rewrite (call_keep _ _ _ Hv).
    pose proof (filter_loop_dest items read1 read2) as Hdest.
    destruct (filter_loop items read1 read2) as [[dest items'] called].
    simpl in *. destruct (decide (ft = k)) as [->|Hne]; [|done].
    rewrite decide_False; [lia|].
    intros ->. destruct Hdest as [?|?]; done.
Qed.

Lemma run_keys self records :
  keys (filters (snd (Filters_run self records))) = keys (filters self).
Proof.
  revert self. induction records as [|[read1 read2] records IH]; intros self;
    [done|].
  simpl. unfold Filters_filter.
  pose proof (filter_loop_keys (filters self) read1 read2) as Hk.
  destruct (filter_loop (filters self) read1 read2) as [[dest items] called].
  specialize (IH {| filters := items; filter_factory := filter_factory self |}).
  destruct (Filters_run _ records) as [dests self'']. simpl in *. congruence.
Qed.

Lemma run_counts_destinations_aux self records k :
  NoDup (keys (filters self)) →
  k ≠ TNoFilter →
  counter (filters (snd (Filters_run self records))) k
  = counter (filters self) k + times k (fst (Filters_run self records)).
Proof.
  intros Hnd Hk. revert self Hnd.
  induction records as [|[read1 read2] records IH]; intros self Hnd.
  { unfold times. simpl. lia. }
  simpl. unfold Filters_filter.
  pose proof (filter_loop_counter (filters self) read1 read2 k Hnd Hk) as Hc.
  pose proof (filter_loop_keys (filters self) read1 read2) as Hkeys.
  destruct (filter_loop (filters self) read1 read2) as [[dest items] called].
  simpl in *.
  specialize (IH {| filters := items; filter_factory := filter_factory self |}).
  simpl in IH. rewrite Hkeys in IH. specialize (IH Hnd).
  destruct (Filters_run _ records) as [dests self'']. simpl in *.
  rewrite IH, Hc. unfold times. rewrite filter_cons.
  destruct (decide (dest = k)); simpl; lia.
Qed.

(** X1. Each counter counts the records that its filter discarded: after a
    stream of reads or pairs has been filtered, the counter of every filter
    class other than [NoFilter] has grown by the number of records whose
    destination is that class, and no record has gone to a class that is
    not in the chain. *)
Theorem run_counts_destinations self records k :
  NoDup (keys (filters self)) →
  k ≠ TNoFilter →
  counter (filters (snd (Filters_run self records))) k
  = counter (filters self) k + times k (fst (Filters_run self records))
  ∧ (k ∉ keys (filters self) → times k (fst (Filters_run self records)) = 0).
Proof.
  intros Hnd Hk. split; [by apply run_counts_destinations_aux|].
  intros Hout.
  pose proof (run_counts_destinations_aux self records k Hnd Hk) as Hc.
  rewrite (counter_not_key (filters self)) in Hc by done.
  rewrite (counter_not_key (filters (Filters_run self records).2)) in Hc
    by (by rewrite run_keys).
  lia.
Qed.

Lemma run_counts_destinations_witness :
  counter (filters (snd (Filters_run sample_chain sample_stream)))
          TTooShortReadFilter
  = counter (filters sample_chain) TTooShortReadFilter
    + times TTooShortReadFilter (fst (Filters_run sample_chain sample_stream)).
Proof.
  refine (proj1 (run_counts_destinations sample_chain sample_stream
                   TTooShortReadFilter _ _)); [|done].
  apply (bool_decide_unpack _). vm_compute. exact I.
Defined.

Lemma filter_loop_keeps items read1 read2 :
  Forall2 (λ old new,
       fst new = fst old
       ∧ filter (snd new) = filter (snd old)
       ∧ kind (snd new) = kind (snd old)
       ∧ filtered (snd old) ≤ filtered (snd new) ≤ filtered (snd old) + 1)
    items (filter_loop items read1 read2).1.2.
Proof.
  induction items as [|[ft w] rest IH]; simpl; [constructor|].
  pose proof (call_same_filter w read1 read2) as [Hf Hk].
  assert (filtered w ≤ filtered (snd (call w read1 read2)) ≤ filtered w + 1) as Hc.
  { unfold call. destruct (fst (_filter w read1 read2)); simpl; lia. }
  destruct (call w read1 read2) as [[] w']; simpl in *.
  - constructor; [done|]. clear. induction rest as [|[k x] rest IH];
      constructor; [|done]. simpl. repeat split; lia.
  - destruct (filter_loop rest read1 read2) as [[dest items'] called].
    simpl in *. by constructor.
Qed.

(** X2. [Filters.filter] leaves the chain in place: the same keys in the
    same order, each wrapper with the same filter and the same policy, and a
    counter that stays or grows by one. *)
Theorem filter_keeps_chain self read1 read2 :
  let self' := (Filters_filter self read1 read2).1.2 in
  filter_factory self' = filter_factory self
  ∧ Forall2 (λ old new,
       fst new = fst old
       ∧ filter (snd new) = filter (snd old)
       ∧ kind (snd new) = kind (snd old)
       ∧ filtered (snd old) ≤ filtered (snd new) ≤ filtered (snd old) + 1)
     (filters self) (filters self').
Proof.
  unfold Filters_filter.
  pose proof (filter_loop_keeps (filters self) read1 read2) as H.
  destruct (filter_loop (filters self) read1 read2) as [[dest items] called].
  simpl in *. done.
Qed.

(** *** Building the chain *)

Lemma setitem_lookup d k w : dict_lookup (setitem d k w) k = Some w.
Proof.
  induction d as [|[k' w'] d IH]; simpl; [by rewrite decide_True|].
  destruct (decide (k' = k)) as [->|Hne]; simpl.
  - by rewrite decide_True.
  - by rewrite decide_False.
Qed.

Lemma setitem_lookup_ne d k w k' :
  k' ≠ k → dict_lookup (setitem d k w) k' = dict_lookup d k'.
Proof.
  intros Hne. induction d as [|[k0 w0] d IH]; simpl.
  { by rewrite decide_False. }
  destruct (decide (k0 = k)) as [->|Hk]; simpl.
  - by rewrite !decide_False.
  - destruct (decide (k0 = k')); [done|apply IH].
Qed.

Lemma dict_lookup_keys d k : is_Some (dict_lookup d k) ↔ k ∈ keys d.
Proof.
  induction d as [|[k' w] d IH]; simpl.
  { split; [by intros []|by intros ?%elem_of_nil]. }
  rewrite elem_of_cons. destruct (decide (k' = k)) as [->|Hne].
  - split; eauto.
  - rewrite IH. intuition congruence.
Qed.

Lemma setitem_keys d k w :
  keys (setitem d k w)
  = match dict_lookup d k with
    | Some _ => keys d
    | None => keys d ++ [k]
    end.
Proof.
  induction d as [|[k' w'] d IH]; simpl; [done|].
  destruct (decide (k' = k)) as [->|Hne]; simpl; [done|].
  rewrite IH. by destruct (dict_lookup d k).
Qed.

(** X3. [add_filter] followed by a lookup: the chain then holds, under the
    class that was added, a new wrapper of the given filter with a counter
    of 0. Every other class keeps its wrapper. A class that was in the chain
    keeps its place, a new class goes to the end, and no class comes to be
    there twice. *)
Theorem add_filter_lookup self ft fltr self' :
  add_filter self ft fltr = inr self' →
  (∃ w, getitem self' ft = inr w ∧ filter w = fltr ∧ filtered w = 0)
  ∧ contains self' ft = true
  ∧ (∀ other, other ≠ ft →
       getitem self' other = getitem self other
       ∧ contains self' other = contains self other)
  ∧ keys (filters self')
    = (if contains self ft then keys (filters self)
       else keys (filters self) ++ [ft])
  ∧ (NoDup (keys (filters self)) → NoDup (keys (filters self'))).
Proof.
  unfold add_filter, getitem, contains.
  destruct (FilterFactory_call _ _) as [e|w] eqn:Hw; [done|].
  intros [= <-]. simpl.
  apply FilterFactory_call_inv in Hw as (Hf & H0 & _).
  rewrite setitem_lookup, setitem_keys.
  split; [eauto|]. split; [done|]. split; [|split].
  - intros other Hne. by rewrite setitem_lookup_ne.
  - by destruct (dict_lookup (filters self) ft).
  - intros Hnd. destruct (dict_lookup (filters self) ft) eqn:E; [done|].
    apply NoDup_app. split; [done|]. split; [|apply NoDup_singleton].
    intros k Hk ->%list_elem_of_singleton.
    apply dict_lookup_keys in Hk. rewrite E in Hk. by destruct Hk.
Qed.

Lemma add_filter_lookup_witness :
  ∃ w, getitem added_chain TTrimmedFilter = inr w
       ∧ filter w = TrimmedFilter ∧ filtered w = 0.
Proof.
  refine (proj1 (add_filter_lookup sample_chain TTrimmedFilter TrimmedFilter
                   added_chain _)).
  reflexivity.
Defined.

(** X4. The factory wraps for the paired policy only when [paired] is
    ["both"], and only then does [min_affected] matter: a value other than 1
    and 2 is refused. In every other mode the wrapper is the single-mate
    one, whatever [min_affected] is: its verdict is the filter's value on
    read 1, which is the only read the filter is called on. *)
Theorem factory_modes factory fltr :
  (paired factory = "both"%string →
     (factory_min_affected factory = 1 ∨ factory_min_affected factory = 2 →
      ∃ w, FilterFactory_call factory fltr = inr w
           ∧ kind w = PairedWrapper (factory_min_affected factory))
     ∧ (¬ (factory_min_affected factory = 1 ∨ factory_min_affected factory = 2) →
        FilterFactory_call factory fltr
        = inl (Py.ValueError "min_affected must be 1 or 2")))
  ∧ (paired factory ≠ "both"%string →
     ∃ w, FilterFactory_call factory fltr = inr w
          ∧ ∀ read1 read2, _filter w read1 read2 = (fltr read1, [read1])).
Proof.
  unfold FilterFactory_call, PairedWrapper_init. split.
  - intros ->. simpl. split; intros Hm.
    + rewrite bool_decide_eq_true_2 by done. eauto.
    + by rewrite bool_decide_eq_false_2.
  - intros Hp. apply String.eqb_neq in Hp. rewrite Hp. eauto.
Qed.

Lemma factory_modes_witness :
  ∃ w, FilterFactory_call legacy_factory MergedReadFilter = inr w
       ∧ ∀ read1 read2, _filter w read1 read2 = (MergedReadFilter read1, [read1]).
Proof.
  refine (proj2 (factory_modes legacy_factory MergedReadFilter) _).
  discriminate.
Defined.

(** *** The paired policy *)

(** X5. With both mates present the verdict of the paired policy does not
    depend on which mate comes first. *)
Theorem paired_verdict_symmetric f m w read1 read2 :
  PairedWrapper_init f m = inr w →
  fst (_filter w read1 (Some read2)) = fst (_filter w read2 (Some read1)).
Proof.
  intros Hw. apply PairedWrapper_init_inv in Hw as (Hm & Hf & Hk & _).
  unfold _filter, PairedWrapper_filter. rewrite Hk, Hf.
  destruct Hm as [-> | ->]; destruct (f read1), (f read2); reflexivity.
Qed.

Lemma paired_verdict_symmetric_witness :
  fst (_filter too_short_20 short_read (Some long_read))
  = fst (_filter too_short_20 long_read (Some short_read)).
Proof.
  refine (paired_verdict_symmetric (TooShortReadFilter 20) 2 too_short_20
            short_read long_read _).
  reflexivity.
Defined.

(** X6. The paired policy calls the filter on mate 2 exactly when mate 1
    has not settled the verdict: with [min_affected = 1] when the filter does
    not hold on mate 1, with [min_affected = 2] when it does. Mate 1 is
    always evaluated, and first. *)
Theorem paired_evaluates_mate2_when_needed f m w read1 read2 :
  PairedWrapper_init f m = inr w →
  snd (_filter w read1 (Some read2))
  = if bool_decide (m = 1) then (if f read1 then [read1] else [read1; read2])
    else (if f read1 then [read1; read2] else [read1]).
Proof.
  intros Hw. apply PairedWrapper_init_inv in Hw as (Hm & Hf & Hk & _).
  unfold _filter, PairedWrapper_filter. rewrite Hk, Hf.
  destruct Hm as [-> | ->]; destruct (f read1); reflexivity.
Qed.

Lemma paired_evaluates_mate2_when_needed_witness :
  snd (_filter too_short_20 long_read (Some short_read)) = [long_read].
Proof.
  refine (paired_evaluates_mate2_when_needed (TooShortReadFilter 20) 2
            too_short_20 long_read short_read _).
  reflexivity.
Defined.

(** *** The predicates *)

Lemma lower_char_is_n a :
  Ascii.eqb (Py.lower_char a) "n" = Ascii.eqb a "N" || Ascii.eqb a "n".
Proof. destruct a as [[] [] [] [] [] [] [] []]; reflexivity. Qed.

(** X7. The N count of the N-content filter takes both cases: it is the
    number of [N] plus the number of [n] in the sequence, and it is at most
    the length of the read. *)
Theorem n_count_both_cases read :
  n_count read = Py.count "N" (sequence read) + Py.count "n" (sequence read)
  ∧ 0 ≤ n_count read ≤ len_read read.
Proof.
  unfold n_count, len_read, Py.len. induction (sequence read) as [|a s [IH1 IH2]].
  - simpl. lia.
  - cbn [Py.lower Py.count String.length]. rewrite lower_char_is_n.
    destruct (Ascii.eqb a "N") eqn:EN, (Ascii.eqb a "n") eqn:En; simpl orb.
    + apply Ascii.eqb_eq in EN, En. congruence.
    + lia.
    + lia.
    + lia.
Qed.

(** X8. A chain of the too-short filter before the too-long filter, built
    by [add_filter] in a mode that inspects read 1 only, sends a read to
    [TooShortReadFilter] when it is shorter than the minimum, to
    [TooLongReadFilter] when it is longer than the maximum, and keeps it
    otherwise: reads of exactly the minimum or the maximum length are
    kept. *)
Theorem length_window factory minimum maximum c1 c2 read1 read2 :
  paired factory ≠ "both"%string →
  add_filter (Filters_init factory) TTooShortReadFilter
    (TooShortReadFilter minimum) = inr c1 →
  add_filter c1 TTooLongReadFilter (TooLongReadFilter maximum) = inr c2 →
  (Filters_filter c2 read1 read2).1.1
  = if len_read read1 <? minimum then TTooShortReadFilter
    else if maximum <? len_read read1 then TTooLongReadFilter
    else TNoFilter.
Proof.
  intros Hp%String.eqb_neq. unfold add_filter, Filters_init, FilterFactory_call.
  simpl. rewrite Hp. intros [= <-]. simpl. rewrite Hp. intros [= <-].
  unfold Filters_filter. simpl.
  unfold call, _filter, TooShortReadFilter, TooLongReadFilter. simpl.
  destruct (len_read read1 <? minimum); [done|]. simpl.
  by destruct (maximum <? len_read read1).
Qed.

Lemma length_window_witness :
  (Filters_filter window_chain long_read None).1.1 = TTooLongReadFilter.
Proof.
  refine (length_window sample_factory 5 20
            {| filters := [(TTooShortReadFilter,
                            SingleWrapper_init (TooShortReadFilter 5))];
               filter_factory := sample_factory |}
            window_chain long_read None _ _ _); [discriminate|reflexivity..].
Defined.

(** *** The summary *)

Lemma summary_set_fresh d k v :
  k ∉ fst <$> d → summary_set d k v = d ++ [(k, v)].
Proof.
  induction d as [|[k' v'] d IH]; simpl; [done|].
  intros Hk. apply not_elem_of_cons in Hk as [Hne Hk].
  rewrite decide_False by done. by rewrite IH.
Qed.

Lemma summarize_foldl items acc :
  NoDup ((fst <$> acc) ++ (wrapper_name <$> keys items)) →
  foldl (λ d item, summary_set d (wrapper_name (fst item)) (summarize (snd item)))
        acc items
  = acc ++ ((λ item, (wrapper_name (fst item), filtered (snd item))) <$> items).
Proof.
  revert acc. induction items as [|[k w] items IH]; intros acc Hnd; simpl.
  { by rewrite app_nil_r. }
  simpl in Hnd. apply NoDup_app in Hnd as (Ha & Hd & Hi).
  rewrite summary_set_fresh.
  2:{ intros Hin. apply (Hd _ Hin). apply list_elem_of_here. }
  rewrite IH.
  - by rewrite <- app_assoc.
  - rewrite fmap_app. simpl. rewrite <- app_assoc. simpl.
    apply NoDup_app. split; [done|]. split; [|done].
    intros x Hx. apply Hd. done.
Qed.

Lemma counter_lookup items i k w :
  NoDup (keys items) → items !! i = Some (k, w) → counter items k = filtered w.
Proof.
  revert i. induction items as [|[k' w'] items IH]; intros i Hnd Hi; [done|].
  simpl. apply NoDup_cons in Hnd as [Hk' Hnd]. destruct i as [|i]; simpl in Hi.
  - injection Hi as -> ->. by rewrite decide_True.
  - rewrite decide_False; [by eapply IH|].
    intros ->. apply Hk'. apply list_elem_of_fmap. exists (k, w).
    split; [done|]. by eapply list_elem_of_lookup_2.
Qed.

(** X9. After a stream has been filtered, [summarize] reports for every
    filter of the chain, under its name and in chain order, its count from
    before plus the number of records that went to it. The names of the
    chain are distinct and [NoFilter], the destination of kept records, is
    not a filter of the chain. *)
Theorem summarize_after_run self records :
  NoDup (wrapper_name <$> keys (filters self)) →
  TNoFilter ∉ keys (filters self) →
  Filters_summarize (snd (Filters_run self records))
  = (λ item, (wrapper_name (fst item),
              filtered (snd item)
              + times (fst item) (fst (Filters_run self records))))
    <$> filters self.
Proof.
  intros Hnames Hno.
  assert (NoDup (keys (filters self))) as Hnd by (by eapply NoDup_fmap_1).
  pose proof (run_keys self records) as Hkeys.
  pose proof (run_counts_destinations_aux self records) as Hcount.
  unfold Filters_summarize. rewrite summarize_foldl by (by rewrite Hkeys).
  simpl.
  destruct (Filters_run self records) as [dests self']. simpl in *.
  assert (NoDup (keys (filters self'))) as Hnd' by (by rewrite Hkeys).
  revert Hnames Hno Hnd Hkeys Hcount Hnd'.
  generalize (filters self), (filters self'). unfold keys, FilterDict.
  intros items items' Hnames Hno Hnd Hkeys Hcount Hnd'.
  apply list_eq. intros i. rewrite !list_lookup_fmap.
  assert (fst <$> (items' !! i) = fst <$> (items !! i)) as Hk'.
  { by rewrite <- !list_lookup_fmap, Hkeys. }
  destruct (items !! i) as [[k w]|] eqn:Hi;
    destruct (items' !! i) as [[k' w']|] eqn:Hi';
    simpl in Hk'; try discriminate; [|done].
  injection Hk' as ->. simpl. do 2 f_equal.
  assert (k ≠ TNoFilter) as Hk.
  { intros ->. apply Hno. apply list_elem_of_fmap. exists (TNoFilter, w).
    split; [done|]. by eapply list_elem_of_lookup_2. }
  specialize (Hcount k Hnd Hk).
  rewrite (counter_lookup _ i k w Hnd Hi) in Hcount.
  by rewrite (counter_lookup _ i k w' Hnd' Hi') in Hcount.
Qed.

Lemma summarize_after_run_witness :
  Filters_summarize (snd (Filters_run window_chain sample_stream))
  = [("too_short"%string, 2); ("too_long"%string, 1)].
Proof.
  etransitivity; [apply (summarize_after_run window_chain sample_stream)|].
  - apply (bool_decide_unpack _). vm_compute. exact I.
  - apply (bool_decide_unpack _). vm_compute. exact I.
  - vm_compute. reflexivity.
Defined.

(** *** Trimmed and untrimmed pairs *)

(** X23. A chain of the untrimmed filter before the trimmed filter, built by
    [add_filter] with a factory for both mates, can only be built with
    [min_affected] 1 or 2. With 1 it never keeps a complete pair: the pair
    goes to [TrimmedFilter] when both mates are trimmed and to
    [UntrimmedFilter] otherwise. With 2 it sends a pair to
    [UntrimmedFilter] when no mate is trimmed, to [TrimmedFilter] when both
    are, and keeps the pairs of which exactly one mate is trimmed. *)
Theorem trimmed_untrimmed_pairs factory c1 c2 read1 read2 :
  paired factory = "both"%string →
  add_filter (Filters_init factory) TUntrimmedFilter UntrimmedFilter = inr c1 →
  add_filter c1 TTrimmedFilter TrimmedFilter = inr c2 →
  let both_trimmed := TrimmedFilter read1 && TrimmedFilter read2 in
  let none_trimmed := UntrimmedFilter read1 && UntrimmedFilter read2 in
  (factory_min_affected factory = 1
   ∧ (Filters_filter c2 read1 (Some read2)).1.1
     = (if both_trimmed then TTrimmedFilter else TUntrimmedFilter))
  ∨ (factory_min_affected factory = 2
     ∧ (Filters_filter c2 read1 (Some read2)).1.1
       = (if none_trimmed then TUntrimmedFilter
          else if both_trimmed then TTrimmedFilter else TNoFilter)).
Proof.
  intros Hp. unfold add_filter, Filters_init, FilterFactory_call. simpl.
  rewrite Hp. simpl. unfold PairedWrapper_init.
  case_bool_decide as Hm; [|done]. intros [= <-]. simpl.
  rewrite Hp. simpl. rewrite bool_decide_true by done. intros [= <-].
  unfold Filters_filter. simpl.
  unfold call, _filter, PairedWrapper_filter, TrimmedFilter, UntrimmedFilter.
  simpl.
  destruct Hm as [Hm|Hm]; [left|right]; (split; [done|]); rewrite Hm;
    destruct (adapter_match read1), (adapter_match read2); reflexivity.
Qed.

Lemma trimmed_untrimmed_pairs_witness :
  (factory_min_affected both_factory = 1
   ∧ (Filters_filter trim_chain trimmed_read (Some short_read)).1.1
     = (if TrimmedFilter trimmed_read && TrimmedFilter short_read
        then TTrimmedFilter else TUntrimmedFilter))
  ∨ (factory_min_affected both_factory = 2
     ∧ (Filters_filter trim_chain trimmed_read (Some short_read)).1.1
       = (if UntrimmedFilter trimmed_read && UntrimmedFilter short_read
          then TUntrimmedFilter
          else if TrimmedFilter trimmed_read && TrimmedFilter short_read
               then TTrimmedFilter else TNoFilter)).
Proof.
  refine (trimmed_untrimmed_pairs both_factory untrimmed_chain trim_chain
            trimmed_read short_read _ _ _); reflexivity.
Defined.

End FilterMore.

(** * Further properties of the statistics *)

Module StatsMore.
Import Stats Samples StatsProps.

(** *** The read count and the two distributions *)

Lemma total_incr `{Countable K} (k : K) (d : gmap K Z) :
  total (cd_incr k d) = total d + 1.
Proof.
  unfold total, cd_incr, cd_get.
  assert (∀ (m : gmap K Z) (j1 j2 : K) (z1 z2 y : Z),
            j1 ≠ j2 → m !! j1 = Some z1 → m !! j2 = Some z2 →
            z1 + (z2 + y) = z2 + (z1 + y)) as Hcomm by (intros; lia).
  destruct (d !! k) as [v|] eqn:E; simpl.
  - rewrite <- (insert_delete_eq d).
    rewrite map_fold_insert_L; [|by eauto|by rewrite lookup_delete_eq].
    rewrite <- (insert_delete_id d k v E) at 2.
    rewrite map_fold_insert_L; [|by eauto|by rewrite lookup_delete_eq].
    lia.
  - rewrite map_fold_insert_L; [lia|by eauto|done].
Qed.

Lemma cd_get_incr `{Countable K} (k j : K) (d : gmap K Z) :
  cd_get (cd_incr k d) j = cd_get d j + (if decide (k = j) then 1 else 0).
Proof.
  unfold cd_incr, cd_get. destruct (decide (k = j)) as [->|Hne].
  - by rewrite lookup_insert_eq.
  - rewrite lookup_insert_ne by done. lia.
Qed.

Lemma counted_nonempty record : counted record = true → len_read record ≠ 0.
Proof.
  unfold counted, gc_percent, round_div, Py.truediv, len_read.
  intros Hc Hl. rewrite Hl in Hc. simpl in Hc. discriminate.
Qed.

(** What [collect] does to the read count and to the two distributions,
    on every path. *)
Lemma collect_counters record s :
  count (fst (collect record s))
  = count s + (if counted record then 1 else 0)
  ∧ sequence_lengths (fst (collect record s))
    = (if counted record
       then cd_incr (len_read record) (sequence_lengths s)
       else sequence_lengths s)
  ∧ sequence_gc (fst (collect record s))
    = match gc_percent (sequence record) with
      | inr gc => cd_incr gc (sequence_gc s)
      | inl _ => sequence_gc s
      end.
Proof.
  rewrite collect_unfold. unfold counted, len_read. cbv zeta.
  destruct (activate_effect record s) as (_ & Ac & Al & Ag & _).
  destruct (gc_percent _) as [e|gc]; simpl fst.
  { rewrite Ac, Al, Ag. split; [lia|done]. }
  remember (record_read (Py.len (sequence record)) gc (activate record s))
    as s1 eqn:Hs1.
  assert (count s1 = count s + 1
          ∧ sequence_lengths s1
            = cd_incr (Py.len (sequence record)) (sequence_lengths s)
          ∧ sequence_gc s1 = cd_incr gc (sequence_gc s)) as (C1 & L1 & G1).
  { subst s1. unfold record_read. simpl. by rewrite Ac, Al, Ag. }
  match goal with |- context [if ?c then _extend_bases ?n s1 else _] =>
    pose proof (maybe_extend_effect c n s1) as (U2 & _);
    destruct (if c then _extend_bases n s1 else (s1, inr tt)) as [s2 r2]
  end.
  simpl in U2. destruct U2 as (_ & C2 & L2 & G2 & _).
  rewrite <- C1, <- L1, <- G1, <- C2, <- L2, <- G2.
  destruct r2 as [e|[]]; simpl; [done|].
  destruct (Py.truthy _); simpl; [|done].
  pose proof (collect_qualities_effect record (Py.len (sequence record)) s2)
    as (U3 & _).
  destruct (collect_qualities _ _ s2) as [s3 [e|[quals tile]]]; simpl in *.
  { destruct U3 as (_ & C3 & L3 & G3 & _). by rewrite C3, L3, G3. }
  pose proof (add_bases_effect
    (zip (Py.chars (sequence record)) (Py.chars quals)) tile 0%nat s3)
    as (U4 & _).
  destruct U3 as (_ & C3 & L3 & G3 & _), U4 as (_ & C4 & L4 & G4 & _).
  by rewrite C4, L4, G4, C3, L3, G3.
Qed.

Lemma collect_all_counters records s :
  count (collect_all s records)
  = count s + Z.of_nat (length (base.filter counted records))
  ∧ total (sequence_lengths (collect_all s records))
    = total (sequence_lengths s) + Z.of_nat (length (base.filter counted records))
  ∧ total (sequence_gc (collect_all s records))
    = total (sequence_gc s) + Z.of_nat (length (base.filter counted records)).
Proof.
  revert s. induction records as [|record records IH]; intros s.
  { simpl. lia. }
  unfold collect_all in *. simpl.
  destruct (IH (fst (collect record s))) as (IC & IL & IG).
  destruct (collect_counters record s) as (C & L & G).
  rewrite IC, IL, IG, C, L, G. unfold counted.
  destruct (gc_percent (sequence record)) as [e|gc] eqn:E.
  - rewrite filter_cons_False by (unfold counted; rewrite E; intros []).
    lia.
  - rewrite filter_cons_True by (unfold counted; rewrite E; exact I).
    rewrite !total_incr. simpl. lia.
Qed.

(** X10. A collector counts the reads that get past the computation of the
    GC percentage, whether or not [collect] raises later: after any
    sequence of reads the read count of a new collector is the number of
    those reads, and the counts of the length distribution and of the GC
    distribution each add up to the read count. *)
Theorem count_is_number_of_counted_reads q re records :
  let s := collect_all (ReadStatCollector_init q re) records in
  count s = Z.of_nat (length (base.filter counted records))
  ∧ total (sequence_lengths s) = count s
  ∧ total (sequence_gc s) = count s.
Proof.
  intros s. subst s.
  destruct (collect_all_counters records (ReadStatCollector_init q re))
    as (C & L & G).
  assert (count (ReadStatCollector_init q re) = 0
          ∧ sequence_lengths (ReadStatCollector_init q re) = ∅
          ∧ sequence_gc (ReadStatCollector_init q re) = ∅) as (C0 & L0 & G0).
  { unfold ReadStatCollector_init, _init_qualities.
    destruct (Py.truthy q); simpl; [|done]. by destruct re. }
  rewrite C, L, G, C0, L0, G0. unfold total. rewrite map_fold_empty. lia.
Qed.

Lemma collect_all_lengths records s n :
  cd_get (sequence_lengths (collect_all s records)) n
  = cd_get (sequence_lengths s) n + counted_with_length n records.
Proof.
  revert s. induction records as [|record records IH]; intros s.
  { unfold counted_with_length. simpl. lia. }
  unfold collect_all in *. simpl. rewrite IH.
  destruct (collect_counters record s) as (_ & L & _). rewrite L.
  unfold counted_with_length.
  destruct (counted record) eqn:E.
  - rewrite cd_get_incr. destruct (decide (len_read record = n)) as [Hn|Hn].
    + rewrite filter_cons_True by done. simpl. lia.
    + rewrite filter_cons_False by (by intros [_ ?]). lia.
  - rewrite filter_cons_False by (intros [? _]; congruence). lia.
Qed.

(** X11. The length distribution of a collector is the histogram of the
    lengths of the reads it counted: after any sequence of reads the count
    under [n] is the number of counted reads of length [n]. No read of
    length 0 is counted, so the count under 0 stays 0. *)
Theorem length_distribution_is_histogram q re records n :
  let s := collect_all (ReadStatCollector_init q re) records in
  cd_get (sequence_lengths s) n = counted_with_length n records
  ∧ cd_get (sequence_lengths s) 0 = 0.
Proof.
  intros s. subst s. rewrite !collect_all_lengths.
  assert (sequence_lengths (ReadStatCollector_init q re) = ∅) as ->.
  { unfold ReadStatCollector_init, _init_qualities.
    destruct (Py.truthy q); simpl; [|done]. by destruct re. }
  unfold cd_get. rewrite !lookup_empty. simpl. split; [lia|].
  unfold counted_with_length.
  induction records as [|record records IH]; [done|].
  rewrite filter_cons_False; [done|].
  intros [Hc Hl]. by apply counted_nonempty in Hc.
Qed.

(** *** Quality tracking *)

Lemma collect_flags record s :
  qualities (fst (collect record s)) = qualities (activate record s)
  ∧ tile_key_regexp (fst (collect record s)) = tile_key_regexp s.
Proof.
  rewrite collect_unfold. cbv zeta.
  destruct (activate_effect record s) as (_ & _ & _ & _ & _ & Ar).
  destruct (gc_percent _) as [e|gc]; simpl fst; [done|].
  remember (record_read (Py.len (sequence record)) gc (activate record s))
    as s1 eqn:Hs1.
  assert (qualities s1 = qualities (activate record s)
          ∧ tile_key_regexp s1 = tile_key_regexp s) as (Q1 & R1).
  { subst s1. unfold record_read. simpl. by rewrite Ar. }
  match goal with |- context [if ?c then _extend_bases ?n s1 else _] =>
    pose proof (maybe_extend_effect c n s1) as (U2 & _);
    destruct (if c then _extend_bases n s1 else (s1, inr tt)) as [s2 r2]
  end.
  simpl in U2. destruct U2 as (_ & _ & _ & _ & Q2 & R2).
  rewrite <- Q1, <- R1, <- Q2, <- R2.
  destruct r2 as [e|[]]; simpl; [done|].
  destruct (Py.truthy _); simpl; [|done].
  pose proof (collect_qualities_effect record (Py.len (sequence record)) s2)
    as (U3 & _).
  destruct (collect_qualities _ _ s2) as [s3 [e|[quals tile]]]; simpl in *.
  { by destruct U3 as (_ & _ & _ & _ & Q3 & R3). }
  pose proof (add_bases_effect
    (zip (Py.chars (sequence record)) (Py.chars quals)) tile 0%nat s3)
    as (U4 & _).
  destruct U3 as (_ & _ & _ & _ & Q3 & R3), U4 as (_ & _ & _ & _ & Q4 & R4).
  by rewrite Q4, R4, Q3, R3.
Qed.

Lemma activate_flag record s :
  qualities (activate record s)
  = if bool_decide (qualities s = None) && Py.truthy_str (Seqio.qualities record)
    then Some true else qualities s.
Proof.
  unfold activate, _init_qualities. destruct (_ && _); [|done].
  simpl. by destruct (tile_key_regexp s).
Qed.

Lemma quality_tracking_flags s records :
  qualities (collect_all s records)
  = (if bool_decide (qualities s = None) && any_qualities records
     then Some true else qualities s)
  ∧ tile_key_regexp (collect_all s records) = tile_key_regexp s.
Proof.
  revert s. induction records as [|record records IH]; intros s.
  { simpl. by rewrite andb_false_r. }
  unfold collect_all in *. simpl.
  destruct (IH (fst (collect record s))) as (IQ & IR).
  destruct (collect_flags record s) as (Q & R).
  rewrite IQ, IR, Q, R, activate_flag. split; [|done].
  unfold any_qualities.
  destruct (qualities s) as [b|] eqn:E; simpl; [done|].
  by destruct (Py.truthy_str (Seqio.qualities record)); simpl.
Qed.


(** X12. Quality tracking starts at the first read that carries qualities
    and is never switched off or on again: after any sequence of reads the
    [qualities] flag of a collector is true if it was [None] and some read
    carried qualities, and is what it was otherwise, so that a collector
    made with [qualities=False] never tracks them. The tile pattern is never
    changed. *)
Theorem quality_tracking_is_lazy_and_permanent s records :
  qualities (collect_all s records)
  = (if bool_decide (qualities s = None) && any_qualities records
     then Some true else qualities s)
  ∧ tile_key_regexp (collect_all s records) = tile_key_regexp s
  ∧ (qualities s = Some false →
     ∀ record, ∃ e, snd (collect record (collect_all s records)) = inl e).
Proof.
  destruct (quality_tracking_flags s records) as (Q & R).
  split; [done|]. split; [done|].
  intros Hoff record.
  apply collect_inactive_raises.
  - by rewrite Q, Hoff.
  - apply activate_id. left. by rewrite Q, Hoff.
Qed.

Lemma quality_tracking_is_lazy_and_permanent_witness :
  ∃ e,
    snd (collect read_aa
           (collect_all (ReadStatCollector_init (Some false) None) [read_acgtn]))
    = inl e.
Proof.
  refine (proj2 (proj2 (quality_tracking_is_lazy_and_permanent
            (ReadStatCollector_init (Some false) None) [read_acgtn])) _ read_aa).
  reflexivity.
Defined.

(** *** A read with qualities is counted at every position *)

Lemma lookup_default_insert `{Countable K} (l : list (gmap K Z)) i j d x :
  l !! i = Some d →
  default ∅ (<[i := x]> l !! j)
  = if decide (i = j) then x else default ∅ (l !! j).
Proof.
  intros Hi. destruct (decide (i = j)) as [->|Hne].
  - rewrite list_lookup_insert_eq; [done|]. by eapply lookup_lt_Some.
  - by rewrite list_lookup_insert_ne.
Qed.

Lemma add_base_ok n i base q tile s :
  ready n tile s → (i < n)%nat →
  let out := add_base i base (Some q) tile s in
  snd out = inr tt
  ∧ ready n tile (fst out)
  ∧ (∀ j b, base_count (fst out) j b
            = base_count s j b
              + (if decide (i = j) then if decide (base = b) then 1 else 0
                 else 0))
  ∧ (∀ j c, quality_count (fst out) j c
            = quality_count s j c
              + (if decide (i = j) then if decide (q = c) then 1 else 0
                 else 0)).
Proof.
  intros (Hb & (bq & Hbq & Hlq) & Ht) Hi.
  destruct (lookup_lt_is_Some_2 (bases s) i) as [d Hd]; [lia|].
  destruct (lookup_lt_is_Some_2 bq i) as [dq Hdq]; [lia|].
  assert (∀ j b, cd_get (default ∅ (<[i := cd_incr base d]> (bases s) !! j)) b
                 = base_count s j b
                   + (if decide (i = j) then if decide (base = b) then 1 else 0
                      else 0)) as Hbase.
  { intros j b. rewrite (lookup_default_insert _ _ _ d) by done.
    unfold base_count. destruct (decide (i = j)) as [<-|]; [|lia].
    rewrite Hd. simpl. apply cd_get_incr. }
  assert (∀ j c, cd_get (default ∅ (<[i := cd_incr q dq]> bq !! j)) c
                 = quality_count s j c
                   + (if decide (i = j) then if decide (q = c) then 1 else 0
                      else 0)) as Hqual.
  { intros j c. rewrite (lookup_default_insert _ _ _ dq) by done.
    unfold quality_count. rewrite Hbq. simpl.
    destruct (decide (i = j)) as [<-|]; [|lia].
    rewrite Hdq. simpl. apply cd_get_incr. }
  unfold add_base, mbind, M_bind, mret, M_ret, modify, get, raise. simpl.
  rewrite Hd, Hbq, Hdq. simpl.
  destruct tile as [[|a t]|]; simpl.
  - unfold ready, base_count, quality_count. simpl.
    rewrite !length_insert. repeat split; eauto.
    exists (<[i := cd_incr q dq]> bq). by rewrite length_insert.
  - destruct Ht as (tbq & Htbq & Hlt). rewrite Htbq.
    destruct (lookup_lt_is_Some_2 tbq i) as [dt Hdt]; [lia|].
    rewrite Hdt. simpl. unfold ready, base_count, quality_count. simpl.
    rewrite !length_insert. repeat split; eauto.
    + exists (<[i := cd_incr q dq]> bq). by rewrite length_insert.
    + eexists. split; [done|]. by rewrite length_insert.
  - unfold ready, base_count, quality_count. simpl.
    rewrite !length_insert. repeat split; eauto.
    exists (<[i := cd_incr q dq]> bq). by rewrite length_insert.
Qed.

(** What the loop adds at position [j] when it starts at position [i]. *)
Lemma add_bases_ok n pairs tile i s :
  ready n tile s → (i + length pairs ≤ n)%nat →
  let out := add_bases i pairs tile s in
  snd out = inr tt
  ∧ ready n tile (fst out)
  ∧ (∀ j b, base_count (fst out) j b
            = base_count s j b
              + (if decide (i ≤ j)%nat
                 then match pairs !! (j - i)%nat with
                      | Some (b', _) => if decide (b' = b) then 1 else 0
                      | None => 0
                      end
                 else 0))
  ∧ (∀ j c, quality_count (fst out) j c
            = quality_count s j c
              + (if decide (i ≤ j)%nat
                 then match pairs !! (j - i)%nat with
                      | Some (_, q') => if decide (q' = c) then 1 else 0
                      | None => 0
                      end
                 else 0)).
Proof.
  revert i s. induction pairs as [|[base q] pairs IH]; intros i s Hr Hn.
  { simpl. split; [done|]. split; [done|].
    split; intros; case_decide; simpl; lia. }
  simpl in Hn. simpl. unfold mbind, M_bind.
  destruct (add_base_ok n i base q tile s Hr) as (Hok & Hr1 & Hb1 & Hq1); [lia|].
  destruct (add_base i base (Some q) tile s) as [s1 r1]. simpl in *. subst r1.
  destruct (IH (S i) s1 Hr1) as (Hok2 & Hr2 & Hb2 & Hq2); [lia|].
  split; [done|]. split; [done|]. split.
  - intros j b. rewrite Hb2, Hb1.
    destruct (decide (S i ≤ j)%nat), (decide (i ≤ j)%nat),
      (decide (i = j)) as [<-|Hne]; try lia.
    + replace (j - i)%nat with (S (j - S i)) by lia. simpl. lia.
    + replace (i - i)%nat with 0%nat by lia. simpl. lia.
  - intros j c. rewrite Hq2, Hq1.
    destruct (decide (S i ≤ j)%nat), (decide (i ≤ j)%nat),
      (decide (i = j)) as [<-|Hne]; try lia.
    + replace (j - i)%nat with (S (j - S i)) by lia. simpl. lia.
    + replace (i - i)%nat with 0%nat by lia. simpl. lia.
Qed.

Lemma has_is_Some {A} (o : option A) : has o = true ↔ is_Some o.
Proof.
  destruct o; simpl; split; try done.
  all: intros [x Hx]; congruence.
Qed.

Lemma has_None {A} (o : option A) : has o = false ↔ o = None.
Proof. by destruct o. Qed.

Ltac run_tables :=
  unfold same_tables, mbind, M_bind, mret, M_ret, modify, get, lift, raise;
  simpl; repeat case_match; simplify_eq/=; repeat split;
  repeat match goal with H : ?x = _ |- context [?x] => rewrite H end;
  reflexivity.

Lemma extend_bases_tables n s : same_tables s (fst (_extend_bases n s)).
Proof. unfold _extend_bases. run_tables. Qed.

Lemma collect_qualities_tables record seqlen s :
  same_tables s (fst (collect_qualities record seqlen s)).
Proof. unfold collect_qualities. run_tables. Qed.

Lemma add_base_tables i base qual tile s :
  same_tables s (fst (add_base i base qual tile s)).
Proof. unfold add_base. run_tables. Qed.

Lemma same_tables_trans s1 s2 s3 :
  same_tables s1 s2 → same_tables s2 s3 → same_tables s1 s3.
Proof. unfold same_tables. intuition congruence. Qed.

Lemma add_bases_tables pairs tile i s :
  same_tables s (fst (add_bases i pairs tile s)).
Proof.
  revert i s. induction pairs as [|[base qual] pairs IH]; intros i s; [done|].
  simpl. unfold mbind, M_bind.
  pose proof (add_base_tables i base (Some qual) tile s) as H1.
  destruct (add_base i base (Some qual) tile s) as [s1 [e|[]]]; simpl in *;
    [done|].
  eapply same_tables_trans; [done|apply IH].
Qed.

(** A collector stays well formed when the flags and [max_read_len] stay
    and the tables that are there stay there. *)
Lemma well_formed_step s s' :
  well_formed s → unchanged s s' → same_tables s s' → well_formed s'.
Proof.
  intros (Hm & Hon & Hoff) (Um & _ & _ & _ & Uq & Ur) (Ts & Tb & Tt & Tq).
  unfold well_formed. rewrite Um, Uq, Ur. split; [done|]. split.
  - intros Hq. destruct (Hon Hq) as (H1 & H2 & H3).
    apply has_is_Some in H1, H2.
    split; [apply has_is_Some; congruence|].
    split; [apply has_is_Some; congruence|].
    intros Hre. destruct (H3 Hre) as [H4 H5]. apply has_is_Some in H4, H5.
    split; apply has_is_Some; congruence.
  - intros Hq. apply has_None. rewrite Tb. apply has_None. by apply Hoff.
Qed.

Lemma activate_well_formed record s :
  well_formed s →
  well_formed (activate record s)
  ∧ (∀ i base, base_count (activate record s) i base = base_count s i base)
  ∧ (∀ i qual, quality_count (activate record s) i qual
               = quality_count s i qual).
Proof.
  intros (Hm & Hon & Hoff). unfold activate.
  destruct (bool_decide (qualities s = None)) eqn:E; simpl; [|done].
  destruct (Py.truthy_str _); simpl; [|done].
  apply bool_decide_eq_true in E.
  assert (base_qualities s = None) as Hb by (apply Hoff; by rewrite E).
  unfold _init_qualities, well_formed, base_count, quality_count.
  destruct (tile_key_regexp s) as [re|] eqn:Er; simpl; rewrite ?Er, ?Hb; simpl.
  - split; [|done]. split; [done|]. split; [|intros [=]].
    intros _. eauto 10.
  - split; [|done]. split; [done|]. split; [|intros [=]].
    intros _. split; [eauto|]. split; [eauto|]. intros [x Hx]; congruence.
Qed.

Lemma extend_bases_ok n s :
  well_formed s →
  Py.truthy (qualities s) = true →
  let out := _extend_bases n s in
  snd out = inr tt
  ∧ (∀ tile,
       match tile with
       | Some (String _ _) => is_Some (tile_key_regexp s)
       | _ => True
       end →
       ready (Z.to_nat n) tile (fst out))
  ∧ (∀ i base, base_count (fst out) i base = base_count s i base)
  ∧ (∀ i qual, quality_count (fst out) i qual = quality_count s i qual).
Proof.
  intros (Hm & Hon & _) Hq. destruct (Hon Hq) as (_ & [bq Hbq] & Ht).
  assert (∀ {D} (l : list D) (e : D),
            (Z.to_nat n ≤ length (extend e l n))%nat) as Hlen.
  { intros D l e. pose proof (extend_length e l n). lia. }
  unfold _extend_bases, mbind, M_bind, mret, M_ret, modify, get, raise.
  unfold track_tiles. simpl. rewrite !Hq, Hbq. simpl.
  destruct (tile_key_regexp s) as [re|] eqn:Er; simpl.
  - destruct Ht as ([tbq Htbq] & _); [done|]. rewrite Htbq. simpl.
    split; [done|]. split; [|split].
    + intros tile _. unfold ready. simpl. split; [apply Hlen|].
      split; [eauto|]. destruct tile as [[|]|]; eauto.
    + intros i base. unfold base_count. simpl.
      by rewrite extend_lookup_default.
    + intros i qual. unfold quality_count. simpl. rewrite Hbq. simpl.
      by rewrite extend_lookup_default.
  - split; [done|]. split; [|split].
    + intros tile Htile. unfold ready. simpl. split; [apply Hlen|].
      split; [eauto|]. destruct tile as [[|]|]; [done| |done].
      by destruct Htile.
    + intros i base. unfold base_count. simpl.
      by rewrite extend_lookup_default.
    + intros i qual. unfold quality_count. simpl. rewrite Hbq. simpl.
      by rewrite extend_lookup_default.
Qed.

Lemma collect_qualities_ok record seqlen s quals mq :
  well_formed s →
  Py.truthy (qualities s) = true →
  Seqio.qualities record = Some quals →
  round_div (sum_ord quals) seqlen = inr mq →
  (∀ re, tile_key_regexp s = Some re → is_Some (re (name record))) →
  ∃ tile,
    snd (collect_qualities record seqlen s) = inr (quals, tile)
    ∧ match tile with
      | Some (String _ _) => is_Some (tile_key_regexp s)
      | _ => True
      end.
Proof.
  intros (Hm & Hon & _) Hq Hquals Hmq Hre.
  destruct (Hon Hq) as ([sq Hsq] & _ & Ht).
  unfold collect_qualities, mbind, M_bind, mret, M_ret, modify, get, raise, lift.
  unfold track_tiles. simpl. rewrite Hquals, Hmq. simpl.
  rewrite Hsq. simpl. rewrite Hq. simpl.
  destruct (tile_key_regexp s) as [re|] eqn:Er; simpl; [|by exists None].
  destruct (Hre re eq_refl) as [tile Htile]. rewrite Htile.
  destruct Ht as (_ & [tsq Htsq]); [done|]. rewrite Htsq. simpl.
  exists (Some tile). split; [done|]. by destruct tile.
Qed.

Lemma record_read_well_formed n gc s :
  well_formed (record_read n gc s) ↔ well_formed s.
Proof. done. Qed.

Lemma collect_well_formed record s :
  well_formed s → well_formed (fst (collect record s)).
Proof.
  intros Hwf. rewrite collect_unfold. cbv zeta.
  destruct (activate_well_formed record s Hwf) as (Hwf0 & _).
  destruct (gc_percent _) as [e|gc]; simpl fst; [done|].
  remember (record_read (Py.len (sequence record)) gc (activate record s))
    as s1 eqn:Hs1.
  assert (well_formed s1) as Hwf1 by (by subst s1).
  match goal with |- context [if ?c then _extend_bases ?n s1 else _] =>
    assert (well_formed (fst (if c then _extend_bases n s1 else (s1, inr tt))))
      as Hwf2;
    [destruct c; [|done];
     eapply well_formed_step;
       [done|apply extend_bases_effect|apply extend_bases_tables]|];
    destruct (if c then _extend_bases n s1 else (s1, inr tt)) as [s2 r2]
  end.
  simpl in Hwf2. destruct r2 as [e|[]]; simpl; [done|].
  destruct (Py.truthy _); simpl; [|done].
  assert (well_formed (fst (collect_qualities record (Py.len (sequence record)) s2)))
    as Hwf3.
  { eapply well_formed_step;
      [done|apply collect_qualities_effect|apply collect_qualities_tables]. }
  destruct (collect_qualities _ _ s2) as [s3 [e|[quals tile]]]; simpl in *;
    [done|].
  eapply well_formed_step;
    [done|apply add_bases_effect|apply add_bases_tables].
Qed.

Lemma zip_chars_length seq quals :
  (length (zip (Py.chars seq) (Py.chars quals)) ≤ Z.to_nat (Py.len seq))%nat.
Proof.
  rewrite length_zip_with. unfold Py.len.
  assert (length (Py.chars seq) = String.length seq) as ->.
  { induction seq; simpl; congruence. }
  lia.
Qed.

Lemma collect_ok s record quals gc mq :
  well_formed s →
  Seqio.qualities record = Some quals →
  qualities s = Some true ∨ (qualities s = None ∧ quals ≠ ""%string) →
  gc_percent (sequence record) = inr gc →
  round_div (sum_ord quals) (len_read record) = inr mq →
  (∀ re, tile_key_regexp s = Some re → is_Some (re (name record))) →
  let out := collect record s in
  snd out = inr tt
  ∧ (∀ i base, base_count (fst out) i base
               = base_count s i base + base_seen record i base)
  ∧ (∀ i qual, quality_count (fst out) i qual
               = quality_count s i qual + quality_seen record i qual).
Proof.
  intros Hwf Hquals Hon Hgc Hmq Hre out. subst out.
  rewrite collect_unfold. cbv zeta. rewrite Hgc.
  destruct (activate_well_formed record s Hwf) as (Hwf0 & Hb0 & Hq0).
  destruct (activate_effect record s) as (Am & _ & _ & _ & _ & Ar).
  assert (Py.truthy (qualities (activate record s)) = true) as Hq.
  { rewrite activate_flag, Hquals. destruct Hon as [->|[-> Hne]]; [done|].
    simpl. by destruct quals. }
  assert (len_read record ≠ 0) as Hlen.
  { apply counted_nonempty. unfold counted. by rewrite Hgc. }
  unfold len_read in *.
  remember (record_read (Py.len (sequence record)) gc (activate record s))
    as s1 eqn:Hs1.
  assert (well_formed s1 ∧ Py.truthy (qualities s1) = true
          ∧ max_read_len s1 = 0
          ∧ tile_key_regexp s1 = tile_key_regexp s
          ∧ (∀ i base, base_count s1 i base = base_count s i base)
          ∧ (∀ i qual, quality_count s1 i qual = quality_count s i qual))
    as (Hwf1 & Hq1 & Hm1 & Hr1 & Hb1 & Hqc1).
  { subst s1. split; [done|]. split; [done|]. split; [simpl; rewrite Am; by destruct Hwf|].
    split; [done|]. split; [apply Hb0|apply Hq0]. }
  rewrite Hm1.
  assert ((0 <? Py.len (sequence record)) = true) as ->.
  { apply Z.ltb_lt. unfold Py.len in *. lia. }
  destruct (extend_bases_ok (Py.len (sequence record)) s1 Hwf1 Hq1)
    as (Hok2 & Hready & Hb2 & Hqc2).
  pose proof (extend_bases_effect (Py.len (sequence record)) s1)
    as (U2 & _).
  pose proof (extend_bases_tables (Py.len (sequence record)) s1) as T2.
  assert (well_formed (fst (_extend_bases (Py.len (sequence record)) s1)))
    as Hwf2 by (by eapply well_formed_step).
  destruct (_extend_bases _ s1) as [s2 r2]. simpl in *. subst r2.
  destruct U2 as (_ & _ & _ & _ & U2q & U2r).
  rewrite U2q, Hq1.
  destruct (collect_qualities_ok record (Py.len (sequence record)) s2 quals mq)
    as (tile & Hok3 & Htile); [done|by rewrite U2q|done|done| |].
  { intros re. rewrite U2r, Hr1. apply Hre. }
  pose proof (collect_qualities_effect record (Py.len (sequence record)) s2)
    as (_ & B3 & Q3 & T3).
  destruct (collect_qualities _ _ s2) as [s3 r3]. simpl in *. subst r3.
  assert (ready (Z.to_nat (Py.len (sequence record))) tile s3) as Hready3.
  { specialize (Hready tile). unfold ready in *. rewrite B3, Q3, T3.
    apply Hready. by rewrite <- U2r. }
  destruct (add_bases_ok _ (zip (Py.chars (sequence record)) (Py.chars quals))
              tile 0%nat s3 Hready3) as (Hok4 & _ & Hb4 & Hqc4).
  { simpl. apply zip_chars_length. }
  split; [done|]. split.
  - intros i base. rewrite Hb4. unfold base_seen, seen_at. rewrite Hquals.
    rewrite decide_True by lia. replace (i - 0)%nat with i by lia.
    assert (base_count s3 i base = base_count s i base) as ->; [|done].
    transitivity (base_count s2 i base); [unfold base_count; by rewrite B3|].
    by rewrite Hb2, Hb1.
  - intros i qual. rewrite Hqc4. unfold quality_seen, seen_at. rewrite Hquals.
    rewrite decide_True by lia. replace (i - 0)%nat with i by lia.
    assert (quality_count s3 i qual = quality_count s i qual) as ->; [|done].
    transitivity (quality_count s2 i qual);
      [unfold quality_count; by rewrite Q3|].
    by rewrite Hqc2, Hqc1.
Qed.

Lemma init_well_formed q re : well_formed (ReadStatCollector_init q re).
Proof.
  unfold ReadStatCollector_init, _init_qualities, well_formed.
  destruct q as [[]|]; simpl; [|by split; [|split]..].
  destruct re; simpl; split; try done; split; try done; intros _; eauto 10.
Qed.

Lemma collect_all_well_formed records s :
  well_formed s → well_formed (collect_all s records).
Proof.
  revert s. induction records as [|record records IH]; intros s Hwf; [done|].
  unfold collect_all in *. simpl. apply IH. by apply collect_well_formed.
Qed.

(** X13. A collector made by the constructor, whatever reads it was fed
    before, takes a read with qualities without raising, when quality
    tracking is on or is started by this read, the two roundings of
    [collect] give a number, and the tile pattern, if there is one, matches
    the name. The read is then counted once at every position of the loop
    over [zip(seq, quals)], under its symbol in the base table and under its
    quality in the quality table, and nowhere else: positions past the
    shorter of sequence and qualities get nothing. *)
Theorem collect_counts_every_position q re earlier record quals gc mq :
  let s := collect_all (ReadStatCollector_init q re) earlier in
  Seqio.qualities record = Some quals →
  qualities s = Some true ∨ (qualities s = None ∧ quals ≠ ""%string) →
  gc_percent (sequence record) = inr gc →
  round_div (sum_ord quals) (len_read record) = inr mq →
  (∀ f, re = Some f → is_Some (f (name record))) →
  snd (collect record s) = inr tt
  ∧ (∀ i base, base_count (fst (collect record s)) i base
               = base_count s i base + base_seen record i base)
  ∧ (∀ i qual, quality_count (fst (collect record s)) i qual
               = quality_count s i qual + quality_seen record i qual).
Proof.
  intros s Hquals Hon Hgc Hmq Hre.
  apply (collect_ok s record quals gc mq); try done.
  - apply collect_all_well_formed, init_well_formed.
  - intros f. subst s.
    rewrite (proj2 (quality_tracking_flags _ earlier)).
    assert (tile_key_regexp (ReadStatCollector_init q re) = re) as ->;
      [|apply Hre].
    unfold ReadStatCollector_init, _init_qualities.
    destruct (Py.truthy q); simpl; [|done]. by destruct re.
Qed.

Lemma collect_counts_every_position_witness :
  snd (collect read_acgtn (collect_all (ReadStatCollector_init None None)
                             [read_gg])) = inr tt.
Proof.
  refine (proj1 (collect_counts_every_position None None [read_gg] read_acgtn
                   "IIIII" 40 73 _ _ _ _ _)).
  - reflexivity.
  - right. split; [reflexivity|discriminate].
  - reflexivity.
  - reflexivity.
  - discriminate.
Defined.

(** *** What [collect] can raise *)

Lemma round_div_zero a b :
  round_div a b = inl Py.ZeroDivisionError → b = 0.
Proof.
  unfold round_div, Py.truediv, Py.round.
  destruct (b =? 0) eqn:E; [intros _; by apply Z.eqb_eq|].
  destruct (Prim2SF _); discriminate.
Qed.

Lemma len_zero seq : Py.len seq = 0 → seq = ""%string.
Proof. destruct seq; [done|]. unfold Py.len. simpl. lia. Qed.

Lemma extend_bases_off n s :
  Py.truthy (qualities s) = false → snd (_extend_bases n s) = inr tt.
Proof.
  intros Hq. unfold _extend_bases, mbind, M_bind, mret, M_ret, modify, get.
  simpl. by rewrite Hq.
Qed.

Lemma collect_qualities_cases record seqlen s :
  well_formed s →
  Py.truthy (qualities s) = true →
  match snd (collect_qualities record seqlen s) with
  | inl e =>
      (e = Py.TypeError ∧ Seqio.qualities record = None)
      ∨ (∃ quals, Seqio.qualities record = Some quals
                  ∧ round_div (sum_ord quals) seqlen = inl e)
      ∨ (e = tile_mismatch
         ∧ ∃ f, tile_key_regexp s = Some f ∧ f (name record) = None)
  | inr (quals, tile) =>
      match tile with
      | Some (String _ _) => is_Some (tile_key_regexp s)
      | _ => True
      end
  end.
Proof.
  intros (Hm & Hon & _) Hq. destruct (Hon Hq) as ([sq Hsq] & _ & Ht).
  unfold collect_qualities, mbind, M_bind, mret, M_ret, modify, get, raise, lift.
  unfold track_tiles. simpl.
  destruct (Seqio.qualities record) as [quals|]; simpl; [|by left].
  destruct (round_div _ _) as [e|mq] eqn:Hr; simpl; [right; left; eauto|].
  rewrite Hsq. simpl. rewrite Hq. simpl.
  destruct (tile_key_regexp s) as [f|] eqn:Er; simpl; [|done].
  destruct (f (name record)) as [tile|] eqn:Ef; simpl.
  - destruct Ht as (_ & [tsq Htsq]); [done|]. rewrite Htsq. simpl.
    by destruct tile.
  - right. right. eauto.
Qed.

Lemma collect_exceptions s record e :
  well_formed s →
  snd (collect record s) = inl e →
  (e = Py.ZeroDivisionError ∧ sequence record = ""%string)
  ∨ (e = Py.UnboundLocalError "quals"
     ∧ Py.truthy (qualities (activate record s)) = false)
  ∨ (e = Py.TypeError ∧ Seqio.qualities record = None)
  ∨ (e = tile_mismatch
     ∧ ∃ f, tile_key_regexp s = Some f ∧ f (name record) = None)
  ∨ e = Py.OverflowError
  ∨ e = Py.ValueError "cannot convert float NaN to integer".
Proof.
  intros Hwf. rewrite collect_unfold. cbv zeta.
  destruct (activate_well_formed record s Hwf) as (Hwf0 & _).
  destruct (activate_effect record s) as (Am & _ & _ & _ & _ & Ar).
  destruct (gc_percent _) as [e0|gc] eqn:Hgc.
  { simpl. intros [= ->]. unfold gc_percent in Hgc.
    destruct (round_div_exn _ _ _ Hgc) as [-> | [-> | ->]]; [left|auto 10..].
    split; [done|]. by apply round_div_zero, len_zero in Hgc. }
  assert (Py.len (sequence record) ≠ 0) as Hlen.
  { apply (counted_nonempty record). unfold counted. by rewrite Hgc. }
  remember (record_read (Py.len (sequence record)) gc (activate record s))
    as s1 eqn:Hs1.
  assert (well_formed s1 ∧ qualities s1 = qualities (activate record s)
          ∧ max_read_len s1 = 0
          ∧ tile_key_regexp s1 = tile_key_regexp s)
    as (Hwf1 & Hq1 & Hm1 & Hr1).
  { subst s1. split; [done|]. split; [done|].
    split; [simpl; rewrite Am; by destruct Hwf|done]. }
  rewrite Hm1.
  assert ((0 <? Py.len (sequence record)) = true) as ->.
  { apply Z.ltb_lt. unfold Py.len in *. lia. }
  pose proof (extend_bases_effect (Py.len (sequence record)) s1)
    as (U2 & _).
  pose proof (extend_bases_tables (Py.len (sequence record)) s1) as T2.
  assert (well_formed (fst (_extend_bases (Py.len (sequence record)) s1)))
    as Hwf2 by (by eapply well_formed_step).
  destruct U2 as (_ & _ & _ & _ & U2q & U2r).
  destruct (Py.truthy (qualities (activate record s))) eqn:Hq.
  - destruct (extend_bases_ok (Py.len (sequence record)) s1 Hwf1)
      as (Hok2 & Hready & _); [by rewrite Hq1|].
    destruct (_extend_bases _ s1) as [s2 r2]. simpl in *. subst r2.
    rewrite U2q, Hq1, Hq.
    pose proof (collect_qualities_cases record (Py.len (sequence record)) s2
                  Hwf2) as Hcases.
    rewrite U2q, Hq1, Hq in Hcases. specialize (Hcases eq_refl).
    pose proof (collect_qualities_effect record (Py.len (sequence record)) s2)
      as (_ & B3 & Q3 & T3).
    destruct (collect_qualities _ _ s2) as [s3 [e3|[quals tile]]]; simpl in *.
    + intros [= ->]. destruct Hcases as [?|[(quals & Hquals & Hr)|(-> & f & Hf & Hn)]].
      * auto.
      * destruct (round_div_exn _ _ _ Hr) as [-> | [-> | ->]]; [|auto 10..].
        by apply round_div_zero in Hr.
      * do 3 right. left. split; [done|]. exists f. by rewrite <- Hr1, <- U2r.
    + assert (ready (Z.to_nat (Py.len (sequence record))) tile s3) as Hready3.
      { specialize (Hready tile). unfold ready in *. rewrite B3, Q3, T3.
        apply Hready. by rewrite <- U2r. }
      destruct (add_bases_ok _ (zip (Py.chars (sequence record)) (Py.chars quals))
                  tile 0%nat s3 Hready3) as (Hok4 & _).
      { simpl. apply zip_chars_length. }
      rewrite Hok4. discriminate.
  - pose proof (extend_bases_off (Py.len (sequence record)) s1) as Hoff.
    rewrite Hq1 in Hoff. specialize (Hoff Hq).
    destruct (_extend_bases _ s1) as [s2 r2]. simpl in *. subst r2.
    rewrite U2q, Hq1, Hq. intros [= <-]. auto.
Qed.

(** X14. A collector made by the constructor, whatever reads it was fed
    before, raises from [collect] only for these reasons: the sequence is
    empty ([ZeroDivisionError]); quality tracking is off and this read does
    not start it ([UnboundLocalError]); quality tracking is on and the read
    has no qualities ([TypeError]); the tile pattern does not match the
    name; or a rounding does not give a number. It never raises
    [IndexError], [AttributeError] or [RecursionError]: the tables that the
    loop indexes are there and long enough. *)
Theorem collect_raises_only q re earlier record e :
  let s := collect_all (ReadStatCollector_init q re) earlier in
  snd (collect record s) = inl e →
  (e = Py.ZeroDivisionError ∧ sequence record = ""%string)
  ∨ (e = Py.UnboundLocalError "quals"
     ∧ (qualities s = Some false
        ∨ (qualities s = None
           ∧ Py.truthy_str (Seqio.qualities record) = false)))
  ∨ (e = Py.TypeError ∧ Seqio.qualities record = None)
  ∨ (e = tile_mismatch ∧ ∃ f, re = Some f ∧ f (name record) = None)
  ∨ e = Py.OverflowError
  ∨ e = Py.ValueError "cannot convert float NaN to integer".
Proof.
  intros s He.
  assert (well_formed s) as Hwf
    by apply collect_all_well_formed, init_well_formed.
  assert (tile_key_regexp s = re) as Hre.
  { subst s. rewrite (proj2 (quality_tracking_flags _ earlier)).
    unfold ReadStatCollector_init, _init_qualities.
    destruct (Py.truthy q); simpl; [|done]. by destruct re. }
  destruct (collect_exceptions s record e Hwf He)
    as [?|[[-> Hq]|[?|[[-> Hf]|?]]]]; auto 10.
  - right. left. split; [done|]. rewrite activate_flag in Hq.
    destruct (qualities s) as [[]|]; simpl in *; auto; try discriminate.
    destruct (Py.truthy_str _); [discriminate|auto].
  - do 3 right. left. split; [done|]. by rewrite <- Hre.
Qed.

Lemma collect_raises_only_witness :
  (Py.UnboundLocalError "quals" = Py.ZeroDivisionError
   ∧ sequence read_gg = ""%string)
  ∨ (Py.UnboundLocalError "quals" = Py.UnboundLocalError "quals"
     ∧ (qualities (collect_all (ReadStatCollector_init None None) [])
        = Some false
        ∨ (qualities (collect_all (ReadStatCollector_init None None) []) = None
           ∧ Py.truthy_str (Seqio.qualities read_gg) = false)))
  ∨ (Py.UnboundLocalError "quals" = Py.TypeError
     ∧ Seqio.qualities read_gg = None)
  ∨ (Py.UnboundLocalError "quals" = tile_mismatch
     ∧ ∃ f : Regexp, None = Some f ∧ f (name read_gg) = None)
  ∨ Py.UnboundLocalError "quals" = Py.OverflowError
  ∨ Py.UnboundLocalError "quals"
    = Py.ValueError "cannot convert float NaN to integer".
Proof.
  refine (collect_raises_only None None [] read_gg
            (Py.UnboundLocalError "quals") _).
  reflexivity.
Defined.

(** *** [finish] of a collector *)

Lemma finish_ok (qual2int : ascii → Z) (NestedTable : Type)
    (NestedDict_flatten : gmap string (gmap Z Z) → string → NestedTable) s :
  well_formed s →
  ∃ r, ReadStatCollector_finish qual2int NestedTable NestedDict_flatten s = inr r
    ∧ r_count r = count s
    ∧ (is_Some (r_base_qualities r) ↔ Py.truthy (qualities s) = true)
    ∧ (is_Some (r_tile_base_qualities r) ↔ track_tiles s = true)
    ∧ (is_Some (r_tile_sequence_qualities r) ↔ track_tiles s = true).
Proof.
  intros (_ & Hon & Hoff). unfold ReadStatCollector_finish.
  assert (is_Some (base_qualities s) ↔ Py.truthy (qualities s) = true) as Hbq.
  { destruct (Py.truthy (qualities s)).
    - split; [done|]. intros _. by apply Hon.
    - rewrite Hoff by done. split; [by intros [? ?]|done]. }
  destruct (track_tiles s) eqn:Htt.
  - unfold track_tiles in Htt. apply andb_true_iff in Htt as [Hq Hre].
    destruct (Hon Hq) as (_ & _ & Ht).
    destruct Ht as [[tbq ->] [tsq ->]]; [by destruct (tile_key_regexp s)|].
    eexists. split; [done|]. simpl. rewrite fmap_is_Some.
    repeat split; eauto; try apply Hbq; try by intros _.
  - eexists. split; [done|]. simpl. rewrite fmap_is_Some.
    repeat split; try apply Hbq; try done; try by intros [? ?].
Qed.

(** X15. [ReadStatCollector.finish] returns normally on a collector made by
    the constructor and fed any reads: the tables that it flattens are
    there. The result carries the number of counted reads; it has the key
    [base_qualities] exactly when quality tracking is on (asked for at
    construction, or started by a read with qualities when it was left
    open), also when no read was counted; and it has the two tile keys
    exactly when, in addition, a tile pattern was given. *)
Theorem collector_finish_returns (qual2int : ascii → Z) (NestedTable : Type)
    (NestedDict_flatten : gmap string (gmap Z Z) → string → NestedTable)
    q re records :
  let s := collect_all (ReadStatCollector_init q re) records in
  let tracking :=
    Py.truthy q = true ∨ (q = None ∧ any_qualities records = true) in
  ∃ r, ReadStatCollector_finish qual2int NestedTable NestedDict_flatten s = inr r
    ∧ r_count r = Z.of_nat (length (base.filter counted records))
    ∧ (is_Some (r_base_qualities r) ↔ tracking)
    ∧ (is_Some (r_tile_base_qualities r) ↔ tracking ∧ is_Some re)
    ∧ (is_Some (r_tile_sequence_qualities r) ↔ tracking ∧ is_Some re).
Proof.
  intros s tracking.
  assert (well_formed s) as Hwf
    by apply collect_all_well_formed, init_well_formed.
  assert (qualities (ReadStatCollector_init q re) = q
          ∧ tile_key_regexp (ReadStatCollector_init q re) = re) as [Hq0 Hre0].
  { unfold ReadStatCollector_init, _init_qualities.
    destruct (Py.truthy q); simpl; [|done]. by destruct re. }
  destruct (quality_tracking_flags (ReadStatCollector_init q re) records)
    as [Hq Hre]. fold s in Hq, Hre. rewrite Hq0 in Hq. rewrite Hre0 in Hre.
  assert (Py.truthy (qualities s) = true ↔ tracking) as Htr.
  { rewrite Hq. unfold tracking.
    destruct q as [[]|], (any_qualities records); simpl; split;
      intros; try done; auto; intuition discriminate. }
  assert (track_tiles s = true ↔ tracking ∧ is_Some re) as Htt.
  { unfold track_tiles. rewrite andb_true_iff, Htr, Hre.
    destruct re; split; intros [? ?]; split; try done; eauto. }
  destruct (finish_ok qual2int NestedTable NestedDict_flatten s Hwf)
    as (r & Hr & Hc & Hbq & Htbq & Htsq).
  exists r. split; [done|]. rewrite Hc, Hbq, Htbq, Htsq, Htr, Htt.
  repeat split; try tauto.
  unfold s. rewrite (proj1 (collect_all_counters _ _)).
    unfold ReadStatCollector_init. destruct (Py.truthy q); simpl; [|lia].
    unfold _init_qualities. simpl. destruct re; simpl; lia.
Qed.

(** *** The manager of the collectors *)

Lemma make_collectors_ok p args : collectors_ok p (_make_collectors p args).
Proof.
  unfold collectors_ok, _make_collectors, per_record. split.
  - by rewrite length_replicate.
  - apply Forall_replicate, init_well_formed.
Qed.

Lemma collect_at_ok p cs record i :
  collectors_ok p cs → collectors_ok p (fst (collect_at cs record i)).
Proof.
  intros [Hlen Hwf]. unfold collect_at.
  destruct (cs !! i) as [c|] eqn:Hc; [|done].
  destruct (record !! i) as [r|]; [|done].
  pose proof (collect_well_formed r c) as Hstep.
  destruct (collect r c) as [c' res]. simpl in *. split.
  - by rewrite length_insert.
  - apply Forall_insert; [done|]. apply Hstep.
    by eapply Forall_lookup_1 in Hwf.
Qed.

Lemma dict_get_None {V} (d : list (string * V)) k :
  dict_get d k = None ↔ k ∉ d.*1.
Proof.
  induction d as [|[k' v] d IH]; simpl.
  - split; [intros _; apply not_elem_of_nil|done].
  - rewrite not_elem_of_cons. destruct (decide (k' = k)) as [->|Hne].
    + split; [done|]. by intros [? _].
    + rewrite IH. split; [by intros ?; split|by intros [_ ?]].
Qed.

Lemma dict_set_keys {V} (d : list (string * V)) k v :
  (dict_set d k v).*1
  = if decide (k ∈ d.*1) then d.*1 else d.*1 ++ [k].
Proof.
  induction d as [|[k' v'] d IH].
  - simpl. destruct (decide (k ∈ [])) as [Hin|]; [|done].
    by apply elem_of_nil in Hin.
  - change (((k', v') :: d).*1) with (k' :: d.*1). simpl.
    destruct (decide (k' = k)) as [->|Hne].
    + destruct (decide (k ∈ k :: d.*1)) as [|Hnin]; [done|].
      exfalso. apply Hnin, elem_of_cons; by left.
    + change (((k', v') :: dict_set d k v).*1)
        with (k' :: (dict_set d k v).*1). rewrite IH.
      destruct (decide (k ∈ d.*1)) as [Hin|Hnin],
               (decide (k ∈ k' :: d.*1)) as [Hin'|Hnin']; try done.
      * exfalso. apply Hnin', elem_of_cons; by right.
      * apply elem_of_cons in Hin' as [->|?]; done.
Qed.

Lemma dict_get_set {V} (d : list (string * V)) k v k' :
  dict_get (dict_set d k v) k'
  = if decide (k = k') then Some v else dict_get d k'.
Proof.
  induction d as [|[k0 v0] d IH]; simpl.
  - by destruct (decide (k = k')).
  - destruct (decide (k0 = k)) as [->|Hne]; simpl.
    + by destruct (decide (k = k')).
    + destruct (decide (k0 = k')) as [->|Hne'].
      * by rewrite decide_False by congruence.
      * apply IH.
Qed.

Lemma dict_set_Forall {V} (P : string * V → Prop) d k v :
  Forall P d → P (k, v) → Forall P (dict_set d k v).
Proof.
  intros Hd Hkv. induction Hd as [|[k0 v0] d H0 Hd IH]; simpl.
  - by constructor.
  - destruct (decide (k0 = k)); by constructor.
Qed.

Lemma dict_get_Forall {V} (P : string * V → Prop) d k v :
  Forall P d → dict_get d k = Some v → P (k, v).
Proof.
  intros Hd. induction Hd as [|[k0 v0] d H0 Hd IH]; simpl; [done|].
  destruct (decide (k0 = k)) as [->|Hne]; [by intros [= <-]|done].
Qed.

Lemma dict_set_NoDup {V} (d : list (string * V)) k v :
  NoDup d.*1 → NoDup (dict_set d k v).*1.
Proof.
  intros Hnd. rewrite dict_set_keys.
  destruct (decide (k ∈ d.*1)); [done|].
  apply NoDup_app. split; [done|]. split.
  - intros x Hx ->%list_elem_of_singleton. done.
  - apply NoDup_singleton.
Qed.

Lemma dict_set_twice {V} (d : list (string * V)) k v v' :
  dict_set (dict_set d k v) k v' = dict_set d k v'.
Proof.
  induction d as [|[k0 v0] d IH]; simpl.
  - by rewrite decide_True.
  - destruct (decide (k0 = k)) as [->|Hne]; simpl.
    + by rewrite decide_True.
    + rewrite decide_False by done. by rewrite IH.
Qed.

Lemma dict_set_same {V} (d : list (string * V)) k v :
  dict_get d k = Some v → dict_set d k v = d.
Proof.
  induction d as [|[k0 v0] d IH]; simpl; [done|].
  destruct (decide (k0 = k)) as [->|Hne]; [by intros [= ->]|].
  intros Hd. by rewrite IH.
Qed.

Lemma post_trim_effect self dest record d :
  post self = Some d →
  fst (post_trim self dest record)
  = set_post (Some (dict_set d dest (post_collectors self dest record))) self.
Proof.
  intros Hd. unfold post_trim, post_collectors. rewrite Hd. simpl.
  destruct (dict_get d dest) as [cs|] eqn:Hget; simpl.
  - rewrite Hget. simpl.
    destruct (collect_at cs record 0) as [cs1 [e|[]]]; simpl; [done|].
    destruct (paired self); [|done].
    by destruct (collect_at cs1 record 1).
  - rewrite dict_get_set, decide_True by done. simpl.
    destruct (collect_at _ record 0) as [cs1 [e|[]]]; simpl.
    + by rewrite dict_set_twice.
    + destruct (paired self); [|by rewrite dict_set_twice].
      destruct (collect_at cs1 record 1). simpl. by rewrite dict_set_twice.
Qed.

Lemma post_trim_off self dest record :
  post self = None → post_trim self dest record = (self, inr tt).
Proof. intros Hd. unfold post_trim. by rewrite Hd. Qed.

Lemma post_collectors_ok self dest record :
  manager_ok self → collectors_ok (paired self) (post_collectors self dest record).
Proof.
  intros [_ Hpost]. unfold post_collectors.
  set (start := default _ _).
  assert (collectors_ok (paired self) start) as Hstart.
  { unfold start. destruct (post self) as [d|]; simpl;
      [|apply make_collectors_ok].
    destruct (dict_get d dest) as [cs|] eqn:Hget; simpl;
      [|apply make_collectors_ok].
    destruct Hpost as (_ & Hall & _).
    apply (dict_get_Forall _ _ _ _ Hall Hget). }
  pose proof (collect_at_ok _ _ record 0 Hstart) as H1.
  destruct (snd (collect_at start record 0)); [done|].
  destruct (paired self) eqn:Hp; [|done].
  rewrite <- Hp in *. by apply collect_at_ok.
Qed.

Lemma post_trim_ok self dest record :
  manager_ok self → manager_ok (fst (post_trim self dest record)).
Proof.
  intros Hok. destruct (post self) as [d|] eqn:Hd.
  - rewrite (post_trim_effect _ _ _ _ Hd).
    pose proof (post_collectors_ok self dest record Hok) as Hcs.
    destruct Hok as [Hpre Hpost]. rewrite Hd in Hpost.
    destruct Hpost as (Hnd & Hall & Hmode).
    split; [exact Hpre|]. simpl. split; [by apply dict_set_NoDup|].
    split; [|done]. by apply dict_set_Forall.
  - by rewrite post_trim_off.
Qed.

Lemma pre_trim_ok self record :
  manager_ok self → manager_ok (fst (pre_trim self record)).
Proof.
  intros Hok. pose proof Hok as [Hpre Hpost]. revert record.
  unfold pre_trim.
  destruct self as [md p pr po args]. simpl in *.
  destruct p; simpl; intros record.
  - destruct pr as [cs|]; [|done]. destruct Hpre as [Hcs Hmode].
    pose proof (collect_at_ok true cs record 0 Hcs) as H1.
    destruct (collect_at cs record 0) as [cs1 [e|[]]]; simpl in *.
    + by split.
    + pose proof (collect_at_ok true cs1 record 1 H1) as H2.
      destruct (collect_at cs1 record 1) as [cs2 res]. by split.
  - destruct pr as [cs|]; [|done]. destruct Hpre as [Hcs Hmode].
    destruct (cs !! 0%nat) as [c|] eqn:Hc; [|done].
    pose proof (collect_well_formed record c) as Hstep.
    destruct (collect record c) as [c' res]. simpl in *.
    split; [|done]. split; [|done]. destruct Hcs as [Hlen Hwf]. split.
    + by rewrite length_insert.
    + apply Forall_insert; [done|]. apply Hstep.
      by eapply Forall_lookup_1 in Hwf.
Qed.

Lemma init_manager_ok md p args : manager_ok (ReadStatistics_init md p args).
Proof.
  unfold manager_ok, ReadStatistics_init. simpl. split.
  - case_bool_decide; [|done]. split; [apply make_collectors_ok|done].
  - case_bool_decide; [|done]. split; [apply NoDup_nil_2|]. by split.
Qed.

Lemma reachable_ok m : reachable m → manager_ok m.
Proof.
  induction 1; auto using init_manager_ok, pre_trim_ok, post_trim_ok.
Qed.

Lemma post_trim_result self dest record d :
  post self = Some d →
  snd (post_trim self dest record)
  = let start :=
      default (_make_collectors (paired self) (collector_args self))
              (dict_get d dest) in
    let first := collect_at start record 0 in
    match snd first with
    | inl e => inl e
    | inr _ => if paired self then snd (collect_at (fst first) record 1)
               else inr tt
    end.
Proof.
  intros Hd. unfold post_trim. rewrite Hd. simpl.
  destruct (dict_get d dest) as [cs|] eqn:Hget; simpl.
  - rewrite Hget. simpl.
    destruct (collect_at cs record 0) as [cs1 [e|[]]]; simpl; [done|].
    destruct (paired self); [|done].
    by destruct (collect_at cs1 record 1).
  - rewrite dict_get_set, decide_True by done. simpl.
    destruct (collect_at _ record 0) as [cs1 [e|[]]]; simpl; [done|].
    destruct (paired self); [|done].
    by destruct (collect_at cs1 record 1).
Qed.

Lemma post_trim_frame self dest record :
  let self' := fst (post_trim self dest record) in
  mode self' = mode self ∧ paired self' = paired self
  ∧ pre self' = pre self ∧ collector_args self' = collector_args self.
Proof.
  simpl. destruct (post self) as [d|] eqn:Hd.
  - by rewrite (post_trim_effect _ _ _ _ Hd).
  - by rewrite post_trim_off.
Qed.

Lemma collectors_of_set self d dest cs k :
  collectors_of (set_post (Some (dict_set d dest cs)) self) k
  = if decide (dest = k) then cs else default [] (dict_get d k).
Proof.
  unfold collectors_of. simpl. rewrite dict_get_set.
  by destruct (decide (dest = k)).
Qed.

(** X16. [post_trim] on a manager without post phase does nothing. With a
    post phase it registers the destination, also when [collect] raises: a
    new destination goes to the end of the dictionary, a known one keeps
    its place; the collectors of every other destination, the pre phase and
    the settings are left as they were. *)
Theorem post_trim_registers_destination self dest record :
  let self' := fst (post_trim self dest record) in
  (post self = None → post_trim self dest record = (self, inr tt))
  ∧ (is_Some (post self) →
     destinations self'
     = (if decide (dest ∈ destinations self) then destinations self
        else destinations self ++ [dest])
     ∧ ∀ other, other ≠ dest →
                collectors_of self' other = collectors_of self other)
  ∧ mode self' = mode self ∧ paired self' = paired self
  ∧ pre self' = pre self ∧ collector_args self' = collector_args self.
Proof.
  intros self'. split; [apply post_trim_off|].
  split; [|apply post_trim_frame].
  intros [d Hd]. unfold self'. rewrite (post_trim_effect _ _ _ _ Hd).
  split.
  - unfold destinations. simpl. rewrite Hd. simpl. apply dict_set_keys.
  - intros other Hne. rewrite collectors_of_set, decide_False by done.
    unfold collectors_of. by rewrite Hd.
Qed.

Lemma post_trim_registers_destination_witness :
  destinations (fst (post_trim post_manager "out" [read_gg])) = ["out"%string].
Proof.
  refine (proj1 (proj1 (proj2
    (post_trim_registers_destination post_manager "out" [read_gg])) _)).
  vm_compute. eauto.
Defined.

Lemma collect_not_IndexError record s :
  well_formed s → snd (collect record s) ≠ inl Py.IndexError.
Proof.
  intros Hwf He.
  destruct (collect_exceptions s record _ Hwf He)
    as [[? _]|[[? _]|[[? _]|[[? _]|[?|?]]]]]; discriminate.
Qed.

Lemma collect_at_IndexError p cs record i :
  collectors_ok p cs → (i < per_record p)%nat →
  snd (collect_at cs record i) = inl Py.IndexError →
  (length record ≤ i)%nat.
Proof.
  intros [Hlen Hwf] Hi. unfold collect_at.
  destruct (cs !! i) as [c|] eqn:Hc.
  - destruct (record !! i) as [r|] eqn:Hr.
    + pose proof (collect_not_IndexError r c) as Hno.
      destruct (collect r c) as [c' res]. simpl in *. intros ->.
      exfalso. apply Hno; [|done]. by eapply Forall_lookup_1 in Hwf.
    + intros _. by apply lookup_ge_None.
  - apply lookup_ge_None in Hc. lia.
Qed.

(** X17. What every manager that a run can reach satisfies: each phase is
    there exactly in its modes; the pre phase and every destination hold one
    collector for single-end and two for paired-end data; no destination is
    listed twice. So an [IndexError] from [post_trim] or [pre_trim] can only
    come from a record with fewer reads than that, never from the
    collectors. *)
Theorem reachable_manager_shape m :
  reachable m →
  (is_Some (pre m) ↔ mode m = "pre"%string ∨ mode m = "both"%string)
  ∧ (is_Some (post m) ↔ mode m = "post"%string ∨ mode m = "both"%string)
  ∧ (∀ collectors, pre m = Some collectors →
                   length collectors = per_record (paired m))
  ∧ NoDup (destinations m)
  ∧ (∀ dest, dest ∈ destinations m →
             length (collectors_of m dest) = per_record (paired m))
  ∧ (∀ dest record, snd (post_trim m dest record) = inl Py.IndexError →
                    (length record < per_record (paired m))%nat)
  ∧ (∀ record, snd (pre_trim m record) = inl Py.IndexError →
               (arity record < per_record (paired m))%nat).
Proof.
  intros Hok%reachable_ok. pose proof Hok as [Hpre Hpost].
  split; [|split; [|split; [|split; [|split; [|split]]]]].
  - destruct (pre m); [split; [tauto|eauto]|].
    split; [by intros [? ?]|tauto].
  - destruct (post m); [split; [tauto|eauto]|].
    split; [by intros [? ?]|tauto].
  - intros cs Hcs. rewrite Hcs in Hpre. by destruct Hpre as [[? _] _].
  - unfold destinations. destruct (post m); simpl; [tauto|apply NoDup_nil_2].
  - intros dest. unfold destinations, collectors_of.
    destruct (post m) as [d|]; simpl; [|by intros ?%elem_of_nil].
    destruct Hpost as (_ & Hall & _). intros Hin.
    destruct (dict_get d dest) as [cs|] eqn:Hget.
    + by destruct (dict_get_Forall _ _ _ _ Hall Hget).
    + by apply dict_get_None in Hget.
  - intros dest record. destruct (post m) as [d|] eqn:Hd;
      [|by rewrite post_trim_off].
    rewrite (post_trim_result _ _ _ _ Hd). simpl.
    set (start := default _ _).
    assert (collectors_ok (paired m) start) as Hstart.
    { unfold start. destruct (dict_get d dest) as [cs|] eqn:Hget; simpl;
        [|apply make_collectors_ok].
      destruct Hpost as (_ & Hall & _).
      apply (dict_get_Forall _ _ _ _ Hall Hget). }
    pose proof (collect_at_IndexError _ _ record 0 Hstart) as H0.
    pose proof (collect_at_ok _ _ record 0 Hstart) as H1.
    destruct (snd (collect_at start record 0)) as [e|] eqn:E0.
    + intros [= ->]. unfold per_record in *.
      destruct (paired m); specialize (H0 ltac:(lia) eq_refl); lia.
    + destruct (paired m) eqn:Hp; [|done]. intros E1.
      apply (collect_at_IndexError true) in E1; simpl; [lia|done|lia].
  - revert Hpre. unfold pre_trim.
    destruct m as [md p pr po args]. simpl. clear Hok Hpost.
    destruct p; simpl; intros Hpre record.
    + destruct pr as [cs|]; [|done]. destruct Hpre as [Hcs _].
      pose proof (collect_at_IndexError _ _ record 0 Hcs) as H0.
      pose proof (collect_at_ok _ _ record 0 Hcs) as H1.
      destruct (collect_at cs record 0) as [cs1 [e|[]]]; simpl in *.
      * intros [= ->]. specialize (H0 ltac:(lia) eq_refl). lia.
      * pose proof (collect_at_IndexError _ _ record 1 H1) as H2.
        destruct (collect_at cs1 record 1) as [cs2 res]. simpl in *.
        intros ->. specialize (H2 ltac:(lia) eq_refl). lia.
    + destruct pr as [cs|]; [|done]. destruct Hpre as [[Hlen Hwf] _].
      destruct (cs !! 0%nat) as [c|] eqn:Hc.
      * pose proof (collect_not_IndexError record c) as Hno.
        destruct (collect record c) as [c' res]. simpl in *. intros ->.
        exfalso. apply Hno; [|done]. by eapply Forall_lookup_1 in Hwf.
      * apply lookup_ge_None in Hc. simpl in *. lia.
Qed.

Lemma reachable_manager_shape_witness :
  length (collectors_of (fst (post_trim post_manager "out" [read_gg])) "out")
  = per_record (paired (fst (post_trim post_manager "out" [read_gg]))).
Proof.
  refine (proj1 (proj2 (proj2 (proj2 (proj2
    (reachable_manager_shape (fst (post_trim post_manager "out" [read_gg]))
       _))))) "out"%string _).
  - apply reachable_post_trim, (reachable_init "post" false (None, None)).
  - vm_compute. apply elem_of_cons. by left.
Defined.

Lemma finish_collectors_ok (qual2int : ascii → Z) (NestedTable : Type)
    (NestedDict_flatten : gmap string (gmap Z Z) → string → NestedTable)
    collectors read :
  Forall well_formed collectors →
  ∃ rs, finish_collectors qual2int NestedTable NestedDict_flatten read collectors
        = inr rs
    ∧ rs.*1 = (λ i, "read" +:+ pretty i) <$> seq read (length collectors)
    ∧ r_count <$> rs.*2 = count <$> collectors.
Proof.
  intros Hwf. revert read.
  induction Hwf as [|c cs Hc Hcs IH]; intros read; simpl; [by eexists|].
  destruct (finish_ok qual2int NestedTable NestedDict_flatten c Hc)
    as (r & -> & Hcount & _).
  destruct (IH (S read)) as (rs & -> & Hnames & Hcounts).
  eexists. split; [done|]. cbn [length seq]. rewrite !fmap_cons.
  cbn [fst snd]. by rewrite Hnames, Hcounts, Hcount.
Qed.

(** X18. [ReadStatistics.finish] on a manager that a run can reach either
    raises [NameError] for the name [post], and then some destination was
    registered, or returns, and then no destination was registered: the
    post phase is an empty dictionary when the mode has one, and the pre
    phase, when the mode has one, lists its collectors as [read1] (and
    [read2] for paired-end data) with their read counts. No collector
    fails to finish. *)
Theorem manager_finish_outcome (qual2int : ascii → Z) (NestedTable : Type)
    (NestedDict_flatten : gmap string (gmap Z Z) → string → NestedTable) m :
  reachable m →
  match ReadStatistics_finish qual2int NestedTable NestedDict_flatten m with
  | inl e => e = Py.NameError "post" ∧ destinations m ≠ []
  | inr r =>
      destinations m = []
      ∧ r_post r = match post m with Some _ => Some [] | None => None end
      ∧ match r_pre r, pre m with
        | Some rs, Some collectors =>
            rs.*1 = read_names (per_record (paired m))
            ∧ r_count <$> rs.*2 = count <$> collectors
        | None, None => True
        | _, _ => False
        end
  end.
Proof.
  intros Hok%reachable_ok. destruct Hok as [Hpre Hpost].
  unfold ReadStatistics_finish, destinations.
  destruct (pre m) as [cs|].
  - destruct Hpre as [[Hlen Hwf] _].
    destruct (finish_collectors_ok qual2int NestedTable NestedDict_flatten
                cs 1 Hwf) as (rs & -> & Hnames & Hcounts).
    rewrite Hlen in Hnames.
    destruct (post m) as [[|[dest dcs] d]|]; simpl; [done| |done].
    destruct Hpost as (_ & Hall & _). apply Forall_cons_1 in Hall as [[_ Hd] _].
    destruct (finish_collectors_ok qual2int NestedTable NestedDict_flatten
                dcs 1 Hd) as (rs' & -> & _). done.
  - destruct (post m) as [[|[dest dcs] d]|]; simpl; [done| |done].
    destruct Hpost as (_ & Hall & _). apply Forall_cons_1 in Hall as [[_ Hd] _].
    destruct (finish_collectors_ok qual2int NestedTable NestedDict_flatten
                dcs 1 Hd) as (rs' & -> & _). done.
Qed.

Lemma manager_finish_outcome_witness :
  match ReadStatistics_finish phred33 unit (λ _ _, tt) post_manager with
  | inl e => e = Py.NameError "post" ∧ destinations post_manager ≠ []
  | inr r =>
      destinations post_manager = []
      ∧ r_post r = match post post_manager with
                   | Some _ => Some []
                   | None => None
                   end
      ∧ match r_pre r, pre post_manager with
        | Some rs, Some collectors =>
            rs.*1 = read_names (per_record (paired post_manager))
            ∧ r_count <$> rs.*2 = count <$> collectors
        | None, None => True
        | _, _ => False
        end
  end.
Proof.
  apply (manager_finish_outcome phred33 unit (λ _ _, tt) post_manager).
  apply (reachable_init "post" false (None, None)).
Defined.

Lemma post_trim_all_snoc self events event :
  post_trim_all self (events ++ [event])
  = fst (post_trim (post_trim_all self events) event.1 event.2).
Proof. unfold post_trim_all. by rewrite foldl_app. Qed.

Lemma post_trim_all_reachable self events :
  reachable self → reachable (post_trim_all self events).
Proof.
  intros Hr. induction events as [|event events IH] using rev_ind; [done|].
  rewrite post_trim_all_snoc. by apply reachable_post_trim.
Qed.

Lemma post_trim_keeps_post self dest record :
  is_Some (post (fst (post_trim self dest record))) ↔ is_Some (post self).
Proof.
  destruct (post self) as [d|] eqn:Hd.
  - rewrite (post_trim_effect _ _ _ _ Hd). simpl. split; eauto.
  - rewrite post_trim_off by done. simpl. by rewrite Hd.
Qed.

Lemma post_trim_all_frame self events :
  let self' := post_trim_all self events in
  mode self' = mode self ∧ paired self' = paired self
  ∧ pre self' = pre self ∧ collector_args self' = collector_args self
  ∧ (is_Some (post self') ↔ is_Some (post self)).
Proof.
  simpl. induction events as [|event events IH] using rev_ind; [done|].
  rewrite post_trim_all_snoc.
  destruct (post_trim_frame (post_trim_all self events) event.1 event.2)
    as (-> & -> & -> & ->).
  rewrite post_trim_keeps_post. exact IH.
Qed.

Lemma first_occurrences_snoc l x :
  first_occurrences (l ++ [x])
  = if decide (x ∈ first_occurrences l) then first_occurrences l
    else first_occurrences l ++ [x].
Proof.
  unfold first_occurrences. rewrite reverse_snoc. simpl.
  destruct (decide_rel elem_of x (reverse l)) as [Hin|Hnin].
  - rewrite decide_True; [done|].
    by rewrite elem_of_reverse, elem_of_remove_dups.
  - rewrite decide_False, reverse_cons; [done|].
    by rewrite elem_of_reverse, elem_of_remove_dups.
Qed.

Lemma elem_of_first_occurrences l x : x ∈ first_occurrences l ↔ x ∈ l.
Proof.
  unfold first_occurrences.
  by rewrite elem_of_reverse, elem_of_remove_dups, elem_of_reverse.
Qed.

Lemma first_mates_snoc dest events event :
  first_mates dest (events ++ [event])
  = first_mates dest events
    ++ (if decide (event.1 = dest) then option_list (event.2 !! 0%nat) else []).
Proof.
  unfold first_mates. rewrite omap_app. f_equal. simpl.
  destruct (decide (event.1 = dest)); [|done]. by destruct (event.2 !! 0%nat).
Qed.

Lemma first_mates_none dest events :
  dest ∉ events.*1 → first_mates dest events = [].
Proof.
  induction events as [|event events IH]; [done|].
  rewrite fmap_cons, not_elem_of_cons. intros [Hne Hnin].
  unfold first_mates. simpl. rewrite decide_False by done. by apply IH.
Qed.

Lemma post_collectors_first self dest record c :
  default (_make_collectors (paired self) (collector_args self))
          (post self ≫= λ d, dict_get d dest) !! 0%nat = Some c →
  post_collectors self dest record !! 0%nat
  = Some (match record !! 0%nat with
          | Some read => fst (collect read c)
          | None => c
          end).
Proof.
  unfold post_collectors. set (start := default _ _). intros Hc.
  assert (fst (collect_at start record 0) !! 0%nat
          = Some (match record !! 0%nat with
                  | Some read => fst (collect read c)
                  | None => c
                  end)) as H0.
  { unfold collect_at. rewrite Hc. destruct (record !! 0%nat) as [r|]; [|done].
    destruct (collect r c) as [c' res]. simpl.
    apply list_lookup_insert_eq. by eapply lookup_lt_Some. }
  destruct (snd (collect_at start record 0)); [done|].
  destruct (paired self); [|done].
  unfold collect_at at 1.
  destruct (fst (collect_at start record 0) !! 1%nat) as [c1|]; [|done].
  destruct (record !! 1%nat) as [r1|]; [|done].
  destruct (collect r1 c1) as [c1' res]. simpl.
  by rewrite list_lookup_insert_ne.
Qed.

(** X19. In a mode with a post phase, after any sequence of [post_trim]
    calls on a new manager the destinations are listed in the order in
    which they first occurred, and the first collector of a destination is
    the collector, made with the manager's arguments, that was fed the
    first mates of the records sent to that destination, in order; a
    destination that no record was sent to has no collectors. *)
Theorem destination_collector_is_fed_first_mates md p q re events :
  md = "post"%string ∨ md = "both"%string →
  let m := post_trim_all (ReadStatistics_init md p (q, re)) events in
  destinations m = first_occurrences events.*1
  ∧ ∀ dest,
      (dest ∈ events.*1 →
       collectors_of m dest !! 0%nat
       = Some (collect_all (ReadStatCollector_init q re)
                 (first_mates dest events)))
      ∧ (dest ∉ events.*1 → collectors_of m dest = []).
Proof.
  intros Hmd. simpl.
  induction events as [|event events IH] using rev_ind.
  - unfold post_trim_all, destinations, collectors_of, ReadStatistics_init.
    simpl. rewrite bool_decide_true by done. simpl. split; [done|].
    intros dest. split; [by intros ?%elem_of_nil|done].
  - rewrite post_trim_all_snoc.
    set (m' := post_trim_all (ReadStatistics_init md p (q, re)) events) in *.
    destruct IH as [IHd IHc].
    destruct (post_trim_all_frame (ReadStatistics_init md p (q, re)) events)
      as (_ & Hp & _ & Hargs & Hpost). fold m' in Hp, Hargs, Hpost.
    simpl in Hp, Hargs.
    destruct (proj2 Hpost) as [d Hd].
    { unfold ReadStatistics_init. simpl. rewrite bool_decide_true by done.
      eauto. }
    rewrite (post_trim_effect _ _ _ _ Hd).
    assert (destinations m' = d.*1) as Hdest
      by (unfold destinations; by rewrite Hd).
    rewrite fmap_app. simpl. split.
    + unfold destinations. simpl. rewrite dict_set_keys.
      rewrite first_occurrences_snoc, <- IHd, Hdest. done.
    + intros dest. rewrite collectors_of_set, first_mates_snoc.
      destruct (IHc dest) as [IHin IHout].
      destruct (decide (event.1 = dest)) as [Heq|Hne].
      * split; [intros _|intros Hnin; exfalso; apply Hnin;
                           apply elem_of_app; right;
                           apply list_elem_of_singleton; done].
        rewrite Heq.
        assert (default (_make_collectors (paired m') (collector_args m'))
                        (post m' ≫= λ d, dict_get d dest) !! 0%nat
                = Some (collect_all (ReadStatCollector_init q re)
                          (first_mates dest events))) as Hstart.
        { destruct (decide (dest ∈ events.*1)) as [Hin|Hnin].
          - rewrite <- (IHin Hin). unfold collectors_of.
            rewrite Hd. simpl.
            destruct (dict_get d dest) eqn:Hget; [done|].
            apply dict_get_None in Hget. exfalso. apply Hget.
            rewrite <- Hdest, IHd. by apply elem_of_first_occurrences.
          - rewrite Hd. simpl.
            assert (dict_get d dest = None) as ->.
            { apply dict_get_None.
              rewrite <- Hdest, IHd, elem_of_first_occurrences. done. }
            simpl. rewrite Hp, Hargs, first_mates_none by done.
            unfold _make_collectors. by destruct p. }
        rewrite (post_collectors_first _ _ _ _ Hstart). f_equal.
        unfold collect_all. rewrite foldl_app.
        by destruct (event.2 !! 0%nat).
      * rewrite app_nil_r. rewrite !elem_of_app, !list_elem_of_singleton.
        assert (collectors_of m' dest = default [] (dict_get d dest)) as <-
          by (unfold collectors_of; by rewrite Hd).
        split.
        -- intros [Hin|Heq]; [by apply IHin|congruence].
        -- intros Hnin. apply IHout. tauto.
Qed.

Lemma destination_collector_is_fed_first_mates_witness :
  destinations
    (post_trim_all (ReadStatistics_init "post" false (None, None))
       [("out"%string, [read_gg]); ("short"%string, [read_aa]);
        ("out"%string, [read_aa])])
  = first_occurrences
      [("out"%string, [read_gg]); ("short"%string, [read_aa]);
       ("out"%string, [read_aa])].*1.
Proof.
  refine (proj1 (destination_collector_is_fed_first_mates
                   "post" false None None _ _)).
  by left.
Defined.

(** *** The rows of [flatten] *)

Lemma total_delete `{Countable K} (k : K) (d : gmap K Z) :
  total d = cd_get d k + total (delete k d).
Proof.
  unfold total, cd_get.
  assert (∀ (m : gmap K Z) (j1 j2 : K) (z1 z2 y : Z),
            j1 ≠ j2 → m !! j1 = Some z1 → m !! j2 = Some z2 →
            z1 + (z2 + y) = z2 + (z1 + y)) as Hcomm by (intros; lia).
  destruct (d !! k) as [v|] eqn:E; simpl.
  - rewrite <- (insert_delete_id d k v E) at 1.
    rewrite map_fold_insert_L; [done|by eauto|by rewrite lookup_delete_eq].
  - by rewrite delete_id.
Qed.

Lemma row_sum_total `{Countable K} (columns : list K) (d : gmap K Z) :
  NoDup columns → (∀ k, is_Some (d !! k) → k ∈ columns) →
  row_sum (cd_get d <$> columns) = total d.
Proof.
  intros Hnd. revert d.
  induction Hnd as [|k columns Hk Hnd IH]; intros d Hdom.
  - assert (d = ∅) as ->; [|done].
    apply map_eq. intros k. rewrite lookup_empty.
    destruct (d !! k) eqn:E; [|done].
    by destruct (not_elem_of_nil k); apply Hdom.
  - rewrite fmap_cons. simpl. rewrite (total_delete k d). f_equal.
    rewrite <- (IH (delete k d)).
    + f_equal. apply list_fmap_ext. intros i j Hj. unfold cd_get.
      rewrite lookup_delete_ne; [done|]. intros ->.
      apply Hk. by eapply list_elem_of_lookup_2.
    + intros j [v Hj]. apply lookup_delete_Some in Hj as [Hne Hj].
      assert (j ∈ k :: columns) as Hin by eauto.
      apply elem_of_cons in Hin as [->|?]; done.
Qed.

Lemma NoDup_flatten_columns keys datatype :
  NoDup (flatten_columns keys datatype).
Proof.
  unfold flatten_columns. case_bool_decide as Hn.
  - apply NoDup_app. split; [|split].
    + unfold acgt. apply (bool_decide_unpack _). vm_compute. exact I.
    + intros k Hk. rewrite elem_of_app, elem_of_elements, elem_of_difference,
        elem_of_list_to_set, elem_of_app.
      case_bool_decide.
      * rewrite list_elem_of_singleton. intros [[_ Hno] | ->]; [tauto|].
        revert Hk. unfold acgt. rewrite !elem_of_cons, elem_of_nil.
        intuition discriminate.
      * rewrite elem_of_nil. tauto.
    + apply NoDup_app. split; [apply NoDup_elements|]. split.
      * intros k. rewrite elem_of_elements, elem_of_difference,
          elem_of_list_to_set, elem_of_app. intros [_ Hno] HN. tauto.
      * case_bool_decide; [apply NoDup_singleton|apply NoDup_nil_2].
  - unfold sorted_ascii. rewrite merge_sort_Permutation. apply NoDup_elements.
Qed.

Lemma ascii_le_total : Total ascii_le.
Proof. intros a b. unfold ascii_le. lia. Qed.

Lemma flatten_header_length qual2int columns datatype :
  length (flatten_header qual2int columns datatype) = length columns.
Proof. unfold flatten_header. case_bool_decide; by rewrite length_fmap. Qed.



Lemma lookup_bind_rows {A B} (f : A → list B) (l : list A) n j i x :
  (∀ y, length (f y) = n) → l !! j = Some x → (i < n)%nat →
  (y ← l; f y) !! (j * n + i)%nat = f x !! i.
Proof.
  intros Hlen. revert j. induction l as [|y l IH]; intros j Hj Hi; [done|].
  rewrite bind_cons. destruct j as [|j]; simpl in *.
  - injection Hj as ->. rewrite lookup_app_l; [done|]. by rewrite Hlen.
  - rewrite lookup_app_r; rewrite Hlen; [|lia].
    replace (n + j * n + i - n)%nat with (j * n + i)%nat by lia. by apply IH.
Qed.

Lemma length_bind_rows {A B} (f : A → list B) (l : list A) n :
  (∀ y, length (f y) = n) → length (y ← l; f y) = (length l * n)%nat.
Proof.
  intros Hlen. induction l as [|y l IH]; [done|].
  rewrite bind_cons, length_app, Hlen, IH. simpl. lia.
Qed.

(** X21. [BaseNestedDicts.flatten] gives, for each tile seen at some
    position, in sorted order, one row per position numbered from 1: the row
    of the tile at index [j] for position [i] is row [j * positions + i].
    Each row is as long as the header and sums to the total of the counts of
    that tile at that position, 0 where the tile has no table. *)
Theorem nested_flatten_rows (qual2int : ascii → Z)
    (dicts : list (gmap string (gmap ascii Z))) datatype :
  let table := nested_flatten qual2int dicts datatype in
  let tiles := sorted_string (elements (all_keys dicts)) in
  length (snd table) = (length tiles * length dicts)%nat
  ∧ (∀ tile, tile ∈ tiles ↔ present tile dicts)
  ∧ ∀ j tile i d, tiles !! j = Some tile → dicts !! i = Some d →
      ∃ counts,
        snd table !! (j * length dicts + i)%nat
        = Some (Z.of_nat i + 1, tile, counts)
        ∧ length counts = length (fst table)
        ∧ row_sum counts = total (nd_get d tile).
Proof.
  simpl. split; [|split].
  - apply length_bind_rows. intros tile. by rewrite length_imap.
  - intros tile. unfold sorted_string.
    rewrite merge_sort_Permutation, elem_of_elements.
    unfold all_keys, present. rewrite elem_of_union_list. split.
    + intros (X & HX & Hk). apply list_elem_of_fmap in HX as (d & -> & Hd).
      apply list_elem_of_lookup in Hd as [i Hi].
      exists i, d. split; [done|]. by apply elem_of_dom.
    + intros (i & d & Hi & Hk). exists (dom d). split.
      * apply list_elem_of_fmap. exists d. split; [done|].
        by eapply list_elem_of_lookup_2.
      * by apply elem_of_dom.
  - intros j tile i d Hj Hi. eexists. split; [|split].
    + rewrite (lookup_bind_rows _ _ (length dicts) j i tile); [| |done|].
      * rewrite list_lookup_imap, Hi. done.
      * intros y. by rewrite length_imap.
      * by eapply lookup_lt_Some.
    + by rewrite flatten_header_length, length_fmap.
    + apply row_sum_total.
      * unfold sorted_ascii. rewrite merge_sort_Permutation.
        apply NoDup_elements.
      * intros k Hk. apply elem_of_sorted_ascii, elem_of_elements.
        apply elem_of_union_list. exists (inner_keys d). split.
        -- apply list_elem_of_fmap. exists d. split; [done|].
           by eapply list_elem_of_lookup_2.
        -- unfold inner_keys. apply elem_of_union_list.
           unfold nd_get in Hk.
           destruct (d !! tile) as [inner|] eqn:Hd; simpl in Hk;
             [|by rewrite lookup_empty in Hk; destruct Hk].
           exists (dom inner). split; [|by apply elem_of_dom].
           apply list_elem_of_fmap. exists inner. split; [done|].
           apply list_elem_of_fmap. exists (tile, inner). split; [done|].
           by apply elem_of_map_to_list.
Qed.

Lemma nested_flatten_rows_witness :
  ∃ counts,
    snd (nested_flatten phred33 tiled_aa (Some "q"%string))
      !! (0 * length tiled_aa + 1)%nat
    = Some (Z.of_nat 1 + 1, "7"%string, counts)
    ∧ length counts
      = length (fst (nested_flatten phred33 tiled_aa (Some "q"%string)))
    ∧ row_sum counts
      = total (nd_get ({[ "7"%string := {[ "I"%char := 1 ]} ]}
                         : gmap string (gmap ascii Z)) "7").
Proof.
  refine (proj2 (proj2 (nested_flatten_rows phred33 tiled_aa
                          (Some "q"%string))) 0%nat "7"%string 1%nat _ _ _).
  - vm_compute. reflexivity.
  - vm_compute. reflexivity.
Defined.

(** *** [BaseDicts.extend] *)

(** X22. [BaseDicts.extend] only grows the table: extending twice is
    extending once to the larger size, the length becomes the maximum of the
    old length and the size, the old tables stay where they were, and every
    added table is an empty one. *)
Theorem extend_grows_only {D : Type} (empty : D) dicts n m :
  extend empty (extend empty dicts n) m = extend empty dicts (Z.max n m)
  ∧ Z.of_nat (length (extend empty dicts n)) = Z.max (Z.of_nat (length dicts)) n
  ∧ take (length dicts) (extend empty dicts n) = dicts
  ∧ ∀ i x, (length dicts ≤ i)%nat →
           extend empty dicts n !! i = Some x → x = empty.
Proof.
  split; [|split; [apply extend_length|split]].
  - rewrite !extend_app, length_app, length_replicate, <- app_assoc.
    f_equal. rewrite <- replicate_add. f_equal. lia.
  - rewrite extend_app. by rewrite take_app_length.
  - intros i x Hi. rewrite extend_app, lookup_app_r by done.
    by intros [-> _]%lookup_replicate.
Qed.

Lemma extend_grows_only_witness :
  extend (∅ : gmap ascii Z) (extend ∅ [] 2) 5 = extend ∅ [] (Z.max 2 5).
Proof. exact (proj1 (extend_grows_only (∅ : gmap ascii Z) [] 2 5)). Defined.

End StatsMore.

(** * Properties of the reports *)

Module ReportProps.
Import Reports Samples StatsMore.

Section SimplifyProps.

Context {Leaf : Type}.
Implicit Types (v : value Leaf) (d dest : @OrderedDict Leaf).

Lemma value_induction (P : value Leaf → Prop) :
  (∀ x, P (VLeaf x)) →
  (∀ items, Forall (λ item, P item.2) items → P (VDict items)) →
  ∀ v, P v.
Proof.
  intros Hleaf Hdict.
  refine (fix IH v :=
            match v with
            | VLeaf x => Hleaf x
            | VDict items =>
                Hdict items
                  ((fix go (items : list (key * value Leaf))
                      : Forall (λ item, P item.2) items :=
                      match items with
                      | [] => @List.Forall_nil _ _
                      | (k, v) :: rest =>
                          @List.Forall_cons _ (λ item, P item.2) (k, v) rest
                            (IH v) (go rest)
                      end) items)
            end).
Qed.

Lemma join_exn items e : join items = inl e → e = Py.TypeError.
Proof. unfold join. destruct (mapM _ _); [done|]. by intros [= <-]. Qed.

Lemma convert_key_exn k e : convert_key k = inl e → e = Py.TypeError.
Proof. destruct k; simpl; try done. apply join_exn. Qed.

Lemma convert_key_str s : convert_key (KStr s) = inr s.
Proof. done. Qed.

Lemma dict_set_fresh {V} (d : list (string * V)) k x :
  k ∉ d.*1 → Stats.dict_set d k x = d ++ [(k, x)].
Proof.
  induction d as [|[k' x'] d IH]; simpl; [done|].
  rewrite not_elem_of_cons. intros [Hne Hk].
  rewrite decide_False by done. by rewrite IH.
Qed.

Lemma recurse_simple src :
  Forall (λ item, ∀ v', simplify_value item.2 = inr v' → simple v') src →
  ∀ dest dest',
    NoDup dest.*1 → Forall (λ item, simple item.2) dest →
    _recurse dest src = inr dest' →
    NoDup dest'.*1 ∧ Forall (λ item, simple item.2) dest'.
Proof.
  unfold _recurse.
  induction 1 as [|[k v] src Hv Hsrc IH]; intros dest dest' Hnd Hall; simpl.
  - by intros [= <-].
  - destruct (convert_key k) as [e|s]; [done|].
    destruct (simplify_value v) as [e|v'] eqn:Ev; [done|].
    apply IH.
    + by apply dict_set_NoDup.
    + apply dict_set_Forall; [done|]. by apply Hv.
Qed.

Lemma simplify_value_simple v v' : simplify_value v = inr v' → simple v'.
Proof.
  revert v'. induction v as [x|items IH] using value_induction; intros v'.
  - intros [= <-]. constructor.
  - simpl. destruct (_recurse_with simplify_value [] items) as [e|dest] eqn:E;
      [done|].
    intros [= <-].
    destruct (recurse_simple items IH [] dest) as [Hnd Hall];
      [apply NoDup_nil_2|done|done|].
    by constructor.
Qed.

Lemma recurse_exn src :
  Forall (λ item, ∀ e, simplify_value item.2 = inl e → e = Py.TypeError) src →
  ∀ dest e, _recurse dest src = inl e → e = Py.TypeError.
Proof.
  unfold _recurse.
  induction 1 as [|[k v] src Hv Hsrc IH]; intros dest e; simpl; [done|].
  destruct (convert_key k) as [e'|s] eqn:Ek.
  - intros [= <-]. by eapply convert_key_exn.
  - destruct (simplify_value v) as [e'|v'] eqn:Ev.
    + intros [= <-]. by apply Hv.
    + apply IH.
Qed.

Lemma simplify_value_exn v e : simplify_value v = inl e → e = Py.TypeError.
Proof.
  revert e. induction v as [x|items IH] using value_induction; intros e;
    [done|].
  simpl. destruct (_recurse_with simplify_value [] items) as [e'|dest] eqn:E;
    [|done].
  intros [= <-]. by eapply recurse_exn.
Qed.

Lemma as_dict_inj d d' : as_dict d = as_dict d' → d = d'.
Proof.
  revert d'. induction d as [|[k x] d IH]; intros [|[k' x'] d']; try done.
  unfold as_dict. rewrite !fmap_cons. simpl. intros [= -> -> Hd].
  f_equal. by apply IH.
Qed.

Lemma recurse_identity d :
  Forall (λ item, simplify_value item.2 = inr item.2) d →
  ∀ dest, NoDup (dest.*1 ++ d.*1) →
          _recurse dest (as_dict d) = inr (dest ++ d).
Proof.
  unfold _recurse.
  induction 1 as [|[k x] d Hx Hd IH]; intros dest Hnd; simpl.
  - by rewrite app_nil_r.
  - simpl in Hx. rewrite Hx. rewrite dict_set_fresh.
    + rewrite IH; [by rewrite <- app_assoc|].
      rewrite fmap_app, <- app_assoc. done.
    + apply NoDup_app in Hnd as (_ & Hdis & _). intros Hin.
      apply (Hdis _ Hin). rewrite fmap_cons. apply elem_of_cons. by left.
Qed.

Lemma simple_fixed v : simple v → simplify_value v = inr v.
Proof.
  induction v as [x|items IH] using value_induction; [done|].
  inversion 1 as [|d Hnd Hall Hd]; subst. simpl.
  change (_recurse_with simplify_value) with (@_recurse Leaf).
  rewrite recurse_identity; [done| |done].
  apply Forall_forall. intros [k x] Hin. simpl.
  rewrite Forall_forall in IH. rewrite Forall_forall in Hall.
  apply (IH (KStr k, x)); [|by apply (Hall (k, x))].
  unfold as_dict. apply list_elem_of_fmap. by exists (k, x).
Qed.

Lemma simplify_fixed d :
  simple (VDict (as_dict d)) → simplify (as_dict d) = inr d.
Proof.
  intros Hd. apply simple_fixed in Hd. simpl in Hd.
  unfold simplify, _recurse.
  destruct (_recurse_with simplify_value [] (as_dict d)) as [e|d']; [done|].
  injection Hd as Hd. by apply as_dict_inj in Hd as ->.
Qed.

Lemma simplify_outcome (summary : list (key * value Leaf)) :
  match simplify summary with
  | inr simplified => simple (VDict (as_dict simplified))
  | inl e => e = Py.TypeError
  end.
Proof.
  pose proof (simplify_value_simple (VDict summary)) as Hs.
  pose proof (simplify_value_exn (VDict summary)) as He.
  simpl in Hs, He. unfold simplify, _recurse.
  destruct (_recurse_with simplify_value [] summary) as [e|dest] eqn:E.
  - by apply He.
  - by apply Hs.
Qed.

Lemma simplify_again (summary : list (key * value Leaf)) simplified :
  simplify summary = inr simplified →
  simplify (as_dict simplified) = inr simplified.
Proof.
  intros Hs. apply simplify_fixed.
  pose proof (simplify_outcome summary) as H. by rewrite Hs in H.
Qed.

(** X24. [simplify] either raises [TypeError], from joining a tuple key with
    an item that is not a string, or returns a dictionary whose keys, at
    every depth, are strings and distinct. Simplifying the result again
    gives the result back, and so does simplifying any dictionary that
    already has that form: [simplify] is idempotent. *)
Theorem simplify_idempotent (summary : list (key * value Leaf)) :
  match simplify summary with
  | inr simplified =>
      simple (VDict (as_dict simplified))
      ∧ simplify (as_dict simplified) = inr simplified
  | inl e => e = Py.TypeError
  end
  ∧ ∀ d, simple (VDict (as_dict d)) → simplify (as_dict d) = inr d.
Proof.
  split; [|apply simplify_fixed].
  pose proof (simplify_outcome summary) as Hs.
  destruct (simplify summary) as [e|simplified] eqn:E; [done|].
  split; [done|]. by apply simplify_again in E.
Qed.

Context {File : Type}.

Lemma binary_not_text fmt :
  fmt ∈ BINARY_SERIALIZERS → fmt ∈ TEXT_SERIALIZERS → False.
Proof.
  unfold BINARY_SERIALIZERS. intros ->%list_elem_of_singleton.
  unfold TEXT_SERIALIZERS.
  rewrite !elem_of_cons, elem_of_nil. intuition discriminate.
Qed.

Lemma report_loop_simplified d (reports : list (string * File)) :
  simplify (as_dict d) = inr d →
  let out := report_loop (as_dict d) reports in
  snd out = inr tt
  ∧ call_format <$> fst out = reports.*1
  ∧ Forall (λ c, payload c = as_dict d) (fst out).
Proof.
  intros Hd. simpl. induction reports as [|[fmt outfile] reports IH]; [done|].
  simpl. rewrite Hd.
  destruct (report_loop (as_dict d) reports) as [calls res].
  simpl in IH. destruct IH as (-> & Hf & Hall).
  repeat case_bool_decide; cbn [fst snd]; rewrite !fmap_cons, Hf;
    repeat split; by try constructor.
Qed.


End SimplifyProps.

Lemma simplify_idempotent_witness :
  match simplify sample_summary with
  | inr simplified =>
      simple (VDict (as_dict simplified))
      ∧ simplify (as_dict simplified) = inr simplified
  | inl e => e = Py.TypeError
  end.
Proof. exact (proj1 (simplify_idempotent sample_summary)). Defined.


Lemma averages_exn bps count e :
  averages bps count = inl e →
  e = Py.ZeroDivisionError ∧ count = 0 ∧ ∃ bp, Some bp ∈ bps.
Proof.
  induction bps as [|[bp|] bps IH]; simpl; [done| |].
  - unfold Py.truediv. destruct (count =? 0) eqn:E.
    + intros [= <-]. apply Z.eqb_eq in E. split; [done|]. split; [done|].
      exists bp. apply elem_of_cons. by left.
    + destruct (averages bps count) as [e'|xs]; [|done].
      intros [= <-]. destruct (IH eq_refl) as (-> & -> & _). done.
  - destruct (averages bps count) as [e'|xs]; [|done].
    intros [= <-]. destruct (IH eq_refl) as (-> & -> & bp & Hbp).
    split; [done|]. split; [done|]. exists bp. apply elem_of_cons. by right.
Qed.

Lemma averages_zero bps bp :
  Some bp ∈ bps → averages bps 0 = inl Py.ZeroDivisionError.
Proof.
  induction bps as [|[bp'|] bps IH]; simpl.
  - by intros ?%elem_of_nil.
  - done.
  - intros [?|Hin]%elem_of_cons; [done|]. by rewrite IH.
Qed.

Lemma averages_shape bps count avg :
  averages bps count = inr avg →
  length avg = length bps
  ∧ ∀ i, avg !! i = Some None ↔ bps !! i = Some None.
Proof.
  revert avg. induction bps as [|bp bps IH]; intros avg; simpl.
  - by intros [= <-].
  - destruct bp as [bp|].
    + destruct (Py.truediv bp count) as [e|x]; [done|].
      destruct (averages bps count) as [e|xs]; [done|].
      intros [= <-]. destruct (IH _ eq_refl) as [Hlen Hnone].
      split; [simpl; by rewrite Hlen|]. intros [|i]; simpl; [|apply Hnone].
      split; intros [=].
    + destruct (averages bps count) as [e|xs]; [done|].
      intros [= <-]. destruct (IH _ eq_refl) as [Hlen Hnone].
      split; [simpl; by rewrite Hlen|]. intros [|i]; simpl; [done|apply Hnone].
Qed.



(** *** The report files *)

Lemma report_loop_formats {Leaf File : Type} (summary : list (key * value Leaf))
    (reports : list (string * File)) :
  snd (report_loop summary reports) = inr tt →
  call_format <$> fst (report_loop summary reports) = reports.*1.
Proof.
  revert summary. induction reports as [|[fmt outfile] reports IH];
    intros summary; [done|].
  cbn [report_loop]. case_bool_decide.
  - specialize (IH summary).
    destruct (report_loop summary reports) as [calls res].
    cbn [fst snd] in *. intros Hres. rewrite !fmap_cons. f_equal. by apply IH.
  - case_bool_decide.
    + destruct (simplify summary) as [e|simplified]; [done|].
      specialize (IH (as_dict simplified)).
      destruct (report_loop (as_dict simplified) reports) as [calls res].
      cbn [fst snd] in *. intros Hres. rewrite !fmap_cons. f_equal.
      by apply IH.
    + specialize (IH summary).
      destruct (report_loop summary reports) as [calls res].
      cbn [fst snd] in *. intros Hres. rewrite !fmap_cons. f_equal.
      by apply IH.
Qed.

Lemma init_files (STDOUT STDERR : string) (splitext : string → string * string)
    report_file formats :
  let self := BaseReportGenerator_init STDOUT STDERR splitext report_file
                formats in
  report_formats self ≠ []
  ∧ length (files_of (report_files self)) = length (report_formats self).
Proof.
  unfold BaseReportGenerator_init. case_bool_decide; simpl.
  - split; [by destruct formats as [[|]|]|]. by rewrite length_replicate.
  - split; [by destruct formats as [[|]|]|].
    case_bool_decide as Hone; simpl; [done|]. by rewrite length_fmap.
Qed.

(** X27. The constructor always sets at least one format and as many files
    as formats, so [generate_reports] makes one call per format. The files
    are a generator exactly when the report goes to a named file in
    several formats. A run that ends normally leaves a tuple of files as it
    was, and a second run repeats the calls; it leaves a generator used up,
    and a second run on the same object makes no call at all. *)
Theorem report_files_are_used_up {Leaf : Type} (STDOUT STDERR : string)
    (splitext : string → string * string) report_file formats
    (summary : list (key * value Leaf)) :
  let self := BaseReportGenerator_init STDOUT STDERR splitext report_file
                formats in
  report_formats self ≠ []
  ∧ length (files_of (report_files self)) = length (report_formats self)
  ∧ ((∃ pending, report_files self = Generator pending) ↔
     ¬ (report_file = STDOUT ∨ report_file = STDERR)
     ∧ length (report_formats self) ≠ 1%nat)
  ∧ ∀ calls self',
      generate_reports self summary = (calls, inr tt, self') →
      call_format <$> calls = report_formats self
      ∧ generate_reports self' summary
        = (match report_files self with
           | Tuple _ => calls
           | Generator _ => []
           end, inr tt, self').
Proof.
  intros self.
  destruct (init_files STDOUT STDERR splitext report_file formats)
    as [Hne Hlen]. fold self in Hne, Hlen.
  split; [done|]. split; [done|]. split.
  - unfold self, BaseReportGenerator_init.
    case_bool_decide as Hstd; simpl.
    + split; [by intros [? ?]|tauto].
    + case_bool_decide as Hone; simpl.
      * split; [by intros [? ?]|tauto].
      * split; [done|eauto].
  - intros calls self'. unfold generate_reports.
    pose proof (report_loop_formats summary
                  (zip (report_formats self) (files_of (report_files self))))
      as Hfmt.
    destruct (report_loop summary _) as [calls0 res] eqn:Eloop.
    intros [= -> -> <-]. simpl in Hfmt.
    rewrite fst_zip in Hfmt by lia. split; [by apply Hfmt|].
    rewrite Hlen, Nat.min_id. simpl.
    destruct (report_files self) as [files|pending] eqn:Efiles; simpl in *.
    + by rewrite Eloop.
    + rewrite <- Hlen, drop_all. simpl.
      assert (zip (report_formats self) ([] : list File) = []) as ->
        by (by destruct (report_formats self)).
      simpl. by rewrite drop_nil.
Qed.

Lemma report_files_are_used_up_witness :
  generate_reports (generate_reports two_formats sample_summary).2
    sample_summary
  = ([], inr tt, (generate_reports two_formats sample_summary).2).
Proof.
  refine (proj2 (proj2 (proj2 (proj2
    (report_files_are_used_up "-" "_" (λ name, (name, ""%string)) "out"
       (Some ["json"; "yaml"]%string) sample_summary)))
    (generate_reports two_formats sample_summary).1.1
    (generate_reports two_formats sample_summary).2 _)).
  vm_compute. reflexivity.
Defined.

(** *** Keys that fall together *)

Section Collisions.
Context {Leaf : Type}.

Lemma recurse_items (src : list (key * value Leaf)) dest d :
  _recurse dest src = inr d →
  ∃ items : @OrderedDict Leaf,
    Forall2 (λ kv item, convert_key kv.1 = inr item.1
                        ∧ simplify_value kv.2 = inr item.2) src items
    ∧ d = foldl (λ acc item, Stats.dict_set acc item.1 item.2) dest items.
Proof.
  unfold _recurse. revert dest.
  induction src as [|[k v] src IH]; intros dest; simpl.
  - intros [= <-]. exists []. by split; [constructor|].
  - destruct (convert_key k) as [e|s] eqn:Ek; [done|].
    destruct (simplify_value v) as [e|v'] eqn:Ev; [done|].
    intros (items & Hall & ->)%IH. exists ((s, v') :: items).
    split; [by constructor|done].
Qed.

Lemma foldl_dict_set (items : @OrderedDict Leaf) :
  let d := foldl (λ acc item, Stats.dict_set acc item.1 item.2) [] items in
  d.*1 = Stats.first_occurrences items.*1
  ∧ ∀ s, Stats.dict_get d s = Stats.dict_get (reverse items) s.
Proof.
  simpl. induction items as [|[s v] items [IHk IHv]] using rev_ind; [done|].
  rewrite foldl_app. simpl. split.
  - rewrite dict_set_keys, fmap_app. change ([(s, v)].*1) with [s].
    by rewrite first_occurrences_snoc, IHk.
  - intros s'. rewrite dict_get_set, reverse_snoc. simpl.
    destruct (decide (s = s')); [done|apply IHv].
Qed.

(** X28. What [simplify] does with keys that convert to the same string,
    such as [1] and ['1']: the result has one entry per converted key, in
    the order in which the converted keys first occur, and each entry holds
    the simplified value of the last item with that key; the values of the
    earlier ones are dropped. *)
Theorem simplify_collisions (summary : list (key * value Leaf)) d :
  simplify summary = inr d →
  ∃ items : @OrderedDict Leaf,
    Forall2 (λ kv item, convert_key kv.1 = inr item.1
                        ∧ simplify_value kv.2 = inr item.2) summary items
    ∧ d.*1 = Stats.first_occurrences items.*1
    ∧ ∀ s, Stats.dict_get d s = Stats.dict_get (reverse items) s.
Proof.
  intros (items & Hall & ->)%recurse_items. exists items.
  split; [done|]. apply foldl_dict_set.
Qed.

End Collisions.

Lemma simplify_collisions_witness :
  ∃ items : list (string * value Z),
    Forall2 (λ kv item, convert_key kv.1 = inr item.1
                        ∧ simplify_value kv.2 = inr item.2)
            sample_summary items
    ∧ simplified_summary.*1 = Stats.first_occurrences items.*1
    ∧ ∀ s, Stats.dict_get simplified_summary s
           = Stats.dict_get (reverse items) s.
Proof.
  apply (simplify_collisions sample_summary simplified_summary).
  vm_compute. reflexivity.
Defined.

End ReportProps.
